(** * Lesson generator scripts and unit icons: a shallow embedding

    The repository ships two variants of a Node script that turns an outline
    (a JSON array of lesson descriptors) into Markdown lesson files by asking
    a chat-completion service for each body, and a small TypeScript helper
    that maps a unit name to an icon.

    ECMAScript strings are sequences of UTF-16 code units; they are modelled
    as [list N].  The library functions the scripts call ([trim],
    [toLowerCase], [slice], [padStart], [encodeURIComponent], the regular
    expressions) are written out on code units.  Everything that
    touches the outside (environment, files, network, console, exit code) is
    threaded through a small trace monad over a [World] of oracles. *)

From Stdlib Require Import NArith ZArith Lia Ascii String DecimalString.
From Stdlib Require DecimalFacts DecimalPos DecimalZ.
From stdpp Require Import base option list gmap.

Local Open Scope N_scope.

(** ** ECMAScript strings *)

Module JS.

Abbreviation jsstring := (list N).

(** *** String literals

    A literal is written as a Rocq string (the UTF-8 bytes of this file) and
    decoded to code points, then to UTF-16 code units. *)

Definition bytes (s : string) : list N :=
  map N_of_ascii (list_ascii_of_string s).

Definition cont (b : N) : N := N.land b 0x3F.

Fixpoint utf8 (bs : list N) : list N :=
  match bs with
  | [] => []
  | b :: r =>
    if b <? 0x80 then b :: utf8 r
    else if b <? 0xE0 then
      match r with
      | b1 :: r1 => (N.land b 0x1F * 0x40 + cont b1) :: utf8 r1
      | _ => []
      end
    else if b <? 0xF0 then
      match r with
      | b1 :: b2 :: r2 =>
        (N.land b 0x0F * 0x1000 + cont b1 * 0x40 + cont b2) :: utf8 r2
      | _ => []
      end
    else
      match r with
      | b1 :: b2 :: b3 :: r3 =>
        (N.land b 0x07 * 0x40000 + cont b1 * 0x1000 + cont b2 * 0x40 + cont b3)
          :: utf8 r3
      | _ => []
      end
  end.

(** UTF-16 encoding of one code point (CodePointsToString). *)
Definition utf16 (cp : N) : list N :=
  if cp <? 0x10000 then [cp]
  else [0xD800 + (cp - 0x10000) / 0x400; 0xDC00 + (cp - 0x10000) mod 0x400].

Definition js (s : string) : list N := flat_map utf16 (utf8 (bytes s)).

Definition DQUOTE : N := 0x22.
Definition NEWLINE : N := 0x0A.
Definition HYPHEN : N := 0x2D.

(** *** Character classes *)

Definition between (lo hi c : N) : bool := (lo <=? c) && (c <=? hi).

(** WhiteSpace and LineTerminator: what [trim] strips and [\s] matches. *)
Definition isWhiteSpace (c : N) : bool :=
  between 0x09 0x0D c || (c =? 0x20) || (c =? 0xA0) || (c =? 0x1680)
  || between 0x2000 0x200A c || (c =? 0x2028) || (c =? 0x2029)
  || (c =? 0x202F) || (c =? 0x205F) || (c =? 0x3000) || (c =? 0xFEFF).

(** LineTerminator: what [.] does not match. *)
Definition isLineTerminator (c : N) : bool :=
  (c =? 0x0A) || (c =? 0x0D) || (c =? 0x2028) || (c =? 0x2029).

Definition isHighSurrogate (c : N) : bool := between 0xD800 0xDBFF c.
Definition isLowSurrogate (c : N) : bool := between 0xDC00 0xDFFF c.

(** *** String.prototype methods *)

Fixpoint dropWhile (p : N -> bool) (s : list N) : list N :=
  match s with
  | [] => []
  | c :: t => if p c then dropWhile p t else s
  end.

Fixpoint takeWhile (p : N -> bool) (s : list N) : list N :=
  match s with
  | [] => []
  | c :: t => if p c then c :: takeWhile p t else []
  end.

Definition trimStart (s : list N) : list N := dropWhile isWhiteSpace s.

Fixpoint trimEnd (s : list N) : list N :=
  match s with
  | [] => []
  | c :: t =>
    match trimEnd t with
    | [] => if isWhiteSpace c then [] else [c]
    | t' => c :: t'
    end
  end.

Definition trim (s : list N) : list N := trimEnd (trimStart s).

(** [s.slice(0, n)] for a non-negative [n]. *)
Definition slice0 (n : nat) (s : list N) : list N := take n s.

(** [s.padStart(n, '0')]. *)
Definition padStart0 (n : nat) (s : list N) : list N :=
  replicate (n - length s) 0x30 ++ s.

(** [String(n)] for an integer [n] (exact below 10^21 in magnitude, where
    Number::toString switches to exponent notation). *)
Definition digits (n : Z) : list N :=
  bytes (NilEmpty.string_of_int (Z.to_int n)).

(** [s1 + sep + s2 + ...]: Array.prototype.join on strings. *)
Fixpoint join (sep : list N) (l : list (list N)) : list N :=
  match l with
  | [] => []
  | [x] => x
  | x :: r => x ++ sep ++ join sep r
  end.

(** Truthiness of a string: non-empty. *)
Definition truthy (s : list N) : bool :=
  match s with [] => false | _ => true end.

(** [s.replace(/\DQUOTE/g, RIGHT-DOUBLE-QUOTATION-MARK)]: every double quote
    (U+0022) becomes U+201D. *)
Definition replaceQuotes (s : list N) : list N :=
  map (fun c => if c =? DQUOTE then 0x201D else c) s.

(** Replace every maximal run of code units satisfying [p] by [r]: the
    global replace of a one-class pattern [/[...]+/g]. *)
Fixpoint replaceRuns (p : N -> bool) (r : list N) (inRun : bool) (s : list N)
  : list N :=
  match s with
  | [] => []
  | c :: t =>
    if p c then (if inRun then [] else r) ++ replaceRuns p r true t
    else c :: replaceRuns p r false t
  end.

(** [s.replace(/(^-|-$)/g, '')]: a hyphen at index 0 and a hyphen at the
    last index are removed (one and the same when the string is a lone
    hyphen). *)
Definition dropFirstHyphen (s : list N) : list N :=
  match s with
  | c :: t => if c =? HYPHEN then t else s
  | [] => []
  end.

Fixpoint dropLastHyphen (s : list N) : list N :=
  match s with
  | [] => []
  | [c] => if c =? HYPHEN then [] else [c]
  | c :: t => c :: dropLastHyphen t
  end.

Definition stripHyphens (s : list N) : list N :=
  dropLastHyphen (dropFirstHyphen s).

End JS.

(** ** Unicode case conversion

    [String.prototype.toLowerCase] converts the string to code points, applies
    the Unicode default lower-case conversion (the one-to-one mappings of
    UnicodeData.txt, the unconditional and the language-insensitive
    context-sensitive mappings of SpecialCasing.txt) and converts back to
    code units.  The tables are those of Unicode 14. *)

Module Unicode.
Import JS.

(** StringToCodePoints: a high surrogate followed by a low surrogate is one
    code point; any other code unit, a lone surrogate included, is itself. *)
Fixpoint codePoints (s : list N) : list N :=
  match s with
  | [] => []
  | c :: t =>
    match t with
    | d :: t' =>
      if isHighSurrogate c && isLowSurrogate d
      then (0x10000 + (c - 0xD800) * 0x400 + (d - 0xDC00)) :: codePoints t'
      else c :: codePoints t
    | [] => [c]
    end
  end.

(** One-to-one lower-case mappings as arithmetic progressions: an entry
    [(lo, hi, step, img)] maps [lo + k * step <= hi] to [img + k * step]. *)
Definition lowerTable : list (N * N * N * N) := [
  (0x41, 0x5A, 1, 0x61); (0xC0, 0xD6, 1, 0xE0); (0xD8, 0xDE, 1, 0xF8);
  (0x100, 0x12E, 2, 0x101); (0x132, 0x136, 2, 0x133);
  (0x139, 0x147, 2, 0x13A); (0x14A, 0x176, 2, 0x14B);
  (0x178, 0x178, 1, 0xFF); (0x179, 0x17D, 2, 0x17A);
  (0x181, 0x181, 1, 0x253); (0x182, 0x184, 2, 0x183);
  (0x186, 0x186, 1, 0x254); (0x187, 0x187, 1, 0x188);
  (0x189, 0x18A, 1, 0x256); (0x18B, 0x18B, 1, 0x18C);
  (0x18E, 0x18E, 1, 0x1DD); (0x18F, 0x18F, 1, 0x259);
  (0x190, 0x190, 1, 0x25B); (0x191, 0x191, 1, 0x192);
  (0x193, 0x193, 1, 0x260); (0x194, 0x194, 1, 0x263);
  (0x196, 0x196, 1, 0x269); (0x197, 0x197, 1, 0x268);
  (0x198, 0x198, 1, 0x199); (0x19C, 0x19C, 1, 0x26F);
  (0x19D, 0x19D, 1, 0x272); (0x19F, 0x19F, 1, 0x275);
  (0x1A0, 0x1A4, 2, 0x1A1); (0x1A6, 0x1A6, 1, 0x280);
  (0x1A7, 0x1A7, 1, 0x1A8); (0x1A9, 0x1A9, 1, 0x283);
  (0x1AC, 0x1AC, 1, 0x1AD); (0x1AE, 0x1AE, 1, 0x288);
  (0x1AF, 0x1AF, 1, 0x1B0); (0x1B1, 0x1B2, 1, 0x28A);
  (0x1B3, 0x1B5, 2, 0x1B4); (0x1B7, 0x1B7, 1, 0x292);
  (0x1B8, 0x1B8, 1, 0x1B9); (0x1BC, 0x1BC, 1, 0x1BD);
  (0x1C4, 0x1C4, 1, 0x1C6); (0x1C5, 0x1C5, 1, 0x1C6);
  (0x1C7, 0x1C7, 1, 0x1C9); (0x1C8, 0x1C8, 1, 0x1C9);
  (0x1CA, 0x1CA, 1, 0x1CC); (0x1CB, 0x1DB, 2, 0x1CC);
  (0x1DE, 0x1EE, 2, 0x1DF); (0x1F1, 0x1F1, 1, 0x1F3);
  (0x1F2, 0x1F4, 2, 0x1F3); (0x1F6, 0x1F6, 1, 0x195);
  (0x1F7, 0x1F7, 1, 0x1BF); (0x1F8, 0x21E, 2, 0x1F9);
  (0x220, 0x220, 1, 0x19E); (0x222, 0x232, 2, 0x223);
  (0x23A, 0x23A, 1, 0x2C65); (0x23B, 0x23B, 1, 0x23C);
  (0x23D, 0x23D, 1, 0x19A); (0x23E, 0x23E, 1, 0x2C66);
  (0x241, 0x241, 1, 0x242); (0x243, 0x243, 1, 0x180);
  (0x244, 0x244, 1, 0x289); (0x245, 0x245, 1, 0x28C);
  (0x246, 0x24E, 2, 0x247); (0x370, 0x372, 2, 0x371);
  (0x376, 0x376, 1, 0x377); (0x37F, 0x37F, 1, 0x3F3);
  (0x386, 0x386, 1, 0x3AC); (0x388, 0x38A, 1, 0x3AD);
  (0x38C, 0x38C, 1, 0x3CC); (0x38E, 0x38F, 1, 0x3CD);
  (0x391, 0x3A1, 1, 0x3B1); (0x3A3, 0x3AB, 1, 0x3C3);
  (0x3CF, 0x3CF, 1, 0x3D7); (0x3D8, 0x3EE, 2, 0x3D9);
  (0x3F4, 0x3F4, 1, 0x3B8); (0x3F7, 0x3F7, 1, 0x3F8);
  (0x3F9, 0x3F9, 1, 0x3F2); (0x3FA, 0x3FA, 1, 0x3FB);
  (0x3FD, 0x3FF, 1, 0x37B); (0x400, 0x40F, 1, 0x450);
  (0x410, 0x42F, 1, 0x430); (0x460, 0x480, 2, 0x461);
  (0x48A, 0x4BE, 2, 0x48B); (0x4C0, 0x4C0, 1, 0x4CF);
  (0x4C1, 0x4CD, 2, 0x4C2); (0x4D0, 0x52E, 2, 0x4D1);
  (0x531, 0x556, 1, 0x561); (0x10A0, 0x10C5, 1, 0x2D00);
  (0x10C7, 0x10C7, 1, 0x2D27); (0x10CD, 0x10CD, 1, 0x2D2D);
  (0x13A0, 0x13EF, 1, 0xAB70); (0x13F0, 0x13F5, 1, 0x13F8);
  (0x1C90, 0x1CBA, 1, 0x10D0); (0x1CBD, 0x1CBF, 1, 0x10FD);
  (0x1E00, 0x1E94, 2, 0x1E01); (0x1E9E, 0x1E9E, 1, 0xDF);
  (0x1EA0, 0x1EFE, 2, 0x1EA1); (0x1F08, 0x1F0F, 1, 0x1F00);
  (0x1F18, 0x1F1D, 1, 0x1F10); (0x1F28, 0x1F2F, 1, 0x1F20);
  (0x1F38, 0x1F3F, 1, 0x1F30); (0x1F48, 0x1F4D, 1, 0x1F40);
  (0x1F59, 0x1F5F, 2, 0x1F51); (0x1F68, 0x1F6F, 1, 0x1F60);
  (0x1F88, 0x1F8F, 1, 0x1F80); (0x1F98, 0x1F9F, 1, 0x1F90);
  (0x1FA8, 0x1FAF, 1, 0x1FA0); (0x1FB8, 0x1FB9, 1, 0x1FB0);
  (0x1FBA, 0x1FBB, 1, 0x1F70); (0x1FBC, 0x1FBC, 1, 0x1FB3);
  (0x1FC8, 0x1FCB, 1, 0x1F72); (0x1FCC, 0x1FCC, 1, 0x1FC3);
  (0x1FD8, 0x1FD9, 1, 0x1FD0); (0x1FDA, 0x1FDB, 1, 0x1F76);
  (0x1FE8, 0x1FE9, 1, 0x1FE0); (0x1FEA, 0x1FEB, 1, 0x1F7A);
  (0x1FEC, 0x1FEC, 1, 0x1FE5); (0x1FF8, 0x1FF9, 1, 0x1F78);
  (0x1FFA, 0x1FFB, 1, 0x1F7C); (0x1FFC, 0x1FFC, 1, 0x1FF3);
  (0x2126, 0x2126, 1, 0x3C9); (0x212A, 0x212A, 1, 0x6B);
  (0x212B, 0x212B, 1, 0xE5); (0x2132, 0x2132, 1, 0x214E);
  (0x2160, 0x216F, 1, 0x2170); (0x2183, 0x2183, 1, 0x2184);
  (0x24B6, 0x24CF, 1, 0x24D0); (0x2C00, 0x2C2F, 1, 0x2C30);
  (0x2C60, 0x2C60, 1, 0x2C61); (0x2C62, 0x2C62, 1, 0x26B);
  (0x2C63, 0x2C63, 1, 0x1D7D); (0x2C64, 0x2C64, 1, 0x27D);
  (0x2C67, 0x2C6B, 2, 0x2C68); (0x2C6D, 0x2C6D, 1, 0x251);
  (0x2C6E, 0x2C6E, 1, 0x271); (0x2C6F, 0x2C6F, 1, 0x250);
  (0x2C70, 0x2C70, 1, 0x252); (0x2C72, 0x2C72, 1, 0x2C73);
  (0x2C75, 0x2C75, 1, 0x2C76); (0x2C7E, 0x2C7F, 1, 0x23F);
  (0x2C80, 0x2CE2, 2, 0x2C81); (0x2CEB, 0x2CED, 2, 0x2CEC);
  (0x2CF2, 0x2CF2, 1, 0x2CF3); (0xA640, 0xA66C, 2, 0xA641);
  (0xA680, 0xA69A, 2, 0xA681); (0xA722, 0xA72E, 2, 0xA723);
  (0xA732, 0xA76E, 2, 0xA733); (0xA779, 0xA77B, 2, 0xA77A);
  (0xA77D, 0xA77D, 1, 0x1D79); (0xA77E, 0xA786, 2, 0xA77F);
  (0xA78B, 0xA78B, 1, 0xA78C); (0xA78D, 0xA78D, 1, 0x265);
  (0xA790, 0xA792, 2, 0xA791); (0xA796, 0xA7A8, 2, 0xA797);
  (0xA7AA, 0xA7AA, 1, 0x266); (0xA7AB, 0xA7AB, 1, 0x25C);
  (0xA7AC, 0xA7AC, 1, 0x261); (0xA7AD, 0xA7AD, 1, 0x26C);
  (0xA7AE, 0xA7AE, 1, 0x26A); (0xA7B0, 0xA7B0, 1, 0x29E);
  (0xA7B1, 0xA7B1, 1, 0x287); (0xA7B2, 0xA7B2, 1, 0x29D);
  (0xA7B3, 0xA7B3, 1, 0xAB53); (0xA7B4, 0xA7C2, 2, 0xA7B5);
  (0xA7C4, 0xA7C4, 1, 0xA794); (0xA7C5, 0xA7C5, 1, 0x282);
  (0xA7C6, 0xA7C6, 1, 0x1D8E); (0xA7C7, 0xA7C9, 2, 0xA7C8);
  (0xA7D0, 0xA7D0, 1, 0xA7D1); (0xA7D6, 0xA7D8, 2, 0xA7D7);
  (0xA7F5, 0xA7F5, 1, 0xA7F6); (0xFF21, 0xFF3A, 1, 0xFF41);
  (0x10400, 0x10427, 1, 0x10428); (0x104B0, 0x104D3, 1, 0x104D8);
  (0x10570, 0x1057A, 1, 0x10597); (0x1057C, 0x1058A, 1, 0x105A3);
  (0x1058C, 0x10592, 1, 0x105B3); (0x10594, 0x10595, 1, 0x105BB);
  (0x10C80, 0x10CB2, 1, 0x10CC0); (0x118A0, 0x118BF, 1, 0x118C0);
  (0x16E40, 0x16E5F, 1, 0x16E60); (0x1E900, 0x1E921, 1, 0x1E922)
].

Fixpoint lowerLookup (tbl : list (N * N * N * N)) (cp : N) : option N :=
  match tbl with
  | [] => None
  | (lo, hi, step, img) :: r =>
    if between lo hi cp && ((cp - lo) mod step =? 0)
    then Some (img + (cp - lo))
    else lowerLookup r cp
  end.

Definition inRanges (tbl : list (N * N)) (cp : N) : bool :=
  existsb (fun r => between (fst r) (snd r) cp) tbl.

(** Case_Ignorable code points. *)
Definition caseIgnorableTable : list (N * N) := [
  (0x27, 0x27); (0x2E, 0x2E); (0x3A, 0x3A); (0x5E, 0x5E); (0x60, 0x60);
  (0xA8, 0xA8); (0xAD, 0xAD); (0xAF, 0xAF); (0xB4, 0xB4); (0xB7, 0xB8);
  (0x2B0, 0x36F); (0x374, 0x375); (0x37A, 0x37A); (0x384, 0x385);
  (0x387, 0x387); (0x483, 0x489); (0x559, 0x559); (0x55F, 0x55F);
  (0x591, 0x5BD); (0x5BF, 0x5BF); (0x5C1, 0x5C2); (0x5C4, 0x5C5);
  (0x5C7, 0x5C7); (0x5F4, 0x5F4); (0x600, 0x605); (0x610, 0x61A);
  (0x61C, 0x61C); (0x640, 0x640); (0x64B, 0x65F); (0x670, 0x670);
  (0x6D6, 0x6DD); (0x6DF, 0x6E8); (0x6EA, 0x6ED); (0x70F, 0x70F);
  (0x711, 0x711); (0x730, 0x74A); (0x7A6, 0x7B0); (0x7EB, 0x7F5);
  (0x7FA, 0x7FA); (0x7FD, 0x7FD); (0x816, 0x82D); (0x859, 0x85B);
  (0x888, 0x888); (0x890, 0x891); (0x898, 0x89F); (0x8C9, 0x902);
  (0x93A, 0x93A); (0x93C, 0x93C); (0x941, 0x948); (0x94D, 0x94D);
  (0x951, 0x957); (0x962, 0x963); (0x971, 0x971); (0x981, 0x981);
  (0x9BC, 0x9BC); (0x9C1, 0x9C4); (0x9CD, 0x9CD); (0x9E2, 0x9E3);
  (0x9FE, 0x9FE); (0xA01, 0xA02); (0xA3C, 0xA3C); (0xA41, 0xA42);
  (0xA47, 0xA48); (0xA4B, 0xA4D); (0xA51, 0xA51); (0xA70, 0xA71);
  (0xA75, 0xA75); (0xA81, 0xA82); (0xABC, 0xABC); (0xAC1, 0xAC5);
  (0xAC7, 0xAC8); (0xACD, 0xACD); (0xAE2, 0xAE3); (0xAFA, 0xAFF);
  (0xB01, 0xB01); (0xB3C, 0xB3C); (0xB3F, 0xB3F); (0xB41, 0xB44);
  (0xB4D, 0xB4D); (0xB55, 0xB56); (0xB62, 0xB63); (0xB82, 0xB82);
  (0xBC0, 0xBC0); (0xBCD, 0xBCD); (0xC00, 0xC00); (0xC04, 0xC04);
  (0xC3C, 0xC3C); (0xC3E, 0xC40); (0xC46, 0xC48); (0xC4A, 0xC4D);
  (0xC55, 0xC56); (0xC62, 0xC63); (0xC81, 0xC81); (0xCBC, 0xCBC);
  (0xCBF, 0xCBF); (0xCC6, 0xCC6); (0xCCC, 0xCCD); (0xCE2, 0xCE3);
  (0xD00, 0xD01); (0xD3B, 0xD3C); (0xD41, 0xD44); (0xD4D, 0xD4D);
  (0xD62, 0xD63); (0xD81, 0xD81); (0xDCA, 0xDCA); (0xDD2, 0xDD4);
  (0xDD6, 0xDD6); (0xE31, 0xE31); (0xE34, 0xE3A); (0xE46, 0xE4E);
  (0xEB1, 0xEB1); (0xEB4, 0xEBC); (0xEC6, 0xEC6); (0xEC8, 0xECD);
  (0xF18, 0xF19); (0xF35, 0xF35); (0xF37, 0xF37); (0xF39, 0xF39);
  (0xF71, 0xF7E); (0xF80, 0xF84); (0xF86, 0xF87); (0xF8D, 0xF97);
  (0xF99, 0xFBC); (0xFC6, 0xFC6); (0x102D, 0x1030); (0x1032, 0x1037);
  (0x1039, 0x103A); (0x103D, 0x103E); (0x1058, 0x1059); (0x105E, 0x1060);
  (0x1071, 0x1074); (0x1082, 0x1082); (0x1085, 0x1086); (0x108D, 0x108D);
  (0x109D, 0x109D); (0x10FC, 0x10FC); (0x135D, 0x135F); (0x1712, 0x1714);
  (0x1732, 0x1733); (0x1752, 0x1753); (0x1772, 0x1773); (0x17B4, 0x17B5);
  (0x17B7, 0x17BD); (0x17C6, 0x17C6); (0x17C9, 0x17D3); (0x17D7, 0x17D7);
  (0x17DD, 0x17DD); (0x180B, 0x180F); (0x1843, 0x1843); (0x1885, 0x1886);
  (0x18A9, 0x18A9); (0x1920, 0x1922); (0x1927, 0x1928); (0x1932, 0x1932);
  (0x1939, 0x193B); (0x1A17, 0x1A18); (0x1A1B, 0x1A1B); (0x1A56, 0x1A56);
  (0x1A58, 0x1A5E); (0x1A60, 0x1A60); (0x1A62, 0x1A62); (0x1A65, 0x1A6C);
  (0x1A73, 0x1A7C); (0x1A7F, 0x1A7F); (0x1AA7, 0x1AA7); (0x1AB0, 0x1ACE);
  (0x1B00, 0x1B03); (0x1B34, 0x1B34); (0x1B36, 0x1B3A); (0x1B3C, 0x1B3C);
  (0x1B42, 0x1B42); (0x1B6B, 0x1B73); (0x1B80, 0x1B81); (0x1BA2, 0x1BA5);
  (0x1BA8, 0x1BA9); (0x1BAB, 0x1BAD); (0x1BE6, 0x1BE6); (0x1BE8, 0x1BE9);
  (0x1BED, 0x1BED); (0x1BEF, 0x1BF1); (0x1C2C, 0x1C33); (0x1C36, 0x1C37);
  (0x1C78, 0x1C7D); (0x1CD0, 0x1CD2); (0x1CD4, 0x1CE0); (0x1CE2, 0x1CE8);
  (0x1CED, 0x1CED); (0x1CF4, 0x1CF4); (0x1CF8, 0x1CF9); (0x1D2C, 0x1D6A);
  (0x1D78, 0x1D78); (0x1D9B, 0x1DFF); (0x1FBD, 0x1FBD); (0x1FBF, 0x1FC1);
  (0x1FCD, 0x1FCF); (0x1FDD, 0x1FDF); (0x1FED, 0x1FEF); (0x1FFD, 0x1FFE);
  (0x200B, 0x200F); (0x2018, 0x2019); (0x2024, 0x2024); (0x2027, 0x2027);
  (0x202A, 0x202E); (0x2060, 0x2064); (0x2066, 0x206F); (0x2071, 0x2071);
  (0x207F, 0x207F); (0x2090, 0x209C); (0x20D0, 0x20F0); (0x2C7C, 0x2C7D);
  (0x2CEF, 0x2CF1); (0x2D6F, 0x2D6F); (0x2D7F, 0x2D7F); (0x2DE0, 0x2DFF);
  (0x2E2F, 0x2E2F); (0x3005, 0x3005); (0x302A, 0x302D); (0x3031, 0x3035);
  (0x303B, 0x303B); (0x3099, 0x309E); (0x30FC, 0x30FE); (0xA015, 0xA015);
  (0xA4F8, 0xA4FD); (0xA60C, 0xA60C); (0xA66F, 0xA672); (0xA674, 0xA67D);
  (0xA67F, 0xA67F); (0xA69C, 0xA69F); (0xA6F0, 0xA6F1); (0xA700, 0xA721);
  (0xA770, 0xA770); (0xA788, 0xA78A); (0xA7F2, 0xA7F4); (0xA7F8, 0xA7F9);
  (0xA802, 0xA802); (0xA806, 0xA806); (0xA80B, 0xA80B); (0xA825, 0xA826);
  (0xA82C, 0xA82C); (0xA8C4, 0xA8C5); (0xA8E0, 0xA8F1); (0xA8FF, 0xA8FF);
  (0xA926, 0xA92D); (0xA947, 0xA951); (0xA980, 0xA982); (0xA9B3, 0xA9B3);
  (0xA9B6, 0xA9B9); (0xA9BC, 0xA9BD); (0xA9CF, 0xA9CF); (0xA9E5, 0xA9E6);
  (0xAA29, 0xAA2E); (0xAA31, 0xAA32); (0xAA35, 0xAA36); (0xAA43, 0xAA43);
  (0xAA4C, 0xAA4C); (0xAA70, 0xAA70); (0xAA7C, 0xAA7C); (0xAAB0, 0xAAB0);
  (0xAAB2, 0xAAB4); (0xAAB7, 0xAAB8); (0xAABE, 0xAABF); (0xAAC1, 0xAAC1);
  (0xAADD, 0xAADD); (0xAAEC, 0xAAED); (0xAAF3, 0xAAF4); (0xAAF6, 0xAAF6);
  (0xAB5B, 0xAB5F); (0xAB69, 0xAB6B); (0xABE5, 0xABE5); (0xABE8, 0xABE8);
  (0xABED, 0xABED); (0xFB1E, 0xFB1E); (0xFBB2, 0xFBC2); (0xFE00, 0xFE0F);
  (0xFE13, 0xFE13); (0xFE20, 0xFE2F); (0xFE52, 0xFE52); (0xFE55, 0xFE55);
  (0xFEFF, 0xFEFF); (0xFF07, 0xFF07); (0xFF0E, 0xFF0E); (0xFF1A, 0xFF1A);
  (0xFF3E, 0xFF3E); (0xFF40, 0xFF40); (0xFF70, 0xFF70); (0xFF9E, 0xFF9F);
  (0xFFE3, 0xFFE3); (0xFFF9, 0xFFFB); (0x101FD, 0x101FD); (0x102E0, 0x102E0);
  (0x10376, 0x1037A); (0x10780, 0x10785); (0x10787, 0x107B0);
  (0x107B2, 0x107BA); (0x10A01, 0x10A03); (0x10A05, 0x10A06);
  (0x10A0C, 0x10A0F); (0x10A38, 0x10A3A); (0x10A3F, 0x10A3F);
  (0x10AE5, 0x10AE6); (0x10D24, 0x10D27); (0x10EAB, 0x10EAC);
  (0x10F46, 0x10F50); (0x10F82, 0x10F85); (0x11001, 0x11001);
  (0x11038, 0x11046); (0x11070, 0x11070); (0x11073, 0x11074);
  (0x1107F, 0x11081); (0x110B3, 0x110B6); (0x110B9, 0x110BA);
  (0x110BD, 0x110BD); (0x110C2, 0x110C2); (0x110CD, 0x110CD);
  (0x11100, 0x11102); (0x11127, 0x1112B); (0x1112D, 0x11134);
  (0x11173, 0x11173); (0x11180, 0x11181); (0x111B6, 0x111BE);
  (0x111C9, 0x111CC); (0x111CF, 0x111CF); (0x1122F, 0x11231);
  (0x11234, 0x11234); (0x11236, 0x11237); (0x1123E, 0x1123E);
  (0x112DF, 0x112DF); (0x112E3, 0x112EA); (0x11300, 0x11301);
  (0x1133B, 0x1133C); (0x11340, 0x11340); (0x11366, 0x1136C);
  (0x11370, 0x11374); (0x11438, 0x1143F); (0x11442, 0x11444);
  (0x11446, 0x11446); (0x1145E, 0x1145E); (0x114B3, 0x114B8);
  (0x114BA, 0x114BA); (0x114BF, 0x114C0); (0x114C2, 0x114C3);
  (0x115B2, 0x115B5); (0x115BC, 0x115BD); (0x115BF, 0x115C0);
  (0x115DC, 0x115DD); (0x11633, 0x1163A); (0x1163D, 0x1163D);
  (0x1163F, 0x11640); (0x116AB, 0x116AB); (0x116AD, 0x116AD);
  (0x116B0, 0x116B5); (0x116B7, 0x116B7); (0x1171D, 0x1171F);
  (0x11722, 0x11725); (0x11727, 0x1172B); (0x1182F, 0x11837);
  (0x11839, 0x1183A); (0x1193B, 0x1193C); (0x1193E, 0x1193E);
  (0x11943, 0x11943); (0x119D4, 0x119D7); (0x119DA, 0x119DB);
  (0x119E0, 0x119E0); (0x11A01, 0x11A0A); (0x11A33, 0x11A38);
  (0x11A3B, 0x11A3E); (0x11A47, 0x11A47); (0x11A51, 0x11A56);
  (0x11A59, 0x11A5B); (0x11A8A, 0x11A96); (0x11A98, 0x11A99);
  (0x11C30, 0x11C36); (0x11C38, 0x11C3D); (0x11C3F, 0x11C3F);
  (0x11C92, 0x11CA7); (0x11CAA, 0x11CB0); (0x11CB2, 0x11CB3);
  (0x11CB5, 0x11CB6); (0x11D31, 0x11D36); (0x11D3A, 0x11D3A);
  (0x11D3C, 0x11D3D); (0x11D3F, 0x11D45); (0x11D47, 0x11D47);
  (0x11D90, 0x11D91); (0x11D95, 0x11D95); (0x11D97, 0x11D97);
  (0x11EF3, 0x11EF4); (0x13430, 0x13438); (0x16AF0, 0x16AF4);
  (0x16B30, 0x16B36); (0x16B40, 0x16B43); (0x16F4F, 0x16F4F);
  (0x16F8F, 0x16F9F); (0x16FE0, 0x16FE1); (0x16FE3, 0x16FE4);
  (0x1AFF0, 0x1AFF3); (0x1AFF5, 0x1AFFB); (0x1AFFD, 0x1AFFE);
  (0x1BC9D, 0x1BC9E); (0x1BCA0, 0x1BCA3); (0x1CF00, 0x1CF2D);
  (0x1CF30, 0x1CF46); (0x1D167, 0x1D169); (0x1D173, 0x1D182);
  (0x1D185, 0x1D18B); (0x1D1AA, 0x1D1AD); (0x1D242, 0x1D244);
  (0x1DA00, 0x1DA36); (0x1DA3B, 0x1DA6C); (0x1DA75, 0x1DA75);
  (0x1DA84, 0x1DA84); (0x1DA9B, 0x1DA9F); (0x1DAA1, 0x1DAAF);
  (0x1E000, 0x1E006); (0x1E008, 0x1E018); (0x1E01B, 0x1E021);
  (0x1E023, 0x1E024); (0x1E026, 0x1E02A); (0x1E130, 0x1E13D);
  (0x1E2AE, 0x1E2AE); (0x1E2EC, 0x1E2EF); (0x1E8D0, 0x1E8D6);
  (0x1E944, 0x1E94B); (0x1F3FB, 0x1F3FF); (0xE0001, 0xE0001);
  (0xE0020, 0xE007F); (0xE0100, 0xE01EF)
].

(** Cased code points that are not Case_Ignorable. *)
Definition casedTable : list (N * N) := [
  (0x41, 0x5A); (0x61, 0x7A); (0xAA, 0xAA); (0xB5, 0xB5); (0xBA, 0xBA);
  (0xC0, 0xD6); (0xD8, 0xF6); (0xF8, 0x1BA); (0x1BC, 0x1BF); (0x1C4, 0x293);
  (0x295, 0x2AF); (0x370, 0x373); (0x376, 0x377); (0x37B, 0x37D);
  (0x37F, 0x37F); (0x386, 0x386); (0x388, 0x38A); (0x38C, 0x38C);
  (0x38E, 0x3A1); (0x3A3, 0x3F5); (0x3F7, 0x481); (0x48A, 0x52F);
  (0x531, 0x556); (0x560, 0x588); (0x10A0, 0x10C5); (0x10C7, 0x10C7);
  (0x10CD, 0x10CD); (0x10D0, 0x10FA); (0x10FD, 0x10FF); (0x13A0, 0x13F5);
  (0x13F8, 0x13FD); (0x1C80, 0x1C88); (0x1C90, 0x1CBA); (0x1CBD, 0x1CBF);
  (0x1D00, 0x1D2B); (0x1D6B, 0x1D77); (0x1D79, 0x1D9A); (0x1E00, 0x1F15);
  (0x1F18, 0x1F1D); (0x1F20, 0x1F45); (0x1F48, 0x1F4D); (0x1F50, 0x1F57);
  (0x1F59, 0x1F59); (0x1F5B, 0x1F5B); (0x1F5D, 0x1F5D); (0x1F5F, 0x1F7D);
  (0x1F80, 0x1FB4); (0x1FB6, 0x1FBC); (0x1FBE, 0x1FBE); (0x1FC2, 0x1FC4);
  (0x1FC6, 0x1FCC); (0x1FD0, 0x1FD3); (0x1FD6, 0x1FDB); (0x1FE0, 0x1FEC);
  (0x1FF2, 0x1FF4); (0x1FF6, 0x1FFC); (0x2102, 0x2102); (0x2107, 0x2107);
  (0x210A, 0x2113); (0x2115, 0x2115); (0x2119, 0x211D); (0x2124, 0x2124);
  (0x2126, 0x2126); (0x2128, 0x2128); (0x212A, 0x212D); (0x212F, 0x2134);
  (0x2139, 0x2139); (0x213C, 0x213F); (0x2145, 0x2149); (0x214E, 0x214E);
  (0x2160, 0x217F); (0x2183, 0x2184); (0x24B6, 0x24E9); (0x2C00, 0x2C7B);
  (0x2C7E, 0x2CE4); (0x2CEB, 0x2CEE); (0x2CF2, 0x2CF3); (0x2D00, 0x2D25);
  (0x2D27, 0x2D27); (0x2D2D, 0x2D2D); (0xA640, 0xA66D); (0xA680, 0xA69B);
  (0xA722, 0xA76F); (0xA771, 0xA787); (0xA78B, 0xA78E); (0xA790, 0xA7CA);
  (0xA7D0, 0xA7D1); (0xA7D3, 0xA7D3); (0xA7D5, 0xA7D9); (0xA7F5, 0xA7F6);
  (0xA7FA, 0xA7FA); (0xAB30, 0xAB5A); (0xAB60, 0xAB68); (0xAB70, 0xABBF);
  (0xFB00, 0xFB06); (0xFB13, 0xFB17); (0xFF21, 0xFF3A); (0xFF41, 0xFF5A);
  (0x10400, 0x1044F); (0x104B0, 0x104D3); (0x104D8, 0x104FB);
  (0x10570, 0x1057A); (0x1057C, 0x1058A); (0x1058C, 0x10592);
  (0x10594, 0x10595); (0x10597, 0x105A1); (0x105A3, 0x105B1);
  (0x105B3, 0x105B9); (0x105BB, 0x105BC); (0x10C80, 0x10CB2);
  (0x10CC0, 0x10CF2); (0x118A0, 0x118DF); (0x16E40, 0x16E7F);
  (0x1D400, 0x1D454); (0x1D456, 0x1D49C); (0x1D49E, 0x1D49F);
  (0x1D4A2, 0x1D4A2); (0x1D4A5, 0x1D4A6); (0x1D4A9, 0x1D4AC);
  (0x1D4AE, 0x1D4B9); (0x1D4BB, 0x1D4BB); (0x1D4BD, 0x1D4C3);
  (0x1D4C5, 0x1D505); (0x1D507, 0x1D50A); (0x1D50D, 0x1D514);
  (0x1D516, 0x1D51C); (0x1D51E, 0x1D539); (0x1D53B, 0x1D53E);
  (0x1D540, 0x1D544); (0x1D546, 0x1D546); (0x1D54A, 0x1D550);
  (0x1D552, 0x1D6A5); (0x1D6A8, 0x1D6C0); (0x1D6C2, 0x1D6DA);
  (0x1D6DC, 0x1D6FA); (0x1D6FC, 0x1D714); (0x1D716, 0x1D734);
  (0x1D736, 0x1D74E); (0x1D750, 0x1D76E); (0x1D770, 0x1D788);
  (0x1D78A, 0x1D7A8); (0x1D7AA, 0x1D7C2); (0x1D7C4, 0x1D7CB);
  (0x1DF00, 0x1DF09); (0x1DF0B, 0x1DF1E); (0x1E900, 0x1E943);
  (0x1F130, 0x1F149); (0x1F150, 0x1F169); (0x1F170, 0x1F189)
].

Definition caseIgnorable (cp : N) : bool := inRanges caseIgnorableTable cp.
Definition cased (cp : N) : bool := inRanges casedTable cp.

(** Final_Sigma: the nearest code point before that is not case-ignorable is
    cased, and the nearest one after is not.  [before] is the preceding text
    in reverse order. *)
Definition nextIsCased (l : list N) : bool :=
  match dropWhile caseIgnorable l with
  | c :: _ => cased c
  | [] => false
  end.

Definition finalSigma (before after : list N) : bool :=
  nextIsCased before && negb (nextIsCased after).

Definition lowerCodePoint (before after : list N) (cp : N) : list N :=
  if cp =? 0x130 then [0x69; 0x307]
  else if cp =? 0x3A3 then
    (if finalSigma before after then [0x3C2] else [0x3C3])
  else match lowerLookup lowerTable cp with
       | Some c => [c]
       | None => [cp]
       end.

Fixpoint lowerCodePoints (before : list N) (l : list N) : list N :=
  match l with
  | [] => []
  | cp :: after =>
    lowerCodePoint before after cp ++ lowerCodePoints (cp :: before) after
  end.

Definition toLowerCase (s : list N) : list N :=
  flat_map utf16 (lowerCodePoints [] (codePoints s)).

End Unicode.

(** ** The generator scripts

    What the two variants share: file naming, the front matter, the HTTP
    client and the driver loop.  They differ in the credential lookup, the
    prompt template and the image keyword. *)

Module Gen.
Import JS Unicode.

(** The class [[a-z0-9一-龥]] of [safeSlug]. *)
Definition isSlugChar (c : N) : bool :=
  between 0x61 0x7A c || between 0x30 0x39 c || between 0x4E00 0x9FA5 c.

Definition isHyphen (c : N) : bool := c =? HYPHEN.

Definition safeSlug (s : list N) : list N :=
  stripHyphens
    (replaceRuns isHyphen [HYPHEN] false
       (replaceRuns (fun c => negb (isSlugChar c)) [HYPHEN] false
          (toLowerCase (trim s)))).

Definition pad2 (n : Z) : list N := padStart0 2 (digits n).

(** [a || b] on strings. *)
Definition orElse (a b : list N) : list N := if truthy a then a else b.

Definition filename (order : Z) (title : list N) : list N :=
  pad2 order ++ js "-" ++ orElse (slice0 48 (safeSlug title)) (js "lesson")
    ++ js ".md".

(** *** Outline entries

    The JSDoc type of the parsed outline:
    [{order:number, title:string, unit?:string, summaryHint?:string,
      keywords?:string[]}]; [None] is an absent (or null) property. *)
Record Item := {
  order : Z;
  title : list N;
  unit : option (list N);
  summaryHint : option (list N);
  keywords : option (list (list N));
}.

Inductive Variant := Simple | Rich.

(** [a ?? b]. *)
Definition nullish (a : option (list N)) (b : list N) : list N :=
  match a with Some x => x | None => b end.

(** [const unit = item.unit ?? ''] *)
Definition unitOf (item : Item) : list N := nullish (unit item) [].

(** *** The prompt template *)

Definition nl : list N := [NEWLINE].

Definition promptHead (v : Variant) : list N :=
  match v with
  | Rich => concat [
    js "你是一名小学科学老师，为“六年级下册（教科版）”制作【孩子自己能读懂】的每课预习卡（用于纯静态网页）。"; nl; nl;
    js "请输出一篇 Markdown（不要代码块包裹），结构必须包含以下小标题（## 级别）："; nl; nl;
    js "## 预习目标（3条，动词开头，短句）"; nl;
    js "## 关键词小卡片（4-5个词，每个≤12字解释）"; nl;
    js "## 预习问题（3题：2题理解 + 1题生活化）"; nl;
    js "## 安全小实验/观察（1个，材料家里常见，步骤≤4步，含安全提示）"; nl;
    js "## 趣味拓展（2条，每条≤25字，偏生活应用/科学史冷知识）"; nl;
    js "## 练一练（3题：1道选择 + 2道简答；难度中等；**在题目下方立即给出答案与简要解析**）"; nl; nl;
    js "【图片要求】在练一练后面加一行：unsplash: 描述词（英文，1-3个关键词，用来找合适的免费图片，如 "; [DQUOTE];
    js "science experiment kids"; [DQUOTE];
    js "）"; nl; nl;
    js "【长度要求】除标题外，正文总字数尽量控制在约 300–420 字，句子短、节奏快、读起来像“闯关卡”。"; nl; nl;
    js "【安全与真实】不编造教材页码与权威引用；不包含危险化学品/明火/密闭容器产气等操作；强调在家可安全完成。"; nl; nl;
    js "本课信息："; nl;
    js "- 单元："]
  | Simple => concat [
    js "你是一名小学科学老师，正在为“六年级下册 科教版”制作每课预习资料（纯静态网页）。"; nl; nl;
    js "请输出一篇 Markdown（不要代码块包裹），结构必须包含以下小标题（## 级别）："; nl; nl;
    js "## 预习目标（3-5条，动词开头）"; nl;
    js "## 关键词小卡片（5-8个词，每个用一句话解释）"; nl;
    js "## 预习问题（3-6题，含1-2题生活化问题）"; nl;
    js "## 安全小实验/观察（家庭可做，材料简单，有安全提示）"; nl;
    js "## 趣味拓展（至少2条，课外知识/科学史/生活应用）"; nl;
    js "## 练一练（3题，含选择/简答混合）"; nl; nl;
    js "要求：语言有趣但不幼稚；避免编造具体教材页码；不出现需要危险化学品/明火的操作；内容尽量和“测定/科学实验的公平/数据/误差”等科学方法相关联。"; nl; nl;
    js "本课信息："; nl;
    js "- 单元："]
  end.

Definition promptTail (v : Variant) : list N :=
  match v with
  | Rich => concat [
    nl; nl;
    js "最后加一行：打印版提示（1句话）。"]
  | Simple => concat [
    nl; nl;
    js "另外请在文末加一段“打印版提示”（一句话）。"]
  end.

Definition prompt (v : Variant) (item : Item) : list N :=
  promptHead v ++ orElse (unitOf item) (js "（未提供）")
  ++ nl ++ js "- 课题：" ++ title item
  ++ nl ++ js "- 提示：" ++ nullish (summaryHint item) (js "无")
  ++ promptTail v.

(** *** Regular expressions of the scripts *)

(** Canonicalize of a case-insensitive pattern without the unicode flag
    never identifies a code unit above 127 with an ASCII one, so a pattern
    letter matches exactly its two ASCII cases. *)
Definition asciiLower (c : N) : N := if between 0x41 0x5A c then c + 0x20 else c.

(** The literal [pat] (lower case) at the start of [s], ignoring case when
    [ci]; the result is what follows it. *)
Fixpoint literal (ci : bool) (pat s : list N) : option (list N) :=
  match pat, s with
  | [], _ => Some s
  | p :: pat', c :: s' =>
    if (if ci then asciiLower c else c) =? p then literal ci pat' s' else None
  | _ :: _, [] => None
  end.

(** Greedy [\s*] followed by the rest [k] of the pattern: the longest run of
    white space is tried first, then shorter ones. *)
Fixpoint spaces {A} (k : list N -> option A) (s : list N) : option A :=
  match s with
  | c :: t =>
    if isWhiteSpace c then
      match spaces k t with
      | Some r => Some r
      | None => k s
      end
    else k s
  | [] => k []
  end.

Definition notNewline (c : N) : bool := negb (c =? NEWLINE).

(** [([^\n]+)] at the end of a pattern: the longest run, at least one. *)
Definition restOfLine (s : list N) : option (list N) :=
  match takeWhile notNewline s with
  | [] => None
  | run => Some run
  end.

Definition UNSPLASH : list N := js "unsplash:".

(** [md.match(/unsplash:\s*([^\n]+)/i)]: the first group of the leftmost
    match. *)
Fixpoint unsplashMatch (md : list N) : option (list N) :=
  match md with
  | [] => None
  | _ :: t =>
    match literal true UNSPLASH md ≫= spaces restOfLine with
    | Some group => Some group
    | None => unsplashMatch t
    end
  end.

(** [md.replace(/unsplash:[^\n]+\n?/i, '')]: the leftmost match is cut
    out, with the line feed that follows it if there is one. *)
Fixpoint removeUnsplash (md : list N) : list N :=
  match md with
  | [] => []
  | c :: t =>
    match literal true UNSPLASH md ≫= (fun r => restOfLine r ≫= (fun _ => Some r)) with
    | Some r =>
      match dropWhile notNewline r with
      | d :: r' => if d =? NEWLINE then r' else d :: r'
      | [] => []
      end
    | None => c :: removeUnsplash t
    end
  end.

(** [(.+)\s*$]: the longest non-empty run without a line terminator after
    which only white space is left. *)
Fixpoint valueToEnd (s : list N) : option (list N) :=
  match s with
  | [] => None
  | c :: t =>
    if isLineTerminator c then None
    else match valueToEnd t with
         | Some v => Some (c :: v)
         | None => if forallb isWhiteSpace t then Some [c] else None
         end
  end.

Definition KEY_NAME : list N := js "DEEPSEEK_API_KEY".

Definition equalsSign (k : list N -> option (list N)) (s : list N)
  : option (list N) :=
  match s with
  | c :: t => if c =? 0x3D then k t else None
  | [] => None
  end.

(** [line.match(/^\s*DEEPSEEK_API_KEY\s*=\s*(.+)\s*$/)]: the first group. *)
Definition keyLineMatch (line : list N) : option (list N) :=
  spaces (fun s => literal false KEY_NAME s
                   ≫= spaces (equalsSign (spaces valueToEnd))) line.

Definition isQuote (c : N) : bool := (c =? 0x27) || (c =? DQUOTE).

Definition dropFirstQuote (s : list N) : list N :=
  match s with
  | c :: t => if isQuote c then t else s
  | [] => []
  end.

Fixpoint dropLastQuote (s : list N) : list N :=
  match s with
  | [] => []
  | [c] => if isQuote c then [] else [c]
  | c :: t => c :: dropLastQuote t
  end.

(** [s.replace(/^[QUOTES]|[QUOTES]$/g, '')]: a quote at index 0 and a quote
    at the last index are removed. *)
Definition stripQuotes (s : list N) : list N :=
  dropLastQuote (dropFirstQuote s).

Definition consFirst (c : N) (ls : list (list N)) : list (list N) :=
  match ls with
  | l :: r => (c :: l) :: r
  | [] => [[c]]
  end.

(** [raw.split(/\r?\n/)]. *)
Fixpoint splitLines (s : list N) : list (list N) :=
  match s with
  | [] => [[]]
  | c :: t =>
    if c =? NEWLINE then [] :: splitLines t
    else match t with
         | d :: t' =>
           if (c =? 0x0D) && (d =? NEWLINE) then [] :: splitLines t'
           else consFirst c (splitLines t)
         | [] => [[c]]
         end
  end.

(** The loop over the lines of [.env.local]: the first line that matches
    decides. *)
Fixpoint firstKeyLine (lines : list (list N)) : option (list N) :=
  match lines with
  | [] => None
  | line :: r =>
    match keyLineMatch line with
    | Some group => Some (trim (stripQuotes group))
    | None => firstKeyLine r
    end
  end.

(** [s.replace(/\/$/, '')]: one trailing slash is removed. *)
Fixpoint dropLastSlash (s : list N) : list N :=
  match s with
  | [] => []
  | [c] => if c =? 0x2F then [] else [c]
  | c :: t => c :: dropLastSlash t
  end.

(** [path.basename(p)]: what follows the last slash. *)
Fixpoint basename (p : list N) : list N :=
  match p with
  | [] => []
  | c :: t => if existsb (N.eqb 0x2F) p then basename t else p
  end.

(** *** encodeURIComponent *)

Definition isUnreserved (c : N) : bool :=
  between 0x41 0x5A c || between 0x61 0x7A c || between 0x30 0x39 c
  || existsb (N.eqb c) (js "-_.!~*'()").

Definition hexDigit (n : N) : N := if n <? 10 then 0x30 + n else 0x41 + (n - 10).

Definition percent (octet : N) : list N :=
  [0x25; hexDigit (octet / 16); hexDigit (octet mod 16)].

Definition utf8Octets (cp : N) : list N :=
  if cp <? 0x80 then [cp]
  else if cp <? 0x800 then [0xC0 + cp / 0x40; 0x80 + cp mod 0x40]
  else if cp <? 0x10000 then
    [0xE0 + cp / 0x1000; 0x80 + (cp / 0x40) mod 0x40; 0x80 + cp mod 0x40]
  else
    [0xF0 + cp / 0x40000; 0x80 + (cp / 0x1000) mod 0x40;
     0x80 + (cp / 0x40) mod 0x40; 0x80 + cp mod 0x40].

(** [None] stands for the URIError thrown at an unpaired surrogate. *)
Fixpoint encodeURIComponent (s : list N) : option (list N) :=
  match s with
  | [] => Some []
  | c :: t =>
    if isUnreserved c then (cons c) <$> encodeURIComponent t
    else if isLowSurrogate c then None
    else if isHighSurrogate c then
      match t with
      | d :: t' =>
        if isLowSurrogate d then
          (app (flat_map percent
                  (utf8Octets (0x10000 + (c - 0xD800) * 0x400 + (d - 0xDC00)))))
            <$> encodeURIComponent t'
        else None
      | [] => None
      end
    else (app (flat_map percent (utf8Octets c))) <$> encodeURIComponent t
  end.

End Gen.

(** ** Front matter, HTTP client and driver loop *)

Module Script.
Import JS Unicode Gen.

(** *** Front matter *)

(** ["${s.replace(/\DQUOTE/g, RIGHT-DOUBLE-QUOTATION-MARK)}"] between two
    double quotes. *)
Definition quoted (s : list N) : list N := [DQUOTE] ++ replaceQuotes s ++ [DQUOTE].

Definition titleLine (t : list N) : list N := js "title: " ++ quoted t.
Definition unitLine (u : list N) : list N := js "unit: " ++ quoted u.
Definition orderLine (o : Z) : list N := js "order: " ++ digits o.
Definition keywordsLine (ks : list (list N)) : list N :=
  js "keywords: [" ++ join (js ", ") (map quoted ks) ++ js "]".
Definition imageLine (encoded : list N) (o : Z) : list N :=
  js "image: " ++ [DQUOTE] ++ js "https://source.unsplash.com/featured/?"
  ++ encoded ++ js "&sig=" ++ digits o ++ [DQUOTE].

(** [c ? s : undefined] *)
Definition orUndefined (c : bool) (s : list N) : option (list N) :=
  if c then Some s else None.

(** [item.keywords?.length] as a condition. *)
Definition hasKeywords (item : Item) : bool :=
  match keywords item with
  | Some (_ :: _) => true
  | _ => false
  end.

Definition keywordsOf (item : Item) : list (list N) :=
  match keywords item with Some ks => ks | None => [] end.

(** The array literal of [main]; [image] is its image element, which only
    the richer variant has. *)
Definition frontMatterArray (v : Variant) (item : Item)
    (image : option (list N)) : list (option (list N)) :=
  [Some (js "---");
   Some (titleLine (title item));
   orUndefined (truthy (unitOf item)) (unitLine (unitOf item));
   Some (orderLine (order item));
   orUndefined (hasKeywords item) (keywordsLine (keywordsOf item))]
  ++ match v with Rich => [image] | Simple => [] end
  ++ [Some (js "---"); Some []].

(** [.filter(Boolean)]: [undefined] and the empty string are dropped. *)
Definition filterBoolean (a : list (option (list N))) : list (list N) :=
  flat_map (fun x => match x with
                     | Some s => if truthy s then [s] else []
                     | None => []
                     end) a.

Definition frontMatter (v : Variant) (item : Item) (image : option (list N))
  : list N :=
  join nl (filterBoolean (frontMatterArray v item image)).

(** *** The document written for one entry *)

(** The image keyword and the body left after taking it out. *)
Definition extractImage (v : Variant) (md : list N) : list N * list N :=
  match v with
  | Simple => ([], md)
  | Rich =>
    match unsplashMatch md with
    | Some group => (trim group, trim (removeUnsplash md))
    | None => ([], md)
    end
  end.

(** *** Values that cross the boundary of the process *)

#[local] Set Warnings "-register-all".
Inductive Json :=
| JNull
| JBool (b : bool)
| JNumber (literal : list N)
| JString (s : list N)
| JArray (items : list Json)
| JObject (members : list (list N * Json)).

(** An own property of a parsed object: of duplicate names the last one
    counts. *)
Fixpoint property (key : list N) (members : list (list N * Json)) : option Json :=
  match members with
  | [] => None
  | (k, x) :: r =>
    match property key r with
    | Some y => Some y
    | None => if bool_decide (k = key) then Some x else None
    end
  end.

(** [x?.key] for the names [choices], [message] and [content], which no
    prototype defines: only an object that owns the property has it. *)
Definition member (key : list N) (x : option Json) : option Json :=
  match x with
  | Some (JObject members) => property key members
  | _ => None
  end.

(** [x?.[0]] *)
Definition first (x : option Json) : option Json :=
  match x with
  | Some (JArray (y :: _)) => Some y
  | Some (JObject members) => property (js "0") members
  | Some (JString (c :: _)) => Some (JString [c])
  | _ => None
  end.

(** [json?.choices?.[0]?.message?.content] *)
Definition contentOf (json : Json) : option Json :=
  member (js "content") (member (js "message") (first (member (js "choices") (Some json)))).

Record Request := {
  url : list N;
  authorization : list N;
  model : list N;
  systemContent : list N;
  userContent : list N;
}.

(** A response of [fetch]: [text] is [None] when reading the body fails,
    [json] is [None] when the body is not JSON. *)
Record Response := {
  status : N;
  statusText : list N;
  text : option (list N);
  json : option Json;
}.

(** [res.ok]: the status is in the range 200 to 299. *)
Definition ok (res : Response) : bool := between 200 299 (status res).

Inductive Thrown :=
| Error (message : list N)
| URIError
| SyntaxError
| IOError (target : list N).

(** The image element of the front matter array. *)
Definition imageEntry (keyword : list N) (o : Z) : Thrown + option (list N) :=
  if truthy keyword then
    match encodeURIComponent keyword with
    | Some encoded => inr (Some (imageLine encoded o))
    | None => inl URIError
    end
  else inr None.

(** [fm + md.trim() + NEWLINE] for the completion text [md]. *)
Definition document (v : Variant) (item : Item) (md : list N) : Thrown + list N :=
  let '(keyword, body) := extractImage v md in
  match imageEntry keyword (order item) with
  | inl e => inl e
  | inr image => inr (frontMatter v item image ++ trim body ++ nl)
  end.

Inductive Printed :=
| Text (s : list N)
| Value (e : Thrown).

Inductive Event :=
| ReadFile (path : list N)
| Mkdir (path : list N)
| Fetch (req : Request)
| WriteFile (path content : list N)
| Log (s : list N)
| LogError (p : Printed)
| Exit (code : Z).

(** The outside of the process.  Paths are relative to the working
    directory, which the scripts never change.  The files the scripts read
    are none of those they write, so reading is a lookup; the network and
    the writes may answer differently each time, so they see the history.
    [parseOutline] is [JSON.parse] on an outline whose entries have the
    declared type; [None] is its SyntaxError. *)
Record World := {
  environ : gmap (list N) (list N);
  files : gmap (list N) (list N);
  parseOutline : list N -> option (list Item);
  mkdir : list Event -> list N -> bool;
  fetch : list Event -> Request -> option Response;
  writeFile : list Event -> list N -> list N -> bool;
}.

(** *** Computations: a trace of events and a result or a thrown value *)

Definition M (A : Type) : Type := list Event -> list Event * (Thrown + A).

Definition ret {A} (x : A) : M A := fun tr => (tr, inr x).
Definition throw {A} (e : Thrown) : M A := fun tr => (tr, inl e).
Definition bind {A B} (m : M A) (k : A -> M B) : M B :=
  fun tr => match m tr with
            | (tr', inr x) => k x tr'
            | (tr', inl e) => (tr', inl e)
            end.
Definition emit (e : Event) : M Datatypes.unit := fun tr => (tr ++ [e], inr tt).
Definition history : M (list Event) := fun tr => (tr, inr tr).
Definition catch {A} (m : M A) (h : Thrown -> M A) : M A :=
  fun tr => match m tr with
            | (tr', inl e) => h e tr'
            | r => r
            end.

#[local] Instance M_ret : MRet M := @ret.
#[local] Instance M_bind : MBind M := fun A B k m => bind m k.

Definition OUTLINE_PATH : list N := js "scripts/outline.json".
Definition OUT_DIR : list N := js "src/content/lessons".

Section Process.
Variable v : Variant.
Variable w : World.

Definition readFile (p : list N) : M (list N) :=
  emit (ReadFile p);;
  match files w !! p with
  | Some content => ret content
  | None => throw (IOError p)
  end.

(** *** Credential *)

Inductive Step := Return (key : list N) | Continue.

Definition tryFile (p : list N) : M Step :=
  catch
    (content ← readFile p;
     let raw := trim content in
     if negb (truthy raw) then ret Continue
     else if bool_decide (basename p = js ".deepseek_key") then ret (Return raw)
     else match firstKeyLine (splitLines raw) with
          | Some key => ret (Return key)
          | None => ret Continue
          end)
    (fun _ => ret Continue).

Fixpoint tryFiles (ps : list (list N)) : M (list N) :=
  match ps with
  | [] => ret []
  | p :: r =>
    step ← tryFile p;
    match step with
    | Return key => ret key
    | Continue => tryFiles r
    end
  end.

Definition readKeyFallback : M (list N) :=
  let keyFromEnv := nullish (environ w !! js "DEEPSEEK_API_KEY") [] in
  if truthy keyFromEnv then ret keyFromEnv
  else tryFiles [js "scripts/.deepseek_key"; js ".env.local"].

Definition resolveKey : M (list N) :=
  match v with
  | Rich => readKeyFallback
  | Simple => ret (nullish (environ w !! js "DEEPSEEK_API_KEY") [])
  end.

Definition BASE_URL : list N :=
  dropLastSlash
    (nullish (environ w !! js "DEEPSEEK_BASE_URL") (js "https://api.deepseek.com")).

Definition MODEL : list N :=
  nullish (environ w !! js "DEEPSEEK_MODEL") (js "deepseek-chat").

Definition missingKey : list N :=
  match v with
  | Simple => js "缺少环境变量 DEEPSEEK_API_KEY。请先在本机设置后再运行。"
  | Rich => concat [
      js "缺少 DeepSeek API Key。请用以下任意一种方式提供："; nl;
      js "  1) 环境变量 DEEPSEEK_API_KEY（推荐）"; nl;
      js "  2) 在 scripts/.deepseek_key 文件中放一行 key（不会提交）"; nl;
      js "  3) 在 .env.local 中写 DEEPSEEK_API_KEY=...（不会提交）"]
  end.

(** *** HTTP client *)

Section Authorized.
Variable API_KEY : list N.

Definition httpError (res : Response) : list N :=
  js "HTTP " ++ digits (Z.of_N (status res)) ++ js " " ++ statusText res
  ++ js ": " ++ slice0 500 (nullish (text res) []).

(** The body is [{model, messages: [system, user], temperature: 0.7}], sent
    with method POST and content type application/json. *)
Definition postJson (target : list N) (model system user : list N) : M Json :=
  let req := {| url := target; authorization := js "Bearer " ++ API_KEY;
                model := model; systemContent := system; userContent := user |} in
  tr ← history;
  emit (Fetch req);;
  match fetch w tr req with
  | None => throw (IOError target)
  | Some res =>
    if negb (ok res) then throw (Error (httpError res))
    else match json res with
         | Some j => ret j
         | None => throw SyntaxError
         end
  end.

(** *** Driver loop *)

Definition outPath (item : Item) : list N :=
  OUT_DIR ++ js "/" ++ filename (order item) (title item).

Definition startLine (item : Item) : list N :=
  nl ++ js "[" ++ pad2 (order item) ++ js "] 生成：" ++ title item.

Definition request (item : Item) : Request :=
  {| url := BASE_URL ++ js "/v1/chat/completions";
     authorization := js "Bearer " ++ API_KEY;
     model := MODEL;
     systemContent := js "你是严谨的中文科普写作者与小学科学教师。";
     userContent := prompt v item |}.

Definition writeOut (p content : list N) : M Datatypes.unit :=
  tr ← history;
  emit (WriteFile p content);;
  if writeFile w tr p content then ret tt else throw (IOError p).

Definition processItem (item : Item) : M Datatypes.unit :=
  emit (Log (startLine item));;
  json ← postJson (BASE_URL ++ js "/v1/chat/completions") MODEL
            (js "你是严谨的中文科普写作者与小学科学教师。") (prompt v item);
  match contentOf json with
  | Some (JString (c :: s)) =>
    match document v item (c :: s) with
    | inl e => throw e
    | inr content =>
      writeOut (outPath item) content;;
      emit (Log (js "写入：" ++ outPath item))
    end
  | _ => throw (Error (js "模型返回内容为空或格式不对"))
  end.

Fixpoint forEach (outline : list Item) : M Datatypes.unit :=
  match outline with
  | [] => ret tt
  | item :: r => processItem item;; forEach r
  end.

Definition main : M Datatypes.unit :=
  outlineRaw ← readFile OUTLINE_PATH;
  match parseOutline w outlineRaw with
  | None => throw SyntaxError
  | Some outline =>
    tr ← history;
    emit (Mkdir OUT_DIR);;
    (if mkdir w tr OUT_DIR then ret tt else throw (IOError OUT_DIR));;
    forEach outline;;
    emit (Log (nl ++ js "完成：已生成全部课程 markdown。"))
  end.

End Authorized.

(** The whole module body: the trace and the exit code of the process. *)
Definition script : list Event * Z :=
  match resolveKey [] with
  | (tr, inr API_KEY) =>
    if negb (truthy API_KEY) then
      (tr ++ [LogError (Text missingKey); Exit 1], 1%Z)
    else
      match main API_KEY tr with
      | (tr', inr _) => (tr', 0%Z)
      | (tr', inl err) => (tr' ++ [LogError (Value err); Exit 1], 1%Z)
      end
  | (tr, inl err) => (tr ++ [LogError (Value err)], 1%Z)
  end.

End Process.

End Script.

(** ** Unit icons ([src/lib/units.ts])

    The string literals are the ones stored in the source file. *)

Module Units.
Import JS.

(** What an expression of [unitIcon] can evaluate to. *)
Inductive Value :=
| Undefined
| Str (s : list N)
| Function (name : string)
| Object (name : string).

(** The own properties of the object literal. *)
Definition UNIT_ICONS : gmap (list N) (list N) :=
  {[ js "å°å°å·¥ç¨‹å¸ˆ" := js "ğŸ§±";
     js "ç”Ÿç‰©çš„å¤šæ ·æ€§" := js "ğŸŒ¿";
     js "å®‡å®™" := js "ğŸª";
     js "ç‰©è´¨çš„å˜åŒ–" := js "ğŸ§ª" ]}.

(** The object literal inherits from [Object.prototype]; these are the
    properties every standard realm defines there ([__proto__] is an
    accessor that returns the prototype of the receiver). *)
Definition ObjectPrototype : gmap (list N) Value :=
  {[ js "constructor" := Function "Object";
     js "hasOwnProperty" := Function "hasOwnProperty";
     js "isPrototypeOf" := Function "isPrototypeOf";
     js "propertyIsEnumerable" := Function "propertyIsEnumerable";
     js "toLocaleString" := Function "toLocaleString";
     js "toString" := Function "toString";
     js "valueOf" := Function "valueOf";
     js "__defineGetter__" := Function "__defineGetter__";
     js "__defineSetter__" := Function "__defineSetter__";
     js "__lookupGetter__" := Function "__lookupGetter__";
     js "__lookupSetter__" := Function "__lookupSetter__";
     js "__proto__" := Object "Object.prototype" ]}.

(** [UNIT_ICONS[key]]: an own property, else an inherited one, else
    [undefined]. *)
Definition get (key : list N) : Value :=
  match UNIT_ICONS !! key with
  | Some icon => Str icon
  | None =>
    match ObjectPrototype !! key with
    | Some x => x
    | None => Undefined
    end
  end.

Definition BOOK : list N := js "ğŸ“˜".

Definition unitIcon (unit : option (list N)) : Value :=
  match unit with
  | None => Str BOOK
  | Some u =>
    if negb (truthy u) then Str BOOK
    else match get u with
         | Undefined => Str BOOK
         | x => x
         end
  end.

End Units.

(** ** Predicates used in the statements *)

Module Shape.
Import JS Unicode Gen.

(** A table entry whose source interval misses [a..b] is never selected
    for a code point of [a..b]. *)
Definition missesEntry (a b : N) (e : N * N * N * N) : bool :=
  let '(lo, hi, _, _) := e in (hi <? a) || (b <? lo).

Definition slugOrHyphen (c : N) : bool := isSlugChar c || isHyphen c.

(** Slug characters separated by single hyphens; [prev] tells whether the
    code unit before [s] was a hyphen. *)
Fixpoint separated (prev : bool) (s : list N) : bool :=
  match s with
  | [] => true
  | c :: t =>
    if isHyphen c then negb prev && separated true t
    else isSlugChar c && separated false t
  end.

(** The same, and the last code unit is not a hyphen. *)
Fixpoint closed (prev : bool) (s : list N) : bool :=
  match s with
  | [] => negb prev
  | c :: t =>
    if isHyphen c then negb prev && closed true t
    else isSlugChar c && closed false t
  end.

(** The shape of a slug: empty, or slug characters separated by single
    hyphens, with a slug character at both ends. *)
Definition isSlug (s : list N) : bool :=
  match s with
  | [] => true
  | _ => closed true s
  end.

(** Code units that lower-case to an ASCII letter without being a lower-case
    ASCII letter themselves: [A-Z], U+0130 (capital I with dot above) and
    U+212A (Kelvin sign). *)
Definition lowersToAscii (c : N) : bool :=
  between 0x41 0x5A c || (c =? 0x130) || (c =? 0x212A).

Definition staysOutside (c : N) : bool :=
  negb (isSlugChar c) && negb (lowersToAscii c).

Definition outside (c : N) : Prop := isSlugChar c = false.

(** An interval of images none of whose members is a slug character. *)
Definition slugFree (a b : N) : bool :=
  (b <? 0x30) || ((0x39 <? a) && (b <? 0x61)) || ((0x7A <? a) && (b <? 0x4E00))
  || (0x9FA5 <? a).

Definition entryOutside (e : N * N * N * N) : bool :=
  let '(lo, hi, _, img) := e in
  ((0x41 <=? lo) && (hi <=? 0x5A)) || ((lo =? 0x212A) && (hi =? 0x212A))
  || slugFree img (img + (hi - lo)).

Definition is_Some_bool {A} (x : option A) : bool :=
  match x with Some _ => true | None => false end.

(** ASCII letters and digits, and the CJK range the slug keeps. *)
Definition isAsciiAlnum (c : N) : bool :=
  between 0x30 0x39 c || between 0x41 0x5A c || between 0x61 0x7A c.

Definition isCJK (c : N) : bool := between 0x4E00 0x9FA5 c.

Definition neitherAlnumNorCJK (c : N) : bool :=
  negb (isAsciiAlnum c) && negb (isCJK c).

(** The name of a front matter line: what precedes its first colon. *)
Definition notColon (c : N) : bool := negb (c =? 0x3A).

Definition fieldName (line : list N) : list N := takeWhile notColon line.

(** [unsplash:] occurs in [s], in any mix of ASCII cases. *)
Fixpoint mentions (s : list N) : bool :=
  match s with
  | [] => false
  | _ :: t => is_Some_bool (literal true UNSPLASH s) || mentions t
  end.

End Shape.

(** ** Runs of the driver *)

Module Trace.
Import JS Gen Script.

(** The fetch at index [i] of the trace was answered with a response whose
    status is not a success. *)
Definition refusedAt (w : World) (tr : list Event) (i : nat)
    (req : Request) (res : Response) : Prop :=
  tr !! i = Some (Fetch req)
  /\ fetch w (take i tr) req = Some res
  /\ ok res = false.

Definition noRefusal (w : World) (tr : list Event) : Prop :=
  forall i req res, ~ refusedAt w tr i req res.

(** An event that is not a network call. *)
Definition quiet (e : Event) : Prop := forall req, e <> Fetch req.

(** The run stopped at a refused fetch: it is the last event, and the
    thrown value is the error of [postJson]. *)
Definition halted (w : World) (tr : list Event) (r : Thrown + Datatypes.unit)
  : Prop :=
  exists before req res,
    tr = before ++ [Fetch req] /\ noRefusal w before
    /\ fetch w before req = Some res /\ ok res = false
    /\ r = inl (Error (httpError res)).

Definition isRead (e : Event) : Prop := exists p, e = ReadFile p.

(** Either no fetch was refused, or the run stopped at the refused one. *)
Definition settled (w : World) (out : list Event * (Thrown + Datatypes.unit))
  : Prop :=
  noRefusal w (fst out) \/ halted w (fst out) (snd out).

(** Network calls and file writes, the operations of an entry. *)
Inductive Op :=
| Net (req : Request)
| Wr (path : list N).

Definition op (e : Event) : list Op :=
  match e with
  | Fetch req => [Net req]
  | WriteFile p _ => [Wr p]
  | _ => []
  end.

Definition ops (tr : list Event) : list Op := flat_map op tr.

(** One network call, then one write, entry after entry in outline order. *)
Definition plan (v : Variant) (w : World) (key : list N) (outline : list Item)
  : list Op :=
  flat_map (fun item => [Net (request v w key item); Wr (outPath item)]) outline.

(** The outline the loader yields, empty when it fails. *)
Definition outlineOf (w : World) : list Item :=
  match files w !! OUTLINE_PATH with
  | Some raw =>
    match parseOutline w raw with
    | Some outline => outline
    | None => []
    end
  | None => []
  end.

Definition keyOf (v : Variant) (w : World) : list N :=
  match resolveKey v w [] with
  | (_, inr key) => key
  | _ => []
  end.

(** *** The sources of the credential, in the words of the specification *)

Definition KEY_FILE : list N := js "scripts/.deepseek_key".
Definition ENV_FILE : list N := js ".env.local".

Definition nonEmpty (s : list N) : option (list N) :=
  if truthy s then Some s else None.

(** (1) The environment variable, when it is set and not empty. *)
Definition fromEnvironment (w : World) : option (list N) :=
  match environ w !! js "DEEPSEEK_API_KEY" with
  | Some value => nonEmpty value
  | None => None
  end.

(** (2) The key file, when it can be read and is not blank: its content
    without the surrounding white space. *)
Definition fromKeyFile (w : World) : option (list N) :=
  match files w !! KEY_FILE with
  | Some content => nonEmpty (trim content)
  | None => None
  end.

(** (3) The environment file, when it can be read and is not blank: the
    value of its first line that assigns the key, without surrounding
    quotes. *)
Definition fromEnvFile (w : World) : option (list N) :=
  match files w !! ENV_FILE with
  | Some content =>
    match nonEmpty (trim content) with
    | Some raw => firstKeyLine (splitLines raw)
    | None => None
    end
  | None => None
  end.

(** The first source that yields a value decides; without one the key is
    empty. *)
Definition resolved (w : World) : list N :=
  match fromEnvironment w with
  | Some key => key
  | None =>
    match fromKeyFile w with
    | Some key => key
    | None =>
      match fromEnvFile w with
      | Some key => key
      | None => []
      end
    end
  end.

(** The files looked at on the way. *)
Definition reads (w : World) : list Event :=
  match fromEnvironment w with
  | Some _ => []
  | None =>
    match fromKeyFile w with
    | Some _ => [ReadFile KEY_FILE]
    | None => [ReadFile KEY_FILE; ReadFile ENV_FILE]
    end
  end.



Section Runs.
Variable v : Variant.
Variable w : World.
Variable key : list N.

(** The possible runs of the loop body for one entry. *)
Inductive ItemRun (item : Item) (tr : list Event)
  : list Event * (Thrown + Datatypes.unit) -> Prop :=
| FetchRejected :
    fetch w (tr ++ [Log (startLine item)]) (request v w key item) = None ->
    ItemRun item tr
      (tr ++ [Log (startLine item); Fetch (request v w key item)],
       inl (IOError (url (request v w key item))))
| Refused res :
    fetch w (tr ++ [Log (startLine item)]) (request v w key item) = Some res ->
    ok res = false ->
    ItemRun item tr
      (tr ++ [Log (startLine item); Fetch (request v w key item)],
       inl (Error (httpError res)))
| Unusable res e :
    fetch w (tr ++ [Log (startLine item)]) (request v w key item) = Some res ->
    ok res = true ->
    ItemRun item tr
      (tr ++ [Log (startLine item); Fetch (request v w key item)], inl e)
| WriteFailed res content :
    fetch w (tr ++ [Log (startLine item)]) (request v w key item) = Some res ->
    ok res = true ->
    ItemRun item tr
      (tr ++ [Log (startLine item); Fetch (request v w key item);
              WriteFile (outPath item) content],
       inl (IOError (outPath item)))
| Written res j md content :
    fetch w (tr ++ [Log (startLine item)]) (request v w key item) = Some res ->
    ok res = true ->
    json res = Some j ->
    contentOf j = Some (JString md) ->
    document v item md = inr content ->
    ItemRun item tr
      (tr ++ [Log (startLine item); Fetch (request v w key item);
              WriteFile (outPath item) content;
              Log (js "写入：" ++ outPath item)],
       inr tt).

(** The possible runs of the loop. *)
Inductive LoopRun : list Item -> list Event
  -> list Event * (Thrown + Datatypes.unit) -> Prop :=
| LoopDone tr : LoopRun [] tr (tr, inr tt)
| LoopStep item r tr tr1 out :
    ItemRun item tr (tr1, inr tt) -> LoopRun r tr1 out ->
    LoopRun (item :: r) tr out
| LoopStop item r tr tr1 e :
    ItemRun item tr (tr1, inl e) -> LoopRun (item :: r) tr (tr1, inl e).

End Runs.

End Trace.

(** ** Sample entries and worlds *)

Module Samples.
Import JS Gen Script.

Definition lesson1 : Item :=
  {| order := 1; title := js "小小工程师"; unit := Some (js "小小工程师");
     summaryHint := None; keywords := Some [js "设计"; js "材料"] |}.

Definition lesson2 : Item :=
  {| order := 2; title := js "T"; unit := Some [];
     summaryHint := None; keywords := None |}.

(** A successful chat completion with the text [md]. *)
Definition completion (md : list N) : Response :=
  {| status := 200; statusText := js "OK"; text := None;
     json := Some (JObject [(js "choices",
               JArray [JObject [(js "message",
                 JObject [(js "content", JString md)])]])]) |}.

Definition busy : Response :=
  {| status := 429; statusText := js "Too Many Requests";
     text := Some (js "slow down"); json := None |}.

(** A world with the key in the environment, an outline of two lessons and
    a network that answers with [answer]. *)
Definition world (answer : list Event -> option Response) : World :=
  {| environ := {[ js "DEEPSEEK_API_KEY" := js "sk-1" ]};
     files := {[ js "scripts/outline.json" := js "[]" ]};
     parseOutline := fun _ => Some [lesson1; lesson2];
     mkdir := fun _ _ => true;
     fetch := fun tr _ => answer tr;
     writeFile := fun _ _ _ => true |}.

Definition refusing : World := world (fun _ => Some busy).

Definition answering : World := world (fun _ => Some (completion (js "text"))).

(** A world without any credential. *)
Definition keyless : World :=
  {| environ := ∅;
     files := {[ js ".env.local" := js "OTHER=1" ]};
     parseOutline := fun _ => Some [lesson1];
     mkdir := fun _ _ => true;
     fetch := fun _ _ => Some busy;
     writeFile := fun _ _ _ => true |}.

(** The completion of the end-to-end scenario: a body and a marker line. *)
Definition sampleBody : list N := js "## 预习目标" ++ nl ++ js "..." ++ nl.

Definition sampleCompletion : list N :=
  sampleBody ++ js "unsplash:" ++ js " " ++ js "science experiment kids" ++ nl.

(** A completion with two marker lines. *)
Definition twoMarkers : list N := js "unsplash: cat" ++ nl ++ js "unsplash: dog".

End Samples.

(** ** Predicates for the further properties *)

Module Safety.
Import JS Unicode Gen Script Shape Trace.

Definition isDigit (c : N) : bool := between 0x30 0x39 c.

Definition notHyphen (c : N) : bool := negb (isHyphen c).

(** Code units the slug keeps, as they are or in lower case: ASCII letters
    and digits, and the CJK range. *)
Definition kept (c : N) : bool := isAsciiAlnum c || isCJK c.

(** Titles written in ASCII and CJK (U+4E00 to U+9FA5) only. *)
Definition asciiOrCJK (c : N) : bool := (c <? 0x80) || isCJK c.

(** The alphabet of file names: [[a-z0-9一-龥]], hyphen and full stop. *)
Definition nameChar (c : N) : bool :=
  isSlugChar c || isHyphen c || (c =? 0x2E).

(** The orders whose [String(n)] is the plain decimal numeral: the integers
    below 10^21 in magnitude (from there on Number::toString writes an
    exponent). *)
Definition plainInteger (o : Z) : Prop := (Z.abs o < 10 ^ 21)%Z.

(** A string is a sequence of 16-bit code units. *)
Definition codeUnit (c : N) : bool := c <? 0x10000.

Definition noSurrogate (c : N) : bool :=
  negb (isHighSurrogate c) && negb (isLowSurrogate c).

(** The alphabet of the image address: what [encodeURIComponent] leaves or
    produces, and the delimiters of the address itself. *)
Definition urlChar (c : N) : bool :=
  isUnreserved c || existsb (N.eqb c) (js "%:/?&=").

(** Neither a line feed nor a carriage return. *)
Definition lineChar (c : N) : bool := negb (c =? NEWLINE) && negb (c =? 0x0D).

(** *** The events a run may have *)

Definition DONE : list N := nl ++ js "完成：已生成全部课程 markdown。".

Definition writtenLine (item : Item) : list N := js "写入：" ++ outPath item.

(** What the loop body of an entry may do. *)
Definition itemEvent (v : Variant) (w : World) (key : list N) (item : Item)
    (e : Event) : Prop :=
  match e with
  | Log s => s = startLine item \/ s = writtenLine item
  | Fetch req => req = request v w key item
  | WriteFile p content =>
    p = outPath item
    /\ exists md, truthy md = true /\ document v item md = inr content
  | _ => False
  end.

(** What [main] may do on an outline. *)
Definition mainEvent (v : Variant) (w : World) (key : list N)
    (outline : list Item) (e : Event) : Prop :=
  match e with
  | ReadFile p => p = OUTLINE_PATH
  | Mkdir p => p = OUT_DIR
  | Log s => s = DONE \/ exists item, item ∈ outline /\ itemEvent v w key item e
  | Fetch _ | WriteFile _ _ => exists item, item ∈ outline /\ itemEvent v w key item e
  | LogError _ | Exit _ => False
  end.

(** Neither a report of an error nor an exit. *)
Definition silent (e : Event) : Prop :=
  match e with
  | LogError _ | Exit _ => False
  | _ => True
  end.

(** The files the credential lookup of a variant looks at. *)
Definition keyReads (v : Variant) (w : World) : list Event :=
  match v with
  | Simple => []
  | Rich => reads w
  end.

(** The four events of an entry that is written with the content [c]. *)
Definition entryEvents (v : Variant) (w : World) (key : list N)
    (ic : Item * list N) : list Event :=
  [Log (startLine (fst ic)); Fetch (request v w key (fst ic));
   WriteFile (outPath (fst ic)) (snd ic); Log (writtenLine (fst ic))].

(** A request and an event without the credential. *)
Definition blind (req : Request) : Request :=
  {| url := url req; authorization := []; model := model req;
     systemContent := systemContent req; userContent := userContent req |}.

Definition eraseKey (e : Event) : Event :=
  match e with
  | Fetch req => Fetch (blind req)
  | _ => e
  end.

(** The outside does not answer by the credential: the network, the file
    system and the directory creation answer alike on requests and histories
    that differ in the authorization header only. *)
Definition keyBlind (w : World) : Prop :=
  (forall tr tr' req req',
     map eraseKey tr = map eraseKey tr' -> blind req = blind req' ->
     fetch w tr req = fetch w tr' req')
  /\ (forall tr tr' p c,
        map eraseKey tr = map eraseKey tr' ->
        writeFile w tr p c = writeFile w tr' p c)
  /\ (forall tr tr' p,
        map eraseKey tr = map eraseKey tr' -> mkdir w tr p = mkdir w tr' p).

(** The report at the end of a failed run. *)
Definition isReport (evs : list Event) : Prop :=
  exists p, evs = [LogError p; Exit 1].

End Safety.

(** ** Further sample worlds *)

Module MoreSamples.
Import JS Gen Script Samples.

(** A world with a key and without an outline. *)
Definition world_without_outline : World :=
  {| environ := {[ js "DEEPSEEK_API_KEY" := js "sk-1" ]};
     files := ∅;
     parseOutline := fun _ => None;
     mkdir := fun _ _ => true;
     fetch := fun _ _ => None;
     writeFile := fun _ _ _ => true |}.

(** A world whose base address ends with a slash. *)
Definition proxied : World :=
  {| environ := {[ js "DEEPSEEK_BASE_URL" := js "http://localhost:8080/" ]};
     files := ∅;
     parseOutline := fun _ => None;
     mkdir := fun _ _ => true;
     fetch := fun _ _ => None;
     writeFile := fun _ _ _ => true |}.

End MoreSamples.

(** * Properties *)

(** ** Boolean comparisons on code units *)

Ltac unbool_rules tac :=
  tac andb_true_iff; tac orb_true_iff; tac andb_false_iff; tac orb_false_iff;
  tac negb_true_iff; tac negb_false_iff; tac N.leb_le; tac N.ltb_lt;
  tac N.eqb_eq; tac N.leb_gt; tac N.ltb_ge; tac N.eqb_neq.

Ltac unbool :=
  repeat match goal with
  | H : _ |- _ => progress unbool_rules ltac:(fun l => rewrite ?l in H)
  end;
  repeat (progress unbool_rules ltac:(fun l => rewrite ?l)).

Ltac classes :=
  unfold JS.isWhiteSpace, JS.isLineTerminator, JS.isHighSurrogate,
    JS.isLowSurrogate, Gen.isSlugChar, Gen.isHyphen, JS.between, JS.HYPHEN,
    JS.DQUOTE, JS.NEWLINE in *.

Ltac chars := classes; unbool; try lia.

Module UnicodeFacts.
Import JS Unicode Gen Shape.

Lemma lowerLookup_outside a b tbl cp :
  forallb (missesEntry a b) tbl = true ->
  a <= cp <= b ->
  lowerLookup tbl cp = None.
Proof.
  intros Hall Hcp. induction tbl as [|[[[lo hi] step] img] r IH]; [done|].
  simpl in Hall. apply andb_true_iff in Hall as [He Hr].
  simpl. replace (between lo hi cp) with false; [by apply IH|].
  symmetry. unfold missesEntry in He. chars.
Qed.

(** What a successful lookup returns satisfies whatever every entry
    guarantees on its whole source interval. *)
Lemma lowerLookup_entry (P : N -> N -> Prop) tbl cp c :
  Forall (fun e : N * N * N * N => let '(lo, hi, _, img) := e in
            forall x, lo <= x <= hi -> P x (img + (x - lo))) tbl ->
  lowerLookup tbl cp = Some c ->
  P cp c.
Proof.
  intros Hall. induction Hall as [|[[[lo hi] step] img] r He Hr IH]; [done|].
  simpl. destruct (between lo hi cp && _) eqn:Hsel; [|exact IH].
  intros [= <-]. apply He. chars.
Qed.

Lemma lowerLookup_slug cp :
  slugOrHyphen cp = true -> lowerLookup lowerTable cp = None.
Proof.
  unfold slugOrHyphen. intros H.
  assert (0x61 <= cp <= 0x7A \/ 0x30 <= cp <= 0x39 \/ 0x4E00 <= cp <= 0x9FA5
          \/ 0x2D <= cp <= 0x2D) as [?|[?|[?|?]]] by chars;
    eapply lowerLookup_outside; try eassumption; by vm_compute.
Qed.

Lemma lowerCodePoint_slug before after cp :
  slugOrHyphen cp = true -> lowerCodePoint before after cp = [cp].
Proof.
  intros H. unfold lowerCodePoint. rewrite (lowerLookup_slug _ H).
  unfold slugOrHyphen in H.
  replace (cp =? 0x130) with false by (symmetry; chars).
  replace (cp =? 0x3A3) with false by (symmetry; chars). done.
Qed.

Lemma codePoints_no_surrogate s :
  Forall (fun c => isHighSurrogate c = false) s -> codePoints s = s.
Proof.
  induction 1 as [|c t Hc Ht IH]; [done|].
  cbn [codePoints]. destruct t as [|d t']; [done|].
  rewrite Hc. cbn [andb]. by rewrite IH.
Qed.

Lemma lowerCodePoints_slug before s :
  Forall (fun c => slugOrHyphen c = true) s -> lowerCodePoints before s = s.
Proof.
  intros H. revert before. induction H as [|c t Hc Ht IH]; intros before; [done|].
  cbn [lowerCodePoints]. by rewrite lowerCodePoint_slug, IH.
Qed.

Lemma flat_map_utf16_bmp s :
  Forall (fun c => c < 0x10000) s -> flat_map utf16 s = s.
Proof.
  induction 1 as [|c t Hc Ht IH]; [done|].
  cbn [flat_map]. unfold utf16 at 1.
  replace (c <? 0x10000) with true by (symmetry; chars). by rewrite IH.
Qed.

(** [toLowerCase] leaves a string over [[a-z0-9一-龥-]] unchanged. *)
Lemma toLowerCase_slug s :
  Forall (fun c => slugOrHyphen c = true) s -> toLowerCase s = s.
Proof.
  intros H. unfold toLowerCase.
  rewrite codePoints_no_surrogate, lowerCodePoints_slug, flat_map_utf16_bmp;
    try done; eapply Forall_impl; try exact H;
    intros c Hc; unfold slugOrHyphen in Hc; chars.
Qed.

End UnicodeFacts.

Module SlugFacts.
Import JS Unicode Gen Shape UnicodeFacts.

Lemma closed_separated prev s : closed prev s = true -> separated prev s = true.
Proof.
  revert prev. induction s as [|c t IH]; intros prev; [done|].
  simpl. destruct (isHyphen c); intros H; apply andb_true_iff in H as [H1 H2];
    rewrite H1; simpl; by apply IH.
Qed.

Lemma separated_alphabet prev s :
  separated prev s = true -> Forall (fun c => slugOrHyphen c = true) s.
Proof.
  revert prev. induction s as [|c t IH]; intros prev H; [constructor|].
  simpl in H. destruct (isHyphen c) eqn:Hh;
    apply andb_true_iff in H as [H1 H2]; constructor; eauto;
    unfold slugOrHyphen; rewrite Hh; [apply orb_true_r | by rewrite H1].
Qed.

Lemma isSlug_separated s : isSlug s = true -> separated true s = true.
Proof. destruct s; [done|]. apply closed_separated. Qed.

Lemma separated_weaken s : separated true s = true -> separated false s = true.
Proof.
  destruct s as [|c t]; [done|]. simpl. destruct (isHyphen c); [done|done].
Qed.

(** *** Each stage produces the shape *)

Lemma replace_nonslug_separated b s :
  separated b (replaceRuns (fun c => negb (isSlugChar c)) [HYPHEN] b s) = true.
Proof.
  revert b. induction s as [|c t IH]; intros b; [done|].
  cbn [replaceRuns]. destruct (isSlugChar c) eqn:Hc; cbn [negb].
  - cbn [separated].
    replace (isHyphen c) with false by (symmetry; chars).
    by rewrite Hc, IH.
  - destruct b; cbn [app]; [apply IH|].
    cbn [separated]. replace (isHyphen HYPHEN) with true by done.
    by rewrite IH.
Qed.

Lemma replaceRuns_hyphen_id p b s :
  (forall c, c ∈ s -> p c = isHyphen c) ->
  separated b s = true ->
  replaceRuns p [HYPHEN] b s = s.
Proof.
  revert b. induction s as [|c t IH]; intros b Hp Hs; [done|].
  cbn [replaceRuns]. rewrite (Hp c) by set_solver.
  simpl in Hs. destruct (isHyphen c) eqn:Hc;
    apply andb_true_iff in Hs as [H1 H2].
  - destruct b; [done|]. cbn [app]. rewrite IH; [|set_solver|done].
    f_equal. symmetry. chars.
  - rewrite IH; [done|set_solver|done].
Qed.

Lemma dropFirstHyphen_separated s :
  separated false s = true -> separated true (dropFirstHyphen s) = true.
Proof.
  destruct s as [|c t]; [done|]. cbn [dropFirstHyphen separated].
  fold (isHyphen c). destruct (isHyphen c) eqn:Hc; [done|].
  cbn [separated]. by rewrite Hc.
Qed.

Lemma dropLastHyphen_closed s :
  separated false s = true -> closed false (dropLastHyphen s) = true.
Proof.
  induction s as [|c t IH]; [done|].
  cbn [separated]. destruct (isHyphen c) eqn:Hc; intros H;
    apply andb_true_iff in H as [H1 H2].
  - destruct t as [|d t'].
    + cbn [dropLastHyphen]. fold (isHyphen c). by rewrite Hc.
    + revert H2. cbn [separated]. destruct (isHyphen d) eqn:Hd; [done|].
      intros H2. change (dropLastHyphen (c :: d :: t'))
        with (c :: dropLastHyphen (d :: t')).
      cbn [closed]. rewrite Hc. cbn [negb andb].
      specialize (IH ltac:(cbn [separated]; by rewrite Hd)).
      destruct t' as [|e t'']; cbn [dropLastHyphen] in *; fold (isHyphen d) in *;
        rewrite ?Hd in *; cbn [closed] in *; by rewrite Hd in *.
  - specialize (IH H2). destruct t as [|d t'].
    + cbn [dropLastHyphen]. fold (isHyphen c). rewrite Hc. cbn [closed].
      by rewrite Hc, H1.
    + change (dropLastHyphen (c :: d :: t'))
        with (c :: dropLastHyphen (d :: t')).
      cbn [closed]. by rewrite Hc, H1, IH.
Qed.

Lemma dropLastHyphen_isSlug s :
  separated true s = true -> isSlug (dropLastHyphen s) = true.
Proof.
  destruct s as [|c t]; [done|]. cbn [separated].
  destruct (isHyphen c) eqn:Hc; [done|]. cbn [negb andb]. intros H.
  apply andb_true_iff in H as [H1 H2].
  pose proof (dropLastHyphen_closed t H2) as Ht.
  destruct t as [|d t'].
  - cbn [dropLastHyphen]. fold (isHyphen c). rewrite Hc. simpl.
    by rewrite Hc, H1.
  - change (dropLastHyphen (c :: d :: t'))
      with (c :: dropLastHyphen (d :: t')).
    cbn [isSlug closed]. by rewrite Hc, H1, Ht.
Qed.

(** The result of [safeSlug] always has the shape of a slug. *)
Lemma safeSlug_isSlug s : isSlug (safeSlug s) = true.
Proof.
  unfold safeSlug, stripHyphens.
  set (r := replaceRuns (fun c => negb (isSlugChar c)) [HYPHEN] false _).
  assert (separated false r = true) as Hr by apply replace_nonslug_separated.
  rewrite replaceRuns_hyphen_id by done.
  by apply dropLastHyphen_isSlug, dropFirstHyphen_separated.
Qed.

(** *** Each stage leaves a slug alone *)

Lemma slug_not_space c : slugOrHyphen c = true -> isWhiteSpace c = false.
Proof. unfold slugOrHyphen. intros H. chars. Qed.

Lemma trimEnd_closed prev s : closed prev s = true -> trimEnd s = s.
Proof.
  revert prev. induction s as [|c t IH]; intros prev H; [done|].
  cbn [trimEnd]. assert (exists q, closed q t = true /\ (q = true -> isHyphen c = true)
                         /\ slugOrHyphen c = true) as (q & Hq & Hh & Hc).
  { simpl in H. unfold slugOrHyphen. destruct (isHyphen c) eqn:Hc;
      apply andb_true_iff in H as [H1 H2].
    - exists true. by rewrite orb_true_r.
    - exists false. by rewrite H1. }
  rewrite (IH _ Hq). destruct t as [|d t']; [|done].
  by rewrite (slug_not_space _ Hc).
Qed.

Lemma dropLastHyphen_closed_id prev s :
  closed prev s = true -> dropLastHyphen s = s.
Proof.
  revert prev. induction s as [|c t IH]; intros prev H; [done|].
  simpl in H. destruct t as [|d t'].
  - cbn [dropLastHyphen]. fold (isHyphen c).
    destruct (isHyphen c); [|done].
    apply andb_true_iff in H as [_ H]. done.
  - change (dropLastHyphen (c :: d :: t'))
      with (c :: dropLastHyphen (d :: t')).
    f_equal. destruct (isHyphen c); apply andb_true_iff in H as [_ H];
      eapply IH, H.
Qed.

(** [safeSlug] is the identity on slugs. *)
Lemma safeSlug_fixes_slug s : isSlug s = true -> safeSlug s = s.
Proof.
  intros Hs. destruct s as [|c t]; [done|]. cbn [isSlug] in Hs.
  set (s := c :: t) in *.
  pose proof (closed_separated _ _ Hs) as Hsep.
  pose proof (separated_alphabet _ _ Hsep) as Hall.
  assert (isHyphen c = false /\ isSlugChar c = true) as [Hc1 Hc2].
  { subst s. simpl in Hs. destruct (isHyphen c); [done|].
    apply andb_true_iff in Hs as [? _]. done. }
  unfold safeSlug. assert (trim s = s) as ->.
  { unfold trim, trimStart. subst s. cbn [dropWhile].
    rewrite slug_not_space by (unfold slugOrHyphen; by rewrite Hc2).
    by eapply trimEnd_closed. }
  rewrite (toLowerCase_slug _ Hall).
  rewrite (replaceRuns_hyphen_id (fun c => negb (isSlugChar c)) false s).
  - rewrite (replaceRuns_hyphen_id isHyphen false s);
      [|done|by apply separated_weaken].
    unfold stripHyphens. subst s. cbn [dropFirstHyphen]. fold (isHyphen c).
    rewrite Hc1. by eapply dropLastHyphen_closed_id.
  - intros x Hx. rewrite Forall_forall in Hall. specialize (Hall x Hx).
    unfold slugOrHyphen in Hall.
    destruct (isSlugChar x) eqn:E1, (isHyphen x) eqn:E2; try done; chars.
  - by apply separated_weaken.
Qed.

End SlugFacts.

Module FallbackFacts.
Import JS Unicode Gen Shape UnicodeFacts.

Lemma codePoints_Forall (P : N -> Prop) s :
  Forall P s -> Forall (fun cp => P cp \/ 0x10000 <= cp) (codePoints s).
Proof.
  remember (length s) as n eqn:Hn. revert s Hn.
  induction n as [n IH] using lt_wf_ind. intros s Hn Hs.
  destruct s as [|c [|d t']]; [constructor| |].
  - constructor; [|constructor]. left. by inversion Hs.
  - inversion Hs as [|? ? Hc Ht]; subst. inversion Ht as [|? ? Hd Ht']; subst.
    change (codePoints (c :: d :: t')) with
      (if isHighSurrogate c && isLowSurrogate d
       then (0x10000 + (c - 0xD800) * 0x400 + (d - 0xDC00)) :: codePoints t'
       else c :: codePoints (d :: t')).
    destruct (isHighSurrogate c && isLowSurrogate d) eqn:Hp.
    + constructor; [right; lia|]. eapply IH; [|done|done]. simpl. lia.
    + constructor; [by left|]. eapply IH; [|done|done]. simpl. lia.
Qed.

Lemma utf16_outside c : c < 0x30 \/ 0x39 < c < 0x61 \/ 0x7A < c < 0x4E00 \/ 0x9FA5 < c ->
  Forall outside (utf16 c).
Proof.
  intros H. unfold utf16. destruct (c <? 0x10000) eqn:Hc.
  - constructor; [|constructor]. unfold outside. chars.
  - constructor; [|constructor; [|constructor]]; unfold outside;
      [generalize ((c - 0x10000) / 0x400)
      |generalize ((c - 0x10000) mod 0x400)]; intros q; chars.
Qed.

Lemma forallb_Forall {A} (f : A -> bool) (Q : A -> Prop) l :
  (forall e, f e = true -> Q e) -> forallb f l = true -> Forall Q l.
Proof.
  intros HQ. induction l as [|e r IH]; [constructor|]. simpl.
  intros [He Hr]%andb_true_iff. constructor; eauto.
Qed.

Lemma lowerTable_outside cp c :
  staysOutside cp = true \/ 0x10000 <= cp ->
  lowerLookup lowerTable cp = Some c ->
  Forall outside (utf16 c).
Proof.
  intros Hcp Hl. revert Hcp.
  apply (lowerLookup_entry
    (fun x y => staysOutside x = true \/ 0x10000 <= x -> Forall outside (utf16 y))
    lowerTable cp c); [|done].
  apply (forallb_Forall entryOutside); [|by vm_compute].
  intros [[[lo hi] step] img] He x Hx Hout.
  apply utf16_outside.
  unfold staysOutside, lowersToAscii, entryOutside, slugFree in *.
  chars.
Qed.

Lemma lowerCodePoint_outside before after cp :
  staysOutside cp = true \/ 0x10000 <= cp ->
  Forall outside (flat_map utf16 (lowerCodePoint before after cp)).
Proof.
  intros Hcp. unfold lowerCodePoint.
  destruct (cp =? 0x130) eqn:H1.
  { exfalso. unfold staysOutside, lowersToAscii in Hcp. chars. }
  destruct (cp =? 0x3A3) eqn:H2.
  { destruct (finalSigma before after); cbn [flat_map]; rewrite app_nil_r;
      apply utf16_outside; lia. }
  destruct (lowerLookup lowerTable cp) as [c|] eqn:Hl; cbn [flat_map];
    rewrite app_nil_r.
  - by eapply lowerTable_outside.
  - apply utf16_outside. unfold staysOutside, lowersToAscii in Hcp. chars.
Qed.

Lemma lowerCodePoints_outside before l :
  Forall (fun cp => staysOutside cp = true \/ 0x10000 <= cp) l ->
  Forall outside (flat_map utf16 (lowerCodePoints before l)).
Proof.
  intros H. revert before. induction H as [|cp t Hc Ht IH]; intros before;
    [constructor|].
  cbn [lowerCodePoints]. rewrite flat_map_app. apply Forall_app. split.
  - by apply lowerCodePoint_outside.
  - apply IH.
Qed.

(** Lower-casing a string of code units that stay outside the slug class
    yields no slug character. *)
Lemma toLowerCase_outside s :
  Forall (fun c => staysOutside c = true) s -> Forall outside (toLowerCase s).
Proof.
  intros H. apply lowerCodePoints_outside. by apply codePoints_Forall.
Qed.

Lemma dropWhile_Forall (P : N -> Prop) p s : Forall P s -> Forall P (dropWhile p s).
Proof.
  induction 1 as [|c t Hc Ht IH]; [constructor|]. simpl.
  destruct (p c); [done|by constructor].
Qed.

Lemma trimEnd_Forall (P : N -> Prop) s : Forall P s -> Forall P (trimEnd s).
Proof.
  induction 1 as [|c t Hc Ht IH]; [constructor|]. cbn [trimEnd].
  destruct (trimEnd t) as [|d t'].
  - destruct (isWhiteSpace c); by repeat constructor.
  - by constructor.
Qed.

Lemma trim_Forall (P : N -> Prop) s : Forall P s -> Forall P (trim s).
Proof. intros H. by apply trimEnd_Forall, dropWhile_Forall. Qed.

Lemma replaceRuns_all p r s :
  Forall (fun c => p c = true) s ->
  replaceRuns p r true s = [] /\
  replaceRuns p r false s = match s with [] => [] | _ => r end.
Proof.
  induction 1 as [|c t Hc Ht [IH1 IH2]]; [done|].
  cbn [replaceRuns]. rewrite Hc, IH1. by rewrite !app_nil_r.
Qed.

(** A title that lower-cases to nothing in the slug class has the empty
    slug. *)
Lemma safeSlug_outside s :
  Forall (fun c => staysOutside c = true) s -> safeSlug s = [].
Proof.
  intros H. unfold safeSlug.
  pose proof (toLowerCase_outside _ (trim_Forall _ _ H)) as Hout.
  destruct (replaceRuns_all (fun c => negb (isSlugChar c)) [HYPHEN]
              (toLowerCase (trim s))) as [_ ->].
  { eapply Forall_impl; [exact Hout|]. unfold outside. by intros c ->. }
  by destruct (toLowerCase (trim s)).
Qed.

End FallbackFacts.

(** ** File names *)

Module SlugClaims.
Import JS Unicode Gen Shape UnicodeFacts SlugFacts FallbackFacts.

(** C5: the slug derivation is idempotent: applying [safeSlug] to its own
    result gives that result again, for every input string. *)
Theorem safeSlug_idempotent s : safeSlug (safeSlug s) = safeSlug s.
Proof. apply safeSlug_fixes_slug, safeSlug_isSlug. Qed.

Lemma pad2_shape n :
  (2 <= length (pad2 n))%nat
  /\ (length (digits n) = 1%nat -> pad2 n = 0x30 :: digits n)
  /\ ((2 <= length (digits n))%nat -> pad2 n = digits n).
Proof.
  unfold pad2, padStart0. split; [|split].
  - rewrite length_app, length_replicate. lia.
  - by intros ->.
  - intros H. by replace (2 - length (digits n))%nat with 0%nat by lia.
Qed.

(** C6, as the code has it: a title made only of code units that are
    neither ASCII letters or digits nor CJK (U+4E00 to U+9FA5), and that are
    not U+0130 or U+212A either, has the empty slug, so the file name is the
    order padded to two digits, a hyphen, the placeholder [lesson] and the
    extension [.md]. *)
Theorem placeholder_slug o t :
  Forall (fun c => neitherAlnumNorCJK c = true /\ c <> 0x130 /\ c <> 0x212A) t ->
  safeSlug t = []
  /\ filename o t = pad2 o ++ js "-lesson.md"
  /\ (2 <= length (pad2 o))%nat
  /\ (length (digits o) = 1%nat -> pad2 o = 0x30 :: digits o)
  /\ ((2 <= length (digits o))%nat -> pad2 o = digits o).
Proof.
  intros Ht. assert (safeSlug t = []) as Hs.
  { apply safeSlug_outside. eapply Forall_impl; [exact Ht|].
    intros c (Hc & H1 & H2).
    unfold staysOutside, lowersToAscii, neitherAlnumNorCJK, isAsciiAlnum, isCJK in *.
    chars. }
  split; [done|]. split; [|apply pad2_shape].
  unfold filename. by rewrite Hs.
Qed.

Lemma placeholder_slug_witness :
  Forall (fun c => neitherAlnumNorCJK c = true /\ c <> 0x130 /\ c <> 0x212A)
    (js "！？…")
  /\ filename 3 (js "！？…") = js "03-lesson.md".
Proof.
  assert (Forall (fun c => neitherAlnumNorCJK c = true /\ c <> 0x130 /\ c <> 0x212A)
            (js "！？…")) as H.
  { repeat (constructor; [by vm_compute|]). constructor. }
  split; [exact H|].
  destruct (placeholder_slug 3 (js "！？…") H) as (_ & Hf & _).
  rewrite Hf. reflexivity.
Defined.

(** The Kelvin sign is neither an ASCII letter or digit nor CJK, yet
    [toLowerCase] turns it into [k], which the slug keeps. *)
Lemma kelvin_sign_slug :
  Forall (fun c => neitherAlnumNorCJK c = true) [0x212A]
  /\ filename 1 [0x212A] = js "01-k.md"
  /\ filename 1 [0x212A] <> pad2 1 ++ js "-lesson.md".
Proof.
  split; [by repeat constructor|]. split; [by vm_compute|by vm_compute].
Qed.

End SlugClaims.

(** ** Prompt and front matter *)

Module TextFacts.
Import JS Unicode Gen Script Shape.

Lemma takeWhile_app_stop p a c b :
  Forall (fun x => p x = true) a -> p c = false ->
  takeWhile p (a ++ c :: b) = a.
Proof.
  induction 1 as [|x a Hx Ha IH]; intros Hc; simpl.
  - by rewrite Hc.
  - by rewrite Hx, IH.
Qed.



Lemma filterBoolean_app a b :
  filterBoolean (a ++ b) = filterBoolean a ++ filterBoolean b.
Proof. apply flat_map_app. Qed.

Lemma filterBoolean_some s r :
  truthy s = true -> filterBoolean (Some s :: r) = s :: filterBoolean r.
Proof. intros H. unfold filterBoolean. simpl. by rewrite H. Qed.

Lemma filterBoolean_none r : filterBoolean (None :: r) = filterBoolean r.
Proof. done. Qed.

Lemma filterBoolean_empty r : filterBoolean (Some [] :: r) = filterBoolean r.
Proof. done. Qed.

Lemma truthy_app a b : truthy a = true -> truthy (a ++ b) = true.
Proof. by destruct a. Qed.

Lemma fieldName_label label line rest :
  line = label ++ [0x3A; 0x20] ->
  Forall (fun c => notColon c = true) label ->
  fieldName (line ++ rest) = label.
Proof.
  intros -> Hl. unfold fieldName. rewrite <- app_assoc.
  by apply takeWhile_app_stop.
Qed.

Lemma titleLine_name t : fieldName (titleLine t) = js "title".
Proof. apply fieldName_label; [by vm_compute|]. repeat (constructor; [done|]). constructor. Qed.

Lemma unitLine_name u : fieldName (unitLine u) = js "unit".
Proof. apply fieldName_label; [by vm_compute|]. repeat (constructor; [done|]). constructor. Qed.

Lemma orderLine_name o : fieldName (orderLine o) = js "order".
Proof. apply fieldName_label; [by vm_compute|]. repeat (constructor; [done|]). constructor. Qed.

Lemma keywordsLine_name ks : fieldName (keywordsLine ks) = js "keywords".
Proof.
  unfold keywordsLine. replace (js "keywords: [") with (js "keywords: " ++ js "[")
    by (by vm_compute).
  rewrite <- app_assoc.
  apply fieldName_label; [by vm_compute|]. repeat (constructor; [done|]). constructor.
Qed.

Lemma imageLine_name e o : fieldName (imageLine e o) = js "image".
Proof. apply fieldName_label; [by vm_compute|]. repeat (constructor; [done|]). constructor. Qed.

Lemma titleLine_truthy t : truthy (titleLine t) = true.
Proof. by apply truthy_app. Qed.

Lemma unitLine_truthy u : truthy (unitLine u) = true.
Proof. by apply truthy_app. Qed.

Lemma orderLine_truthy o : truthy (orderLine o) = true.
Proof. by apply truthy_app. Qed.

Lemma keywordsLine_truthy ks : truthy (keywordsLine ks) = true.
Proof. by apply truthy_app. Qed.

Lemma imageLine_truthy e o : truthy (imageLine e o) = true.
Proof. by apply truthy_app. Qed.

Lemma imageEntry_inv keyword o image :
  imageEntry keyword o = inr image ->
  (truthy keyword = false /\ image = None)
  \/ (truthy keyword = true
      /\ exists encoded, encodeURIComponent keyword = Some encoded
                        /\ image = Some (imageLine encoded o)).
Proof.
  unfold imageEntry. destruct (truthy keyword); [|intros [= <-]; by left].
  destruct (encodeURIComponent keyword) as [e|]; [|done].
  intros [= <-]. right. eauto.
Qed.

(** The lines that survive [filter(Boolean)]. *)
Lemma frontMatter_lines v item image :
  image = None \/ (exists encoded o, image = Some (imageLine encoded o)) ->
  filterBoolean (frontMatterArray v item image)
  = [js "---"; titleLine (title item)]
    ++ (if truthy (unitOf item) then [unitLine (unitOf item)] else [])
    ++ [orderLine (order item)]
    ++ (if hasKeywords item then [keywordsLine (keywordsOf item)] else [])
    ++ match v with
       | Rich => match image with Some i => [i] | None => [] end
       | Simple => []
       end
    ++ [js "---"].
Proof.
  intros Himg. unfold frontMatterArray.
  destruct Himg as [->|(enc & o & ->)];
    destruct (truthy (unitOf item)), (hasKeywords item), v;
    cbn [orUndefined app];
    repeat first
      [ rewrite filterBoolean_none
      | rewrite filterBoolean_empty
      | rewrite filterBoolean_some
          by first [ apply titleLine_truthy | apply unitLine_truthy
                   | apply orderLine_truthy | apply keywordsLine_truthy
                   | apply imageLine_truthy | by vm_compute ] ];
    reflexivity.
Qed.

Lemma dashes_name : fieldName (js "---") = js "---".
Proof. by vm_compute. Qed.

End TextFacts.

Module TextClaims.
Import JS Unicode Gen Script Shape Samples TextFacts.

(** C8: when the unit of an entry is absent or empty the prompt has the
    placeholder （未提供） right after the unit label, and when the hint is
    absent it has 无 right after the hint label; the prompt is a function of
    the variant and the entry alone, and it is what the request carries
    whatever the world is. *)
Theorem prompt_placeholders v item :
  (exists before, promptHead v = before ++ js "- 单元：")
  /\ (unit item = None \/ unit item = Some [] ->
      prompt v item =
        promptHead v ++ js "（未提供）" ++ nl ++ js "- 课题：" ++ title item
        ++ nl ++ js "- 提示：" ++ nullish (summaryHint item) (js "无")
        ++ promptTail v)
  /\ (summaryHint item = None ->
      prompt v item =
        promptHead v ++ orElse (unitOf item) (js "（未提供）") ++ nl
        ++ js "- 课题：" ++ title item ++ nl ++ js "- 提示：" ++ js "无"
        ++ promptTail v)
  /\ (forall w key, userContent (request v w key item) = prompt v item).
Proof.
  split; [|split; [|split]].
  - exists (take (length (promptHead v) - 5) (promptHead v)).
    destruct v; by vm_compute.
  - unfold prompt, unitOf. by intros [->| ->].
  - unfold prompt. by intros ->.
  - done.
Qed.

Lemma prompt_placeholders_witness :
  unit lesson2 = Some []
  /\ exists before after,
       prompt Simple lesson2
       = before ++ js "- 单元：（未提供）" ++ nl ++ js "- 课题：T" ++ nl
         ++ js "- 提示：无" ++ after.
Proof.
  split; [reflexivity|].
  destruct (prompt_placeholders Simple lesson2) as ([before Hb] & Hu & _).
  exists before, (promptTail Simple).
  rewrite (Hu (or_intror eq_refl)), Hb. cbn [summaryHint title lesson2 nullish].
  rewrite <- !app_assoc. apply (f_equal (app before)). by vm_compute.
Defined.


(** C4: the front matter starts and ends with a [---] line and lists between
    them, in this order, the title, the unit if it is not empty, the order,
    the keywords if there are any, and (richer variant only) the image if a
    keyword was extracted; nothing else. *)
Theorem front_matter_order v item keyword image :
  imageEntry keyword (order item) = inr image ->
  exists fields,
    filterBoolean (frontMatterArray v item image)
      = [js "---"] ++ fields ++ [js "---"]
    /\ frontMatter v item image = join nl ([js "---"] ++ fields ++ [js "---"])
    /\ map fieldName fields =
         [js "title"]
         ++ (if truthy (unitOf item) then [js "unit"] else [])
         ++ [js "order"]
         ++ (if hasKeywords item then [js "keywords"] else [])
         ++ match v with
            | Rich => if truthy keyword then [js "image"] else []
            | Simple => []
            end.
Proof.
  intros Himg.
  assert (image = None \/ (exists encoded o, image = Some (imageLine encoded o)))
    as Hshape.
  { apply imageEntry_inv in Himg as [[_ ->]|(_ & enc & _ & ->)]; eauto. }
  pose proof (frontMatter_lines v item image Hshape) as Harr.
  change ([js "---"; titleLine (title item)] ++ ?a ++ ?b ++ ?c ++ ?d ++ ?e)
    with ([js "---"] ++ ([titleLine (title item)] ++ a ++ b ++ c ++ d ++ e))
    in Harr.
  rewrite 4!(app_assoc _ _ [js "---"]) in Harr.
  eexists. split; [exact Harr|]. split; [unfold frontMatter; by rewrite Harr|].
  apply imageEntry_inv in Himg as [[-> ->]|(-> & enc & _ & ->)];
    destruct (truthy (unitOf item)), (hasKeywords item), v; cbn [map app];
    rewrite ?titleLine_name, ?unitLine_name, ?orderLine_name,
      ?keywordsLine_name, ?imageLine_name; reflexivity.
Qed.

Lemma front_matter_order_witness :
  imageEntry (js "a b") (order lesson1) = inr (Some (imageLine (js "a%20b") 1))
  /\ exists fields,
       filterBoolean
         (frontMatterArray Rich lesson1 (Some (imageLine (js "a%20b") 1)))
         = [js "---"] ++ fields ++ [js "---"]
       /\ map fieldName fields
          = [js "title"; js "unit"; js "order"; js "keywords"; js "image"].
Proof.
  assert (imageEntry (js "a b") (order lesson1)
          = inr (Some (imageLine (js "a%20b") 1))) as H by (by vm_compute).
  split; [exact H|].
  destruct (front_matter_order Rich lesson1 _ _ H) as (fields & H1 & _ & H2).
  exists fields. split; [exact H1|]. rewrite H2. by vm_compute.
Defined.


End TextClaims.

(** ** Unit icons *)

Module UnitsClaims.
Import JS Units.

Lemma unitIcon_defined u : unitIcon u <> Undefined.
Proof.
  unfold unitIcon. destruct u as [u|]; [|done].
  destruct (negb (truthy u)); [done|]. by destruct (get u).
Qed.

Lemma unitIcon_absent : unitIcon None = Str BOOK /\ unitIcon (Some []) = Str BOOK.
Proof. done. Qed.

Lemma unitIcon_own_key k icon :
  UNIT_ICONS !! k = Some icon -> unitIcon (Some k) = Str icon.
Proof.
  intros H. destruct k as [|c k].
  - exfalso. revert H. by vm_compute.
  - unfold unitIcon, get. cbn [truthy negb]. by rewrite H.
Qed.

Lemma unitIcon_unknown k :
  UNIT_ICONS !! k = None -> ObjectPrototype !! k = None ->
  unitIcon (Some k) = Str BOOK.
Proof.
  intros H1 H2. unfold unitIcon, get. rewrite H1, H2.
  by destruct (negb (truthy k)).
Qed.

(** C10 does not hold for the names every object inherits: [constructor] is
    not a key of [UNIT_ICONS], yet [unitIcon] returns the inherited
    [Object] function for it instead of the default book icon.  (The rest
    of the claim holds: see [unitIcon_defined], [unitIcon_absent],
    [unitIcon_own_key] and [unitIcon_unknown].) *)
Theorem unitIcon_inherited_name :
  UNIT_ICONS !! js "constructor" = None
  /\ unitIcon (Some (js "constructor")) = Function "Object"
  /\ unitIcon (Some (js "constructor")) <> Str BOOK.
Proof. split; [by vm_compute|]. split; by vm_compute. Qed.

End UnitsClaims.

(** ** The driver *)

Module DriverFacts.
Import JS Gen Script Trace.

Lemma refusedAt_app w tr evs i req res :
  refusedAt w (tr ++ evs) i req res ->
  refusedAt w tr i req res
  \/ ((length tr <= i)%nat
      /\ evs !! (i - length tr)%nat = Some (Fetch req)
      /\ fetch w (tr ++ take (i - length tr) evs) req = Some res
      /\ ok res = false).
Proof.
  intros (H1 & H2 & H3). destruct (decide (i < length tr)%nat) as [Hi|Hi].
  - left. rewrite lookup_app_l in H1 by done.
    rewrite take_app_le in H2 by lia. done.
  - right. rewrite lookup_app_r in H1 by lia.
    rewrite take_app_ge in H2 by lia. split; [lia|done].
Qed.

Lemma noRefusal_nil w : noRefusal w [].
Proof. intros i req res (H & _). by rewrite lookup_nil in H. Qed.

Lemma noRefusal_quiet w tr evs :
  noRefusal w tr -> Forall quiet evs -> noRefusal w (tr ++ evs).
Proof.
  intros Htr Hq i req res [H|(_ & H & _)]%refusedAt_app; [by eapply Htr|].
  rewrite Forall_lookup in Hq. by eapply Hq.
Qed.

Lemma noRefusal_fetch w tr req :
  noRefusal w tr ->
  (forall res, fetch w tr req = Some res -> ok res = true) ->
  noRefusal w (tr ++ [Fetch req]).
Proof.
  intros Htr Hok i r res [H|(Hi & H1 & H2 & H3)]%refusedAt_app; [by eapply Htr|].
  apply list_lookup_singleton_Some in H1 as [Hz [= <-]].
  rewrite Hz in H2. cbn [take] in H2. rewrite app_nil_r in H2.
  rewrite (Hok _ H2) in H3. done.
Qed.

Lemma halted_not_done w tr : ~ halted w tr (inr tt).
Proof. by intros (? & ? & ? & _ & _ & _ & _ & ?). Qed.

Lemma settled_done w tr : settled w (tr, inr tt) -> noRefusal w tr.
Proof. intros [H|H]; [done|]. by apply halted_not_done in H. Qed.

Section Runs.
Variable v : Variant.
Variable w : World.
Variable key : list N.

Lemma snoc2 {A} (l : list A) a b : (l ++ [a]) ++ [b] = l ++ [a; b].
Proof. by rewrite <- app_assoc. Qed.

Lemma processItem_run item tr :
  ItemRun v w key item tr (processItem v w key item tr).
Proof.
  unfold processItem, postJson, writeOut, mbind, M_bind, bind, emit, history, throw, ret.
  fold (request v w key item).
  destruct (fetch w (tr ++ [Log (startLine item)]) (request v w key item))
    as [res|] eqn:Hf; rewrite snoc2.
  2: { by apply FetchRejected. }
  destruct (ok res) eqn:Hok; cbn [negb].
  2: { by apply Refused. }
  destruct (json res) as [j|] eqn:Hj.
  2: { by eapply Unusable. }
  destruct (contentOf j) as [[| | |[|c s]| |]|] eqn:Hc;
    try (by eapply Unusable).
  destruct (document v item (c :: s)) as [e|content] eqn:Hd;
    [by eapply Unusable|].
  rewrite <- app_assoc. cbn [app].
  destruct (writeFile w _ _ _).
  - rewrite <- app_assoc. cbn [app]. by eapply Written.
  - by eapply WriteFailed.
Qed.

Lemma forEach_run outline tr : LoopRun v w key outline tr (forEach v w key outline tr).
Proof.
  revert tr. induction outline as [|item r IH]; intros tr; [constructor|].
  cbn [forEach]. unfold mbind, M_bind, bind.
  pose proof (processItem_run item tr) as Hrun.
  destruct (processItem v w key item tr) as [tr1 [e|[]]].
  - by eapply LoopStop.
  - eapply LoopStep; [exact Hrun|apply IH].
Qed.

Lemma quiet_Log s : quiet (Log s).
Proof. by intros req. Qed.

Lemma quiet_WriteFile p c : quiet (WriteFile p c).
Proof. by intros req. Qed.

Lemma quiet_ReadFile p : quiet (ReadFile p).
Proof. by intros req. Qed.

Lemma quiet_Mkdir p : quiet (Mkdir p).
Proof. by intros req. Qed.

Lemma ItemRun_settled item tr out :
  ItemRun v w key item tr out -> noRefusal w tr -> settled w out.
Proof.
  intros Hrun Htr.
  assert (noRefusal w (tr ++ [Log (startLine item)])) as Hlog.
  { apply noRefusal_quiet; [done|]. repeat constructor. apply quiet_Log. }
  assert (forall res, fetch w (tr ++ [Log (startLine item)]) (request v w key item)
                      = Some res -> ok res = true ->
                      noRefusal w (tr ++ [Log (startLine item);
                                          Fetch (request v w key item)])) as Hok.
  { intros res Hf Hr. rewrite <- snoc2. apply noRefusal_fetch; [done|].
    intros res' Hf'. congruence. }
  destruct Hrun as [Hf|res Hf Hr|res e Hf Hr|res content Hf Hr|res j md content Hf Hr].
  - left. cbn [fst]. rewrite <- snoc2. apply noRefusal_fetch; [done|].
    intros res Hf'. congruence.
  - right. exists (tr ++ [Log (startLine item)]), (request v w key item), res.
    cbn [fst snd]. by rewrite snoc2.
  - left. by eapply Hok.
  - left. cbn [fst].
    change (tr ++ [Log (startLine item); Fetch (request v w key item);
                   WriteFile (outPath item) content])
      with (tr ++ [Log (startLine item); Fetch (request v w key item)]
               ++ [WriteFile (outPath item) content]).
    rewrite app_assoc. apply noRefusal_quiet; [by eapply Hok|].
    repeat constructor. apply quiet_WriteFile.
  - left. cbn [fst].
    change (tr ++ [Log (startLine item); Fetch (request v w key item);
                   WriteFile (outPath item) content;
                   Log (js "写入：" ++ outPath item)])
      with (tr ++ [Log (startLine item); Fetch (request v w key item)]
               ++ [WriteFile (outPath item) content;
                   Log (js "写入：" ++ outPath item)]).
    rewrite app_assoc. apply noRefusal_quiet; [by eapply Hok|].
    repeat constructor; [apply quiet_WriteFile|apply quiet_Log].
Qed.

Lemma LoopRun_settled outline tr out :
  LoopRun v w key outline tr out -> noRefusal w tr -> settled w out.
Proof.
  induction 1 as [tr|item r tr tr1 out Hitem Hloop IH|item r tr tr1 e Hitem];
    intros Htr.
  - by left.
  - apply IH. eapply settled_done, ItemRun_settled; eauto.
  - eapply ItemRun_settled; eauto.
Qed.

Lemma ops_app a b : ops (a ++ b) = ops a ++ ops b.
Proof. apply flat_map_app. Qed.

Lemma ItemRun_ops item tr tr1 r :
  ItemRun v w key item tr (tr1, r) ->
  exists performed,
    ops tr1 = ops tr ++ performed
    /\ performed `prefix_of` [Net (request v w key item); Wr (outPath item)]
    /\ (r = inr tt ->
        performed = [Net (request v w key item); Wr (outPath item)]).
Proof.
  inversion 1; subst; rewrite ops_app; cbn [ops flat_map op app];
    eexists; (split; [reflexivity|]); split; try done;
    try (by apply prefix_cons, prefix_nil).
Qed.

Lemma LoopRun_ops outline tr out :
  LoopRun v w key outline tr out ->
  exists performed,
    ops (fst out) = ops tr ++ performed
    /\ performed `prefix_of` plan v w key outline
    /\ (snd out = inr tt -> performed = plan v w key outline).
Proof.
  induction 1 as [tr|item r tr tr1 out Hitem Hloop IH|item r tr tr1 e Hitem].
  - exists []. cbn [fst snd plan flat_map]. by rewrite app_nil_r.
  - destruct (ItemRun_ops _ _ _ _ Hitem) as (p1 & H1 & _ & H2).
    destruct IH as (p2 & H3 & H4 & H5). specialize (H2 eq_refl). subst p1.
    exists ([Net (request v w key item); Wr (outPath item)] ++ p2).
    rewrite H3, H1, <- app_assoc. split; [done|].
    cbn [plan flat_map]. split; [by apply prefix_app|].
    intros Hd. by rewrite (H5 Hd).
  - destruct (ItemRun_ops _ _ _ _ Hitem) as (p1 & H1 & H2 & _).
    exists p1. cbn [fst snd]. split; [done|]. split; [|done].
    cbn [plan flat_map]. by apply prefix_app_r.
Qed.

End Runs.

(** *** Credential lookup *)

Section Credential.
Variable w : World.

Lemma tryFile_eq p tr :
  tryFile w p tr =
  (tr ++ [ReadFile p],
   inr match files w !! p with
       | None => Continue
       | Some content =>
         if negb (truthy (trim content)) then Continue
         else if bool_decide (basename p = js ".deepseek_key")
              then Return (trim content)
              else match firstKeyLine (splitLines (trim content)) with
                   | Some k => Return k
                   | None => Continue
                   end
       end).
Proof.
  unfold tryFile, catch, readFile, mbind, M_bind, bind, emit, throw, ret.
  destruct (files w !! p) as [content|]; [|done].
  destruct (negb (truthy (trim content))); [done|].
  destruct (bool_decide _); [done|].
  by destruct (firstKeyLine _).
Qed.

Lemma readKeyFallback_eq tr :
  readKeyFallback w tr = (tr ++ reads w, inr (resolved w)).
Proof.
  assert (bool_decide (basename KEY_FILE = js ".deepseek_key") = true) as Hk
    by (by vm_compute).
  assert (bool_decide (basename ENV_FILE = js ".deepseek_key") = false) as He
    by (by vm_compute).
  unfold readKeyFallback, reads, resolved, fromEnvironment, fromKeyFile, fromEnvFile.
  fold KEY_FILE ENV_FILE.
  assert (truthy (nullish (environ w !! js "DEEPSEEK_API_KEY") []) = false ->
          match environ w !! js "DEEPSEEK_API_KEY" with
          | Some value => nonEmpty value
          | None => None
          end = None) as Hnone.
  { unfold nonEmpty. destruct (environ w !! js "DEEPSEEK_API_KEY") as [k|]; [|done].
    cbn [nullish]. by intros ->. }
  destruct (truthy (nullish (environ w !! js "DEEPSEEK_API_KEY") [])) eqn:Henv.
  { destruct (environ w !! js "DEEPSEEK_API_KEY") as [k|]; [|done].
    cbn [nullish] in *. unfold nonEmpty. by rewrite Henv, app_nil_r. }
  rewrite (Hnone eq_refl). clear Hnone Henv.
  cbn [tryFiles]. unfold mbind, M_bind, bind, ret. rewrite tryFile_eq, Hk.
  unfold nonEmpty.
  destruct (files w !! KEY_FILE) as [c1|];
    [destruct (truthy (trim c1)); cbn [negb]; [done|]|];
    rewrite tryFile_eq, He, snoc2;
    (destruct (files w !! ENV_FILE) as [c2|]; [|done]);
    (destruct (truthy (trim c2)); cbn [negb]; [|done]);
    by destruct (firstKeyLine _).
Qed.

End Credential.

(** *** The whole process *)

Section Whole.
Variable v : Variant.
Variable w : World.

Lemma resolveKey_eq :
  exists tr, resolveKey v w [] = (tr, inr (keyOf v w)) /\ Forall isRead tr.
Proof.
  unfold keyOf. destruct v; cbn [resolveKey].
  - exists []. split; [done|constructor].
  - rewrite readKeyFallback_eq. cbn [app]. exists (reads w). split; [done|].
    unfold reads. destruct (fromEnvironment w); [constructor|].
    destruct (fromKeyFile w); repeat constructor; by eexists.
Qed.

Lemma isRead_quiet tr : Forall isRead tr -> Forall quiet tr.
Proof.
  intros H. eapply Forall_impl; [exact H|]. intros e [p ->]. apply quiet_ReadFile.
Qed.

Lemma main_eq key tr :
  main v w key tr =
  match files w !! OUTLINE_PATH with
  | None => (tr ++ [ReadFile OUTLINE_PATH], inl (IOError OUTLINE_PATH))
  | Some raw =>
    match parseOutline w raw with
    | None => (tr ++ [ReadFile OUTLINE_PATH], inl SyntaxError)
    | Some outline =>
      if mkdir w (tr ++ [ReadFile OUTLINE_PATH]) OUT_DIR then
        match forEach v w key outline
                (tr ++ [ReadFile OUTLINE_PATH; Mkdir OUT_DIR]) with
        | (tr', inr _) =>
          (tr' ++ [Log (nl ++ js "完成：已生成全部课程 markdown。")], inr tt)
        | (tr', inl e) => (tr', inl e)
        end
      else (tr ++ [ReadFile OUTLINE_PATH; Mkdir OUT_DIR], inl (IOError OUT_DIR))
    end
  end.
Proof.
  unfold main, readFile, mbind, M_bind, bind, emit, history, throw, ret.
  destruct (files w !! OUTLINE_PATH) as [raw|]; [|done].
  destruct (parseOutline w raw) as [outline|]; [|done].
  rewrite snoc2. destruct (mkdir w _ _); [|done].
  by destruct (forEach v w key outline _) as [tr' [e|[]]].
Qed.

Lemma main_settled key tr :
  noRefusal w tr -> settled w (main v w key tr).
Proof.
  intros Htr. rewrite main_eq.
  assert (noRefusal w (tr ++ [ReadFile OUTLINE_PATH])) as H1.
  { apply noRefusal_quiet; [done|]. repeat constructor. apply quiet_ReadFile. }
  assert (noRefusal w (tr ++ [ReadFile OUTLINE_PATH; Mkdir OUT_DIR])) as H2.
  { apply noRefusal_quiet; [done|].
    repeat constructor; [apply quiet_ReadFile|apply quiet_Mkdir]. }
  destruct (files w !! OUTLINE_PATH) as [raw|]; [|by left].
  destruct (parseOutline w raw) as [outline|]; [|by left].
  destruct (mkdir w _ _); [|by left].
  pose proof (LoopRun_settled v w key outline _ _ (forEach_run v w key outline _) H2)
    as Hloop.
  destruct (forEach v w key outline _) as [tr' [e|[]]]; [done|].
  left. cbn [fst]. apply noRefusal_quiet; [by apply settled_done|].
  repeat constructor. apply quiet_Log.
Qed.

(** After a refused fetch nothing happens but the report of the error and
    the exit. *)
Lemma script_refused i req res :
  refusedAt w (fst (script v w)) i req res ->
  drop (S i) (fst (script v w))
    = [LogError (Value (Error (httpError res))); Exit 1]
  /\ snd (script v w) = 1%Z.
Proof.
  unfold script. destruct resolveKey_eq as (tr0 & -> & Hq).
  assert (noRefusal w tr0) as H0.
  { rewrite <- (app_nil_l tr0).
    apply noRefusal_quiet; [apply noRefusal_nil|by apply isRead_quiet]. }
  destruct (negb (truthy (keyOf v w))).
  { cbn [fst snd]. intros [H|(_ & H & _)]%refusedAt_app; [by apply H0 in H|].
    exfalso. destruct (i - length tr0)%nat as [|[|[|n]]]; done. }
  pose proof (main_settled (keyOf v w) tr0 H0) as Hm.
  destruct (main v w (keyOf v w) tr0) as [tr1 [e|[]]];
    unfold settled, halted in Hm; cbn [fst snd] in *.
  - intros [H|(Hi & H & _)]%refusedAt_app.
    + destruct Hm as [Hm|(before & req' & res' & -> & Hb & Hf & Hok & [= ->])];
        [by apply Hm in H|].
      apply refusedAt_app in H as [H|(Hi & H1 & H2 & H3)]; [by apply Hb in H|].
      apply list_lookup_singleton_Some in H1 as [Hz [= ->]].
      rewrite Hz in H2. cbn [take] in H2. rewrite app_nil_r in H2.
      assert (res' = res) as -> by congruence.
      assert (i = length before) as -> by lia.
      split; [|done]. rewrite <- app_assoc. cbn [app].
      change (before ++ Fetch req :: ?l) with (before ++ [Fetch req] ++ l).
      rewrite app_assoc, drop_app_length'; [done|].
      rewrite length_app. cbn [length]. lia.
    + exfalso. destruct (i - length tr1)%nat as [|[|[|n]]]; done.
  - intros H. destruct Hm as [Hm|(? & ? & ? & _ & _ & _ & _ & ?)]; [|done].
    by apply Hm in H.
Qed.

Lemma ops_quiet tr :
  Forall (fun e => op e = []) tr -> ops tr = [].
Proof. induction 1 as [|e tr He Htr IH]; [done|]. cbn [ops flat_map]. by rewrite He. Qed.

Lemma main_ops key tr :
  exists performed,
    ops (fst (main v w key tr)) = ops tr ++ performed
    /\ performed `prefix_of` plan v w key (outlineOf w)
    /\ (snd (main v w key tr) = inr tt ->
        performed = plan v w key (outlineOf w)).
Proof.
  rewrite main_eq. unfold outlineOf.
  destruct (files w !! OUTLINE_PATH) as [raw|].
  2: { exists []. cbn [fst snd]. rewrite ops_app, !app_nil_r.
       split; [done|]. split; [apply prefix_nil|done]. }
  destruct (parseOutline w raw) as [outline|].
  2: { exists []. cbn [fst snd]. rewrite ops_app, !app_nil_r.
       split; [done|]. split; [apply prefix_nil|done]. }
  destruct (mkdir w _ _).
  2: { exists []. cbn [fst snd]. rewrite ops_app, !app_nil_r.
       split; [done|]. split; [apply prefix_nil|done]. }
  destruct (LoopRun_ops v w key outline _ _ (forEach_run v w key outline
              (tr ++ [ReadFile OUTLINE_PATH; Mkdir OUT_DIR])))
    as (p & H1 & H2 & H3).
  destruct (forEach v w key outline _) as [tr' [e|[]]]; cbn [fst snd] in *;
    exists p; rewrite ?ops_app, H1, ops_app; cbn [ops flat_map op app];
    rewrite ?app_nil_r; split; try done; split; try done.
Qed.

(** The operations of a run follow the plan, and make up all of it when the
    process exits with code 0. *)
Lemma script_ops :
  ops (fst (script v w)) `prefix_of` plan v w (keyOf v w) (outlineOf w)
  /\ (snd (script v w) = 0%Z ->
      ops (fst (script v w)) = plan v w (keyOf v w) (outlineOf w)).
Proof.
  unfold script. destruct resolveKey_eq as (tr0 & -> & Hq).
  assert (ops tr0 = []) as H0.
  { apply ops_quiet. eapply Forall_impl; [exact Hq|]. by intros e [p ->]. }
  destruct (negb (truthy (keyOf v w))).
  { cbn [fst snd]. rewrite ops_app, H0. split; [apply prefix_nil|done]. }
  destruct (main_ops (keyOf v w) tr0) as (p & H1 & H2 & H3).
  destruct (main v w (keyOf v w) tr0) as [tr1 [e|[]]]; cbn [fst snd] in *.
  - rewrite ops_app, H1, H0. cbn [ops flat_map op app]. rewrite app_nil_r.
    split; [done|done].
  - rewrite H1, H0. cbn [app]. split; [done|]. intros _. by apply H3.
Qed.

Lemma plan_lookup key outline i item :
  outline !! i = Some item ->
  plan v w key outline !! (2 * i)%nat = Some (Net (request v w key item))
  /\ plan v w key outline !! (2 * i + 1)%nat = Some (Wr (outPath item)).
Proof.
  revert i. induction outline as [|x r IH]; intros i Hi; [done|].
  destruct i as [|i].
  - injection Hi as ->. done.
  - cbn [plan flat_map app]. cbn in Hi. destruct (IH i Hi) as [H1 H2].
    replace (2 * S i)%nat with (S (S (2 * i))) by lia.
    replace (S (S (2 * i)) + 1)%nat with (S (S (2 * i + 1))) by lia.
    done.
Qed.

End Whole.

End DriverFacts.

Module CredentialFacts.
Import JS Gen Script Trace.

Lemma literal_exact pat rest : literal false pat (pat ++ rest) = Some rest.
Proof.
  induction pat as [|c pat IH]; [done|].
  cbn [literal app]. by rewrite N.eqb_refl.
Qed.

Lemma spaces_stop {A} (k : list N -> option A) c t :
  isWhiteSpace c = false -> spaces k (c :: t) = k (c :: t).
Proof. intros H. cbn [spaces]. by rewrite H. Qed.

Lemma valueToEnd_all x :
  x <> [] -> Forall (fun c => isLineTerminator c = false) x ->
  valueToEnd x = Some x.
Proof.
  intros Hne Hx. induction Hx as [|c t Hc Ht IH]; [done|].
  cbn [valueToEnd]. rewrite Hc. destruct t as [|d t']; [done|].
  by rewrite IH.
Qed.


Lemma trimEnd_plain s :
  Forall (fun c => isWhiteSpace c = false) s -> trimEnd s = s.
Proof.
  induction 1 as [|c t Hc Ht IH]; [done|].
  cbn [trimEnd]. rewrite IH, Hc. by destruct t.
Qed.


Lemma space_or_terminator c : isWhiteSpace c = false -> isLineTerminator c = false.
Proof. intros H. chars. Qed.


End CredentialFacts.

Module DriverClaims.
Import JS Gen Script Trace Samples DriverFacts CredentialFacts.

(** C1: when the endpoint answers a request with a status that is not a
    success, the client throws an error whose message carries the status
    code, the status text and the first 500 code units at most of the body;
    nothing happens afterwards but the report of that error and the exit
    with code 1: no file is written and no further request is sent. *)
Theorem refused_fetch_halts v w i req res :
  refusedAt w (fst (script v w)) i req res ->
  drop (S i) (fst (script v w))
    = [LogError (Value (Error (httpError res))); Exit 1]
  /\ snd (script v w) = 1%Z
  /\ httpError res
     = js "HTTP " ++ digits (Z.of_N (status res)) ++ js " " ++ statusText res
       ++ js ": " ++ take 500 (nullish (text res) [])
  /\ (length (take 500 (nullish (text res) [])) <= 500)%nat
  /\ take 500 (nullish (text res) []) `prefix_of` nullish (text res) [].
Proof.
  intros H. destruct (script_refused v w i req res H) as [H1 H2].
  split; [done|]. split; [done|]. split; [done|].
  split; [rewrite length_take; lia|apply prefix_take].
Qed.

Lemma refused_fetch_halts_witness :
  refusedAt refusing (fst (script Rich refusing)) 3
    (request Rich refusing (js "sk-1") lesson1) busy
  /\ drop 4 (fst (script Rich refusing))
     = [LogError (Value (Error (js "HTTP 429 Too Many Requests: slow down")));
        Exit 1].
Proof.
  assert (refusedAt refusing (fst (script Rich refusing)) 3
            (request Rich refusing (js "sk-1") lesson1) busy) as H.
  { split; [by vm_compute|]. split; by vm_compute. }
  split; [exact H|].
  destruct (refused_fetch_halts Rich refusing 3 _ busy H) as (-> & _).
  by vm_compute.
Defined.

(** C9: the network calls and file writes of a run are, in this order, the
    call of the first entry, the write of the first entry, the call of the
    second entry, and so on in the order of the outline; a run that stops
    early has performed an initial part of that sequence, a run that exits
    with code 0 all of it. *)
Theorem entries_in_sequence v w :
  ops (fst (script v w)) `prefix_of` plan v w (keyOf v w) (outlineOf w)
  /\ (snd (script v w) = 0%Z ->
      ops (fst (script v w)) = plan v w (keyOf v w) (outlineOf w))
  /\ (forall i item, outlineOf w !! i = Some item ->
      plan v w (keyOf v w) (outlineOf w) !! (2 * i)%nat
        = Some (Net (request v w (keyOf v w) item))
      /\ plan v w (keyOf v w) (outlineOf w) !! (2 * i + 1)%nat
        = Some (Wr (outPath item))).
Proof.
  destruct (script_ops v w) as [H1 H2]. split; [done|]. split; [done|].
  intros i item. apply plan_lookup.
Qed.



Lemma entries_in_sequence_witness :
  snd (script Simple answering) = 0%Z
  /\ ops (fst (script Simple answering))
     = [Net (request Simple answering (js "sk-1") lesson1); Wr (outPath lesson1);
        Net (request Simple answering (js "sk-1") lesson2); Wr (outPath lesson2)].
Proof.
  assert (snd (script Simple answering) = 0%Z) as H by (by vm_compute).
  split; [exact H|].
  destruct (entries_in_sequence Simple answering) as (_ & Hall & _).
  rewrite (Hall H). by vm_compute.
Defined.

End DriverClaims.

(** ** The image keyword *)

Module ImageFacts.
Import JS Gen Script Shape TextFacts CredentialFacts.

Lemma UNSPLASH_eq :
  UNSPLASH = [0x75; 0x6E; 0x73; 0x70; 0x6C; 0x61; 0x73; 0x68; 0x3A].
Proof. by vm_compute. Qed.

Lemma literal_ci pat m rest :
  map asciiLower m = pat -> literal true pat (m ++ rest) = Some rest.
Proof.
  revert pat. induction m as [|c m IH]; intros pat <-; [done|].
  cbn [map literal app]. rewrite N.eqb_refl. by apply IH.
Qed.

Lemma literal_app pat s r x :
  literal true pat s = Some r -> literal true pat (s ++ x) = Some (r ++ x).
Proof.
  revert s. induction pat as [|p pat IH]; intros s; [by intros [= ->]|].
  destruct s as [|c s]; [done|]. cbn [literal app].
  destruct (asciiLower c =? p); [apply IH|done].
Qed.

(** A match of [pat] cannot start in [s] and end in [rest] when no proper
    suffix of [pat] matches at the start of [rest]. *)
Lemma literal_straddle pat s rest :
  s <> [] ->
  literal true pat s = None ->
  (forall k, (0 < k < length pat)%nat -> literal true (drop k pat) rest = None) ->
  literal true pat (s ++ rest) = None.
Proof.
  revert pat. induction s as [|c s IH]; intros pat Hne Hs Hk; [done|].
  destruct pat as [|p pat]; [done|]. cbn [literal app] in *.
  destruct (asciiLower c =? p); [|done].
  destruct s as [|d s'].
  - destruct pat as [|p' pat']; [done|]. cbn [app].
    apply (Hk 1%nat). cbn [length]. lia.
  - apply IH; [done|done|]. intros k Hlt. apply (Hk (S k)). cbn [length]. lia.
Qed.

Lemma marker_no_overlap k c rest :
  asciiLower c = 0x75 -> (0 < k < 9)%nat ->
  literal true (drop k UNSPLASH) (c :: rest) = None.
Proof.
  intros Hc Hk. rewrite UNSPLASH_eq.
  do 9 (destruct k as [|k]; [try lia; cbn [drop literal]; by rewrite Hc|]).
  lia.
Qed.

Lemma marker_head marker :
  map asciiLower marker = UNSPLASH ->
  exists c t, marker = c :: t /\ asciiLower c = 0x75.
Proof.
  rewrite UNSPLASH_eq. destruct marker as [|c t]; [done|].
  intros [= Hc _]. eauto.
Qed.

Lemma mentions_cons c t :
  mentions (c :: t) = false ->
  literal true UNSPLASH (c :: t) = None /\ mentions t = false.
Proof.
  cbn [mentions]. intros [H1 H2]%orb_false_iff. split; [|done].
  by destruct (literal true UNSPLASH (c :: t)).
Qed.

Section Skip.
Variables (before marker rest : list N).
Hypothesis Hbefore : mentions before = false.
Hypothesis Hmarker : map asciiLower marker = UNSPLASH.

Lemma literal_before s :
  s <> [] -> literal true UNSPLASH s = None ->
  literal true UNSPLASH (s ++ marker ++ rest) = None.
Proof.
  intros Hne Hs. destruct (marker_head _ Hmarker) as (c & t & -> & Hc).
  apply literal_straddle; [done|done|].
  intros k Hk. apply marker_no_overlap; [done|].
  rewrite UNSPLASH_eq in Hk. cbn [length] in Hk. lia.
Qed.

Lemma unsplashMatch_skip :
  unsplashMatch (before ++ marker ++ rest) = unsplashMatch (marker ++ rest).
Proof.
  clear -Hbefore Hmarker. induction before as [|c t IH]; [done|].
  apply mentions_cons in Hbefore as [H1 H2].
  cbn [unsplashMatch app].
  change (c :: t ++ marker ++ rest) with ((c :: t) ++ marker ++ rest).
  rewrite literal_before by done. cbn [mbind option_bind]. by apply IH.
Qed.

Lemma removeUnsplash_skip :
  removeUnsplash (before ++ marker ++ rest)
  = before ++ removeUnsplash (marker ++ rest).
Proof.
  clear -Hbefore Hmarker. induction before as [|c t IH]; [done|].
  apply mentions_cons in Hbefore as [H1 H2].
  cbn [removeUnsplash app].
  change (c :: t ++ marker ++ rest) with ((c :: t) ++ marker ++ rest).
  rewrite literal_before by done. cbn [mbind option_bind]. f_equal. by apply IH.
Qed.

End Skip.

Lemma takeWhile_all p s :
  Forall (fun c => p c = true) s -> takeWhile p s = s.
Proof. induction 1 as [|c t Hc Ht IH]; [done|]. simpl. by rewrite Hc, IH. Qed.

Lemma dropWhile_all p s :
  Forall (fun c => p c = true) s -> dropWhile p s = [].
Proof. induction 1 as [|c t Hc Ht IH]; [done|]. simpl. by rewrite Hc. Qed.

Lemma dropWhile_stop p a c b :
  Forall (fun x => p x = true) a -> p c = false ->
  dropWhile p (a ++ c :: b) = c :: b.
Proof.
  induction 1 as [|x a Hx Ha IH]; intros Hc; simpl.
  - by rewrite Hc.
  - by rewrite Hx, IH.
Qed.

(** The text of a marker line after [unsplash:]. *)
Section Line.
Variables (gap keyword ending : list N).
Hypothesis Hgap : Forall (fun c => isWhiteSpace c = true /\ c <> NEWLINE) gap.
Hypothesis Hstart : exists c t, keyword = c :: t /\ isWhiteSpace c = false.
Hypothesis Hkeyword : NEWLINE ∉ keyword.
Hypothesis Hending : ending = [] \/ ending = [NEWLINE].

Lemma keyword_line : Forall (fun c => notNewline c = true) keyword.
Proof.
  apply Forall_forall. intros c Hc. unfold notNewline.
  apply negb_true_iff, N.eqb_neq. by intros ->.
Qed.

Lemma gap_line : Forall (fun c => notNewline c = true) gap.
Proof.
  eapply Forall_impl; [exact Hgap|]. intros c [_ Hc]. unfold notNewline.
  by apply negb_true_iff, N.eqb_neq.
Qed.

Lemma restOfLine_keyword : restOfLine (keyword ++ ending) = Some keyword.
Proof.
  unfold restOfLine.
  assert (takeWhile notNewline (keyword ++ ending) = keyword) as ->.
  { destruct Hending as [->| ->].
    - rewrite app_nil_r. apply takeWhile_all, keyword_line.
    - apply takeWhile_app_stop; [apply keyword_line|done]. }
  by destruct Hstart as (c & t & -> & _).
Qed.

Lemma spaces_keyword :
  spaces restOfLine (gap ++ keyword ++ ending) = Some keyword.
Proof.
  pose proof restOfLine_keyword as Hrest. revert Hgap.
  induction gap as [|g gap' IH]; intros Hg.
  - cbn [app]. destruct Hstart as (c & t & Hk & Hc). rewrite Hk in *.
    cbn [app] in *. by rewrite spaces_stop.
  - inversion Hg as [|? ? [Hw _] Hg']; subst. cbn [app spaces].
    by rewrite Hw, IH.
Qed.

Lemma restOfLine_line :
  exists run, restOfLine (gap ++ keyword ++ ending) = Some run.
Proof.
  unfold restOfLine. pose proof gap_line as Hg. pose proof keyword_line as Hl.
  destruct Hstart as (c & t & Hk & _). rewrite Hk in Hl |- *.
  revert Hg. generalize gap. intros [|g gap'] Hg.
  - cbn [app takeWhile]. inversion Hl as [|? ? Hc _]; subst. rewrite Hc. eauto.
  - inversion Hg as [|? ? Hc _]; subst. cbn [app takeWhile]. rewrite Hc. eauto.
Qed.

Lemma dropWhile_line :
  dropWhile notNewline (gap ++ keyword ++ ending) = ending.
Proof.
  rewrite app_assoc.
  assert (Forall (fun c => notNewline c = true) (gap ++ keyword)) as Hl.
  { apply Forall_app. split; [apply gap_line|apply keyword_line]. }
  destruct Hending as [->| ->].
  - rewrite app_nil_r. by apply dropWhile_all.
  - by apply dropWhile_stop.
Qed.

Lemma unsplashMatch_line marker :
  map asciiLower marker = UNSPLASH ->
  unsplashMatch (marker ++ gap ++ keyword ++ ending) = Some keyword.
Proof.
  intros Hm. destruct (marker_head _ Hm) as (c & t & Hc & _).
  rewrite Hc at 1. cbn [app unsplashMatch].
  change (c :: t ++ ?r) with ((c :: t) ++ r). rewrite <- Hc.
  rewrite (literal_ci _ _ _ Hm). cbn [mbind option_bind].
  by rewrite spaces_keyword.
Qed.

Lemma removeUnsplash_line marker :
  map asciiLower marker = UNSPLASH ->
  removeUnsplash (marker ++ gap ++ keyword ++ ending) = [].
Proof.
  intros Hm. destruct (marker_head _ Hm) as (c & t & Hc & _).
  rewrite Hc at 1. cbn [app removeUnsplash].
  change (c :: t ++ ?r) with ((c :: t) ++ r). rewrite <- Hc.
  rewrite (literal_ci _ _ _ Hm). cbn [mbind option_bind].
  destruct restOfLine_line as [run ->]. cbn [mbind option_bind].
  rewrite dropWhile_line. by destruct Hending as [->| ->].
Qed.

Lemma keyword_truthy : truthy (trim keyword) = true.
Proof.
  destruct Hstart as (c & t & -> & Hc). unfold trim, trimStart.
  cbn [dropWhile]. rewrite Hc. cbn [trimEnd].
  destruct (trimEnd t); [by rewrite Hc|done].
Qed.

End Line.

Lemma unsplashMatch_none md : mentions md = false -> unsplashMatch md = None.
Proof.
  induction md as [|c t IH]; [done|].
  intros [H1 H2]%mentions_cons. cbn [unsplashMatch]. rewrite H1.
  cbn [mbind option_bind]. by apply IH.
Qed.

Lemma mentions_dropWhile p s : mentions s = false -> mentions (dropWhile p s) = false.
Proof.
  induction s as [|c t IH]; [done|]. intros H. cbn [dropWhile].
  destruct (p c); [|done]. apply IH. by apply mentions_cons in H as [_ ?].
Qed.

Lemma trimEnd_prefix s : exists x, s = trimEnd s ++ x.
Proof.
  induction s as [|c t [x IH]]; [by exists []|]. cbn [trimEnd].
  destruct (trimEnd t) as [|d t'].
  - destruct (isWhiteSpace c); [by exists (c :: t)|].
    exists x. cbn [app] in *. by rewrite <- IH.
  - exists x. cbn [app] in *. by rewrite <- IH.
Qed.

Lemma mentions_prefix s x : mentions (s ++ x) = false -> mentions s = false.
Proof.
  induction s as [|c t IH]; [done|]. cbn [app].
  intros [H1 H2]%mentions_cons. cbn [mentions]. rewrite (IH H2), orb_false_r.
  destruct (literal true UNSPLASH (c :: t)) as [r|] eqn:E; [|done].
  apply (literal_app _ _ _ x) in E. cbn [app] in E. congruence.
Qed.

Lemma mentions_trim s : mentions s = false -> mentions (trim s) = false.
Proof.
  intros H. unfold trim, trimStart.
  apply (mentions_dropWhile isWhiteSpace) in H.
  destruct (trimEnd_prefix (dropWhile isWhiteSpace s)) as [x Hx].
  rewrite Hx in H. by apply mentions_prefix in H.
Qed.

Lemma document_marker item before marker gap keyword ending encoded :
  mentions before = false ->
  map asciiLower marker = UNSPLASH ->
  Forall (fun c => isWhiteSpace c = true /\ c <> NEWLINE) gap ->
  (exists c t, keyword = c :: t /\ isWhiteSpace c = false) ->
  NEWLINE ∉ keyword ->
  ending = [] \/ ending = [NEWLINE] ->
  encodeURIComponent (trim keyword) = Some encoded ->
  document Rich item (before ++ marker ++ gap ++ keyword ++ ending)
  = inr (frontMatter Rich item (Some (imageLine encoded (order item)))
         ++ trim (trim before) ++ nl).
Proof.
  intros Hb Hm Hg Hs Hk He Henc. unfold document, extractImage.
  rewrite unsplashMatch_skip by done.
  rewrite unsplashMatch_line by done.
  unfold imageEntry. rewrite keyword_truthy by done. rewrite Henc.
  rewrite removeUnsplash_skip by done.
  rewrite removeUnsplash_line by done.
  by rewrite app_nil_r.
Qed.

Lemma document_plain item md :
  mentions md = false ->
  document Rich item md = inr (frontMatter Rich item None ++ trim md ++ nl).
Proof.
  intros H. unfold document, extractImage. by rewrite (unsplashMatch_none _ H).
Qed.

End ImageFacts.

Module ImageClaims.
Import JS Gen Script Shape Samples TextFacts ImageFacts.

(** C3, as the code has it (richer variant): when [unsplash:] (in any mix of
    ASCII cases) occurs in the completion only once, followed on its line by
    optional white space and a keyword, and that line ends the text, then
    the body written is the text before the marker, trimmed, which does not
    mention the marker, and the front matter has the line
    [image: QUOTE https://source.unsplash.com/featured/?K&sig=N QUOTE] where
    [K] is the URL-encoded trimmed keyword (which must be well-formed UTF-16
    to have an encoding) and [N] the order of the entry; when the completion
    does not mention [unsplash:] at all, the body is the trimmed completion
    and no line of the front matter is an image field. *)
Theorem image_keyword item :
  (forall before marker gap keyword ending encoded,
     mentions before = false ->
     map asciiLower marker = UNSPLASH ->
     Forall (fun c => isWhiteSpace c = true /\ c <> NEWLINE) gap ->
     (exists c t, keyword = c :: t /\ isWhiteSpace c = false) ->
     NEWLINE ∉ keyword ->
     ending = [] \/ ending = [NEWLINE] ->
     encodeURIComponent (trim keyword) = Some encoded ->
     document Rich item (before ++ marker ++ gap ++ keyword ++ ending)
     = inr (frontMatter Rich item (Some (imageLine encoded (order item)))
            ++ trim (trim before) ++ nl)
     /\ mentions (trim (trim before)) = false
     /\ imageLine encoded (order item)
          ∈ filterBoolean
              (frontMatterArray Rich item (Some (imageLine encoded (order item))))
     /\ imageLine encoded (order item)
        = js "image: " ++ [DQUOTE] ++ js "https://source.unsplash.com/featured/?"
          ++ encoded ++ js "&sig=" ++ digits (order item) ++ [DQUOTE])
  /\ (forall md,
       mentions md = false ->
       document Rich item md = inr (frontMatter Rich item None ++ trim md ++ nl)
       /\ forall line,
            line ∈ filterBoolean (frontMatterArray Rich item None) ->
            fieldName line <> js "image").
Proof.
  split.
  - intros before marker gap keyword ending encoded Hb Hm Hg Hs Hk He Henc.
    split; [by apply document_marker|].
    split; [by do 2 apply mentions_trim|]. split; [|done].
    rewrite frontMatter_lines by eauto.
    rewrite !elem_of_app. do 4 right. left. by apply list_elem_of_singleton.
  - intros md Hmd. split; [by apply document_plain|].
    intros line. rewrite frontMatter_lines by eauto.
    rewrite !elem_of_app, !elem_of_cons.
    destruct (truthy (unitOf item)), (hasKeywords item);
      rewrite ?elem_of_cons, ?elem_of_nil;
      intros H; decompose [or] H; subst; try done;
      rewrite ?titleLine_name, ?unitLine_name, ?orderLine_name,
        ?keywordsLine_name, ?dashes_name; by vm_compute.
Qed.

Lemma image_keyword_witness :
  mentions sampleBody = false
  /\ document Rich lesson1 sampleCompletion
     = inr (frontMatter Rich lesson1
              (Some (imageLine (js "science%20experiment%20kids") 1))
            ++ js "## 预习目标" ++ nl ++ js "..." ++ nl).
Proof.
  assert (mentions sampleBody = false) as Hb by (by vm_compute).
  split; [exact Hb|].
  destruct (image_keyword lesson1) as [Hmarker _].
  destruct (Hmarker sampleBody (js "unsplash:") (js " ")
              (js "science experiment kids") nl
              (js "science%20experiment%20kids")) as (Hdoc & _).
  - exact Hb.
  - by vm_compute.
  - repeat constructor; by vm_compute.
  - do 2 eexists. split; by vm_compute.
  - rewrite list_elem_of_In. vm_compute. intuition discriminate.
  - by right.
  - by vm_compute.
  - unfold sampleCompletion. rewrite Hdoc. by vm_compute.
Defined.

(** With two marker lines the first one is taken: the last line, a marker
    line with the keyword [dog], stays in the body, and the image is that
    of [cat]. *)
Lemma two_marker_lines :
  last (splitLines twoMarkers) = Some (js "unsplash: dog")
  /\ unsplashMatch (js "unsplash: dog") = Some (js "dog")
  /\ document Rich lesson1 twoMarkers
     = inr (frontMatter Rich lesson1 (Some (imageLine (js "cat") 1))
            ++ js "unsplash: dog" ++ nl).
Proof. split; [by vm_compute|]. split; by vm_compute. Qed.

End ImageClaims.

(** * Further properties *)

(** ** Decimal numerals *)

Module DigitFacts.
Import JS Unicode Gen Script Shape Safety.



Lemma uint_bytes d :
  Forall (fun c => isDigit c = true) (bytes (NilEmpty.string_of_uint d)).
Proof. induction d; cbn; constructor; done. Qed.

Lemma uint_bytes_nil d : bytes (NilEmpty.string_of_uint d) = [] -> d = Decimal.Nil.
Proof. by destruct d. Qed.

(** A decimal numeral: digits, not empty, after an optional minus sign. *)
Lemma digits_shape n :
  exists sign ds,
    digits n = sign ++ ds
    /\ (sign = [] \/ sign = [HYPHEN])
    /\ ds <> []
    /\ Forall (fun c => isDigit c = true) ds.
Proof.
  unfold digits. destruct n as [|p|p]; cbn [Z.to_int NilEmpty.string_of_int].
  - exists [], [0x30]. repeat split; try done; [by left|by repeat constructor].
  - exists [], (bytes (NilEmpty.string_of_uint (Pos.to_uint p))).
    split; [done|]. split; [by left|]. split; [|apply uint_bytes].
    intros H%uint_bytes_nil. by apply DecimalPos.Unsigned.to_uint_nonnil in H.
  - exists [HYPHEN], (bytes (NilEmpty.string_of_uint (Pos.to_uint p))).
    split; [done|]. split; [by right|]. split; [|apply uint_bytes].
    intros H%uint_bytes_nil. by apply DecimalPos.Unsigned.to_uint_nonnil in H.
Qed.



End DigitFacts.

(** ** The alphabet and the prefix of file names *)

Module NameFacts.
Import JS Unicode Gen Script Shape Safety UnicodeFacts SlugFacts FallbackFacts
  DigitFacts.

Lemma digit_nameChar c : isDigit c = true -> nameChar c = true.
Proof. unfold isDigit, nameChar. intros H. chars. Qed.

Lemma slugOrHyphen_nameChar c : slugOrHyphen c = true -> nameChar c = true.
Proof. unfold slugOrHyphen, nameChar. by intros ->. Qed.

Lemma nameChar_plain c :
  nameChar c = true -> c <> 0x2F /\ c <> 0x5C /\ c <> 0 /\ isWhiteSpace c = false.
Proof. unfold nameChar. intros H. chars. Qed.

(** [pad2] gives an optional minus sign and then digits, at least one. *)
Lemma pad2_numeral n :
  exists sign ds,
    pad2 n = sign ++ ds
    /\ (sign = [] \/ sign = [HYPHEN])
    /\ ds <> []
    /\ Forall (fun c => isDigit c = true) ds.
Proof.
  destruct (digits_shape n) as (sign & ds & Hd & Hs & Hne & Hds).
  unfold pad2, padStart0. rewrite Hd. destruct Hs as [-> | ->].
  - exists [], (replicate (2 - length ds) 0x30 ++ ds). cbn [app].
    split; [done|]. split; [by left|]. split.
    + destruct ds; [done|]. by destruct (replicate _ _).
    + apply Forall_app. split; [|done]. by apply Forall_replicate.
  - exists [HYPHEN], ds. split; [|split; [by right|done]].
    destruct ds as [|d ds]; [done|]. cbn [app length].
    by replace (2 - S (S (length ds)))%nat with 0%nat by lia.
Qed.




Lemma separated_take prev k s :
  separated prev s = true -> separated prev (take k s) = true.
Proof.
  revert prev k. induction s as [|c t IH]; intros prev [|k]; try done.
  cbn [take separated]. destruct (isHyphen c);
    intros [H1 H2]%andb_true_iff; rewrite H1; cbn [andb]; by apply IH.
Qed.

(** The part of the file name between the numeral and the extension. *)
Lemma stem_shape t :
  let stem := orElse (slice0 48 (safeSlug t)) (js "lesson") in
  (1 <= length stem <= 48)%nat /\ separated true stem = true.
Proof.
  cbn zeta. unfold orElse, slice0.
  pose proof (isSlug_separated _ (safeSlug_isSlug t)) as Hs.
  apply (separated_take _ 48) in Hs.
  assert (length (take 48 (safeSlug t)) <= 48)%nat as Hl
    by (rewrite length_take; lia).
  destruct (take 48 (safeSlug t)) as [|c r] eqn:E; cbn [truthy].
  - split; [vm_compute; lia|by vm_compute].
  - split; [|done]. cbn [length] in *. lia.
Qed.

(** *** Lower case of ASCII and CJK text *)

Lemma lowerLookup_upper c :
  0x41 <= c <= 0x5A -> lowerLookup lowerTable c = Some (c + 0x20).
Proof.
  intros H.
  change lowerTable with ((0x41, 0x5A, 1, 0x61) :: tl lowerTable).
  cbn [lowerLookup]. replace (between 0x41 0x5A c) with true by (symmetry; chars).
  rewrite N.mod_1_r. cbn [andb N.eqb]. f_equal. lia.
Qed.

Lemma lowerCodePoint_plain before after c :
  asciiOrCJK c = true -> lowerCodePoint before after c = [asciiLower c].
Proof.
  unfold asciiOrCJK, isCJK, asciiLower. intros H. unfold lowerCodePoint.
  replace (c =? 0x130) with false by (symmetry; chars).
  replace (c =? 0x3A3) with false by (symmetry; chars).
  destruct (between 0x41 0x5A c) eqn:Hu.
  - rewrite lowerLookup_upper; [done|chars].
  - assert (0 <= c <= 0x40 \/ 0x5B <= c <= 0x7F \/ 0x4E00 <= c <= 0x9FA5)
      as [?|[?|?]] by chars;
      (erewrite lowerLookup_outside; [done| |eassumption]; by vm_compute).
Qed.

Lemma lowerCodePoints_plain before s :
  Forall (fun c => asciiOrCJK c = true) s ->
  lowerCodePoints before s = map asciiLower s.
Proof.
  intros H. revert before. induction H as [|c t Hc Ht IH]; intros before; [done|].
  cbn [lowerCodePoints map]. by rewrite lowerCodePoint_plain, IH.
Qed.

(** On text in ASCII and CJK, [toLowerCase] changes [A-Z] and nothing
    else. *)
Lemma toLowerCase_plain s :
  Forall (fun c => asciiOrCJK c = true) s -> toLowerCase s = map asciiLower s.
Proof.
  intros H. unfold toLowerCase.
  rewrite codePoints_no_surrogate, lowerCodePoints_plain, flat_map_utf16_bmp;
    try done.
  - apply Forall_map. eapply Forall_impl; [exact H|]. intros c Hc. cbn.
    unfold asciiOrCJK, isCJK, asciiLower in *.
    destruct (between 0x41 0x5A c) eqn:Hu; chars.
  - eapply Forall_impl; [exact H|]. intros c Hc.
    unfold asciiOrCJK, isCJK in *. chars.
Qed.

(** *** What the stages of [safeSlug] keep *)

Lemma kept_lower c : isSlugChar (asciiLower c) = kept c.
Proof.
  unfold kept, isAsciiAlnum, isCJK, asciiLower.
  destruct (between 0x41 0x5A c) eqn:Hu.
  - replace (isSlugChar (c + 0x20)) with true by (symmetry; chars).
    by rewrite orb_true_r.
  - unfold isSlugChar. rewrite orb_false_r.
    by rewrite (orb_comm (between 0x30 0x39 c)).
Qed.

Lemma filter_lower s :
  List.filter isSlugChar (map asciiLower s) = map asciiLower (List.filter kept s).
Proof.
  induction s as [|c t IH]; [done|]. cbn [map List.filter].
  rewrite kept_lower. destruct (kept c); cbn [map]; by rewrite IH.
Qed.

Lemma filter_dropWhile (p q : N -> bool) s :
  (forall c, p c = true -> q c = false) ->
  List.filter q (dropWhile p s) = List.filter q s.
Proof.
  intros Hpq. induction s as [|c t IH]; [done|]. cbn [dropWhile List.filter].
  destruct (p c) eqn:Hp; [|done]. by rewrite (Hpq _ Hp).
Qed.

Lemma filter_trimEnd (q : N -> bool) s :
  (forall c, isWhiteSpace c = true -> q c = false) ->
  List.filter q (trimEnd s) = List.filter q s.
Proof.
  intros Hq. induction s as [|c t IH]; [done|]. cbn [trimEnd List.filter].
  rewrite <- IH. destruct (trimEnd t) as [|d t'].
  - destruct (isWhiteSpace c) eqn:Hw; [by rewrite (Hq _ Hw)|done].
  - done.
Qed.

Lemma kept_not_space c : isWhiteSpace c = true -> kept c = false.
Proof. unfold kept, isAsciiAlnum, isCJK. intros H. chars. Qed.

Lemma filter_trim s : List.filter kept (trim s) = List.filter kept s.
Proof.
  unfold trim, trimStart.
  rewrite filter_trimEnd, filter_dropWhile; auto using kept_not_space.
Qed.

Lemma filter_replace_nonslug b s :
  List.filter notHyphen (replaceRuns (fun c => negb (isSlugChar c)) [HYPHEN] b s)
  = List.filter isSlugChar s.
Proof.
  revert b. induction s as [|c t IH]; intros b; [done|].
  cbn [replaceRuns List.filter]. destruct (isSlugChar c) eqn:Hc; cbn [negb].
  - cbn [List.filter]. replace (notHyphen c) with true; [by rewrite IH|].
    symmetry. unfold notHyphen. chars.
  - rewrite List.filter_app, IH. by destruct b.
Qed.

Lemma filter_replace_hyphen b s :
  List.filter notHyphen (replaceRuns isHyphen [HYPHEN] b s)
  = List.filter notHyphen s.
Proof.
  revert b. induction s as [|c t IH]; intros b; [done|].
  cbn [replaceRuns List.filter]. unfold notHyphen at 2.
  destruct (isHyphen c) eqn:Hc; cbn [negb].
  - rewrite List.filter_app, IH. by destruct b.
  - cbn [List.filter]. unfold notHyphen at 1. by rewrite Hc, IH.
Qed.

Lemma filter_dropLastHyphen s :
  List.filter notHyphen (dropLastHyphen s) = List.filter notHyphen s.
Proof.
  induction s as [|c t IH]; [done|]. destruct t as [|d t'].
  - cbn [dropLastHyphen List.filter]. unfold notHyphen, isHyphen.
    by destruct (c =? HYPHEN) eqn:Hc; cbn; rewrite ?Hc.
  - change (dropLastHyphen (c :: d :: t'))
      with (c :: dropLastHyphen (d :: t')).
    cbn [List.filter] in *. by rewrite IH.
Qed.

Lemma filter_stripHyphens s :
  List.filter notHyphen (stripHyphens s) = List.filter notHyphen s.
Proof.
  unfold stripHyphens. rewrite filter_dropLastHyphen.
  destruct s as [|c t]; [done|]. cbn [dropFirstHyphen List.filter].
  unfold notHyphen at 2. unfold isHyphen.
  destruct (c =? HYPHEN) eqn:Hc; [done|]. cbn [List.filter].
  unfold notHyphen at 1. unfold isHyphen. by rewrite Hc.
Qed.

(** Without its hyphens, the slug is the lower-cased text without what is
    not in the slug class. *)
Lemma safeSlug_filter s :
  List.filter notHyphen (safeSlug s)
  = List.filter isSlugChar (toLowerCase (trim s)).
Proof.
  unfold safeSlug.
  by rewrite filter_stripHyphens, filter_replace_hyphen, filter_replace_nonslug.
Qed.

(** A slug without a slug character is empty. *)
Lemma isSlug_hyphens s :
  isSlug s = true -> List.filter notHyphen s = [] -> s = [].
Proof.
  destruct s as [|c t]; [done|]. cbn [isSlug closed List.filter].
  unfold notHyphen. destruct (isHyphen c); [done|done].
Qed.

Lemma filter_nil_Forall (q : N -> bool) s :
  List.filter q s = [] <-> Forall (fun c => q c = false) s.
Proof.
  induction s as [|c t IH]; [by split; [constructor|]|]. cbn [List.filter].
  destruct (q c) eqn:Hq; split.
  - done.
  - intros [H _]%Forall_cons. congruence.
  - intros H. constructor; [done|by apply IH].
  - intros [_ H]%Forall_cons. by apply IH.
Qed.

End NameFacts.

(** ** File names: further properties *)

Module NameProps.
Import JS Unicode Gen Script Shape Safety UnicodeFacts SlugFacts FallbackFacts
  DigitFacts NameFacts.

(** X1: for every integer order (below 10^21 in magnitude) and every
    title, the file name is the padded order, a hyphen, a stem of 1 to 48
    code units and [.md]; the stem is slug characters and single hyphens and
    does not start with a hyphen; and the whole name is written in
    [[a-z0-9一-龥]], hyphen and full stop, so it holds no slash, backslash,
    NUL or white space and names a file of the output directory itself. *)
Theorem filename_safe o t :
  plainInteger o ->
  exists stem,
    filename o t = pad2 o ++ [HYPHEN] ++ stem ++ js ".md"
    /\ (1 <= length stem <= 48)%nat
    /\ separated true stem = true
    /\ Forall (fun c => nameChar c = true) (filename o t)
    /\ (forall c, c ∈ filename o t ->
          c <> 0x2F /\ c <> 0x5C /\ c <> 0 /\ isWhiteSpace c = false).
Proof.
  intros _. exists (orElse (slice0 48 (safeSlug t)) (js "lesson")).
  destruct (stem_shape t) as [Hl Hs]. cbn zeta in Hl, Hs.
  assert (Forall (fun c => nameChar c = true) (filename o t)) as Hall.
  { unfold filename.
    apply Forall_app_2; [|apply Forall_app_2; [|apply Forall_app_2]].
    - destruct (pad2_numeral o) as (sign & ds & -> & Hsg & _ & Hds).
      apply Forall_app_2.
      + destruct Hsg as [-> | ->]; by repeat constructor.
      + eapply Forall_impl; [exact Hds|]. apply digit_nameChar.
    - by repeat constructor.
    - eapply Forall_impl; [exact (separated_alphabet _ _ Hs)|].
      apply slugOrHyphen_nameChar.
    - by repeat constructor. }
  split; [done|]. split; [done|]. split; [done|]. split; [done|].
  intros c Hc. apply nameChar_plain. rewrite Forall_forall in Hall. by apply Hall.
Qed.

Lemma filename_safe_witness :
  plainInteger 12
  /\ filename 12 (js "Hello, 世界!") = js "12-hello-世界.md"
  /\ exists stem,
       filename 12 (js "Hello, 世界!") = pad2 12 ++ [HYPHEN] ++ stem ++ js ".md"
       /\ (1 <= length stem <= 48)%nat
       /\ separated true stem = true
       /\ Forall (fun c => nameChar c = true) (filename 12 (js "Hello, 世界!"))
       /\ (forall c, c ∈ filename 12 (js "Hello, 世界!") ->
             c <> 0x2F /\ c <> 0x5C /\ c <> 0 /\ isWhiteSpace c = false).
Proof.
  assert (plainInteger 12) as H by (by vm_compute).
  split; [exact H|]. split; [by vm_compute|].
  exact (filename_safe 12 (js "Hello, 世界!") H).
Defined.



(** X3: for a title written in ASCII and CJK (U+4E00 to U+9FA5) only, the
    slug without its hyphens is exactly the title's ASCII letters, digits and
    CJK characters, in order, with [A-Z] in lower case: nothing else is kept
    and nothing of these is lost; and the slug is empty (so the name falls
    back to [lesson]) exactly when the title has none of them. *)
Theorem slug_letters t :
  Forall (fun c => asciiOrCJK c = true) t ->
  List.filter notHyphen (safeSlug t) = map asciiLower (List.filter kept t)
  /\ (safeSlug t = [] <-> Forall (fun c => kept c = false) t).
Proof.
  intros Ht.
  assert (List.filter notHyphen (safeSlug t)
          = map asciiLower (List.filter kept t)) as Hf.
  { rewrite safeSlug_filter, toLowerCase_plain by by apply trim_Forall.
    by rewrite filter_lower, filter_trim. }
  split; [done|]. rewrite <- filter_nil_Forall. split.
  - intros Hs. rewrite Hs in Hf. cbn in Hf. by destruct (List.filter kept t).
  - intros Hk. rewrite Hk in Hf. apply isSlug_hyphens; [apply safeSlug_isSlug|done].
Qed.

Lemma slug_letters_witness :
  Forall (fun c => asciiOrCJK c = true) (js " Light & 光 (Part 2)! ")
  /\ List.filter notHyphen (safeSlug (js " Light & 光 (Part 2)! "))
     = js "light光part2".
Proof.
  assert (Forall (fun c => asciiOrCJK c = true) (js " Light & 光 (Part 2)! ")) as H.
  { apply Forall_forall. intros c Hc. apply list_elem_of_In in Hc.
    vm_compute in Hc. intuition (subst; reflexivity). }
  split; [exact H|].
  destruct (slug_letters _ H) as [-> _]. by vm_compute.
Defined.

End NameProps.

(** ** Lines, trimming and the encoded image keyword *)

Module LineFacts.
Import JS Unicode Gen Script Shape Safety TextFacts ImageFacts DigitFacts.

Lemma join_cons sep x y r : join sep (x :: y :: r) = x ++ sep ++ join sep (y :: r).
Proof. done. Qed.

Lemma join_snoc sep l x :
  l <> [] -> join sep (l ++ [x]) = join sep l ++ sep ++ x.
Proof.
  induction l as [|a l IH]; [done|]. intros _. destruct l as [|b l].
  - done.
  - change ((a :: b :: l) ++ [x]) with (a :: b :: (l ++ [x])).
    rewrite !join_cons. change (b :: l ++ [x]) with ((b :: l) ++ [x]).
    rewrite IH by done. by rewrite <- !app_assoc.
Qed.

(** *** Trimming twice *)

Lemma trimEnd_trimEnd s : trimEnd (trimEnd s) = trimEnd s.
Proof.
  induction s as [|c t IH]; [done|]. cbn [trimEnd].
  destruct (trimEnd t) as [|d t'] eqn:E.
  - destruct (isWhiteSpace c) eqn:Hc; [done|]. cbn [trimEnd]. by rewrite Hc.
  - cbn [trimEnd] in *. by rewrite IH.
Qed.

Lemma trimEnd_head c t :
  isWhiteSpace c = false -> exists r, trimEnd (c :: t) = c :: r.
Proof.
  intros Hc. cbn [trimEnd]. destruct (trimEnd t); [rewrite Hc|]; eauto.
Qed.

Lemma trim_head s c r : trim s = c :: r -> isWhiteSpace c = false.
Proof.
  unfold trim, trimStart. induction s as [|x t IH]; [done|].
  cbn [dropWhile]. destruct (isWhiteSpace x) eqn:Hx; [exact IH|].
  destruct (trimEnd_head x t Hx) as [r' ->]. by intros [= <- _].
Qed.

Lemma trim_trim s : trim (trim s) = trim s.
Proof.
  destruct (trim s) as [|c r] eqn:E; [done|].
  pose proof (trim_head _ _ _ E) as Hc. rewrite <- E.
  unfold trim at 1. unfold trimStart. rewrite E. cbn [dropWhile]. rewrite Hc.
  rewrite <- E. unfold trim. apply trimEnd_trimEnd.
Qed.

(** *** [split(/\r?\n/)] *)

Lemma splitLines_nonempty s : splitLines s <> [].
Proof.
  remember (length s) as n eqn:Hn. revert s Hn.
  induction n as [n IH] using lt_wf_ind. intros s Hn.
  destruct s as [|c [|d t']]; [done| |].
  - cbn. by destruct (c =? NEWLINE).
  - change (splitLines (c :: d :: t')) with
      (if c =? NEWLINE then [] :: splitLines (d :: t')
       else if (c =? 0x0D) && (d =? NEWLINE) then [] :: splitLines t'
            else consFirst c (splitLines (d :: t'))).
    destruct (c =? NEWLINE); [done|]. destruct (_ && _); [done|].
    by destruct (splitLines (d :: t')).
Qed.

Lemma splitLines_newline t : splitLines (NEWLINE :: t) = [] :: splitLines t.
Proof. done. Qed.

Lemma splitLines_cons c t :
  lineChar c = true -> splitLines (c :: t) = consFirst c (splitLines t).
Proof.
  unfold lineChar. intros [H1 H2]%andb_true_iff.
  apply negb_true_iff in H1, H2. cbn [splitLines]. rewrite H1, H2.
  by destruct t.
Qed.

Lemma splitLines_line l s :
  Forall (fun c => lineChar c = true) l ->
  splitLines (l ++ s)
  = match splitLines s with
    | h :: r => (l ++ h) :: r
    | [] => []
    end.
Proof.
  induction 1 as [|c t Hc Ht IH]; cbn [app].
  - by destruct (splitLines s).
  - rewrite splitLines_cons, IH by done.
    pose proof (splitLines_nonempty s). by destruct (splitLines s).
Qed.

Lemma join_consFirst c ls :
  ls <> [] -> join nl (consFirst c ls) = c :: join nl ls.
Proof. destruct ls as [|l [|l' r]]; done. Qed.

Lemma consFirst_no_feed c ls :
  c <> NEWLINE ->
  Forall (fun l => NEWLINE ∉ l) ls -> Forall (fun l => NEWLINE ∉ l) (consFirst c ls).
Proof.
  intros Hc [|l r Hl Hr]; cbn [consFirst].
  - constructor; [|constructor].
    intros [E|E]%elem_of_cons; [by symmetry in E|by apply elem_of_nil in E].
  - constructor; [|done]. intros [E|E]%elem_of_cons; [by symmetry in E|done].
Qed.

(** *** The alphabet of [encodeURIComponent] *)

Lemma hexDigit_unreserved n : n < 16 -> isUnreserved (hexDigit n) = true.
Proof.
  intros H. unfold hexDigit, isUnreserved. destruct (n <? 10) eqn:E.
  - replace (between 0x30 0x39 (0x30 + n)) with true by (symmetry; chars).
    by rewrite orb_true_r.
  - by replace (between 0x41 0x5A (0x41 + (n - 10))) with true
      by (symmetry; chars).
Qed.

Lemma unreserved_urlChar c : isUnreserved c = true -> urlChar c = true.
Proof. unfold urlChar. by intros ->. Qed.

Lemma percent_urlChar octet :
  octet < 256 -> Forall (fun c => urlChar c = true) (percent octet).
Proof.
  intros H. unfold percent. constructor; [done|].
  constructor; [|constructor; [|constructor]];
    apply unreserved_urlChar, hexDigit_unreserved.
  - apply N.Div0.div_lt_upper_bound. lia.
  - by apply N.mod_lt.
Qed.

Lemma utf8Octets_bytes cp :
  cp < 0x110000 -> Forall (fun o => o < 256) (utf8Octets cp).
Proof.
  intros H. unfold utf8Octets.
  assert (forall x, x mod 0x40 < 0x40) as Hm by (intros x; by apply N.mod_lt).
  destruct (cp <? 0x80) eqn:H1; [repeat constructor; chars|].
  destruct (cp <? 0x800) eqn:H2.
  { assert (cp / 0x40 < 0x20) by (apply N.Div0.div_lt_upper_bound; chars).
    pose proof (Hm cp). repeat constructor; lia. }
  destruct (cp <? 0x10000) eqn:H3.
  { assert (cp / 0x1000 < 0x10) by (apply N.Div0.div_lt_upper_bound; chars).
    pose proof (Hm cp). pose proof (Hm (cp / 0x40)). repeat constructor; lia. }
  assert (cp / 0x40000 < 0x5) by (apply N.Div0.div_lt_upper_bound; lia).
  pose proof (Hm cp). pose proof (Hm (cp / 0x40)). pose proof (Hm (cp / 0x1000)).
  repeat constructor; lia.
Qed.

Lemma escape_urlChar cp :
  cp < 0x110000 ->
  Forall (fun c => urlChar c = true) (flat_map percent (utf8Octets cp)).
Proof.
  intros H. pose proof (utf8Octets_bytes cp H) as Ho.
  induction Ho as [|o r Ho Hr IH]; [constructor|].
  cbn [flat_map]. apply Forall_app_2; [by apply percent_urlChar|done].
Qed.

Lemma encodeURIComponent_urlChar s encoded :
  Forall (fun c => codeUnit c = true) s ->
  encodeURIComponent s = Some encoded ->
  Forall (fun c => urlChar c = true) encoded.
Proof.
  remember (length s) as n eqn:Hn. revert s encoded Hn.
  induction n as [n IH] using lt_wf_ind. intros s encoded Hn Hs.
  destruct s as [|c t]; [by intros [= <-]|].
  inversion Hs as [|? ? Hc Ht]; subst. cbn [encodeURIComponent].
  unfold codeUnit in Hc. apply N.ltb_lt in Hc.
  destruct (isUnreserved c) eqn:Hu.
  { destruct (encodeURIComponent t) as [e|] eqn:He; [|done].
    intros [= <-]. constructor; [by apply unreserved_urlChar|].
    eapply (IH (length t)); [simpl; lia|done|done|done]. }
  destruct (isLowSurrogate c); [done|].
  destruct (isHighSurrogate c) eqn:Hh.
  - destruct t as [|d t']; [done|].
    destruct (isLowSurrogate d) eqn:Hl; [|done].
    destruct (encodeURIComponent t') as [e|] eqn:He; [|done].
    intros [= <-]. apply Forall_app_2.
    + apply escape_urlChar. chars.
    + inversion Ht; subst.
      eapply (IH (length t')); [simpl; lia|done|done|done].
  - destruct (encodeURIComponent t) as [e|] eqn:He; [|done].
    intros [= <-]. apply Forall_app_2.
    + apply escape_urlChar. lia.
    + eapply (IH (length t)); [simpl; lia|done|done|done].
Qed.

(** Without surrogates there is nothing [encodeURIComponent] refuses. *)
Lemma encodeURIComponent_total s :
  Forall (fun c => noSurrogate c = true) s -> is_Some (encodeURIComponent s).
Proof.
  induction 1 as [|c t Hc Ht [e He]]; [by eexists|].
  cbn [encodeURIComponent]. rewrite He. cbn.
  unfold noSurrogate in Hc. apply andb_true_iff in Hc as [H1 H2].
  apply negb_true_iff in H1, H2. rewrite H1, H2.
  destruct (isUnreserved c); by eexists.
Qed.

(** The output of [encodeURIComponent] never holds a line break, whatever
    the input. *)
Lemma hexDigit_lineChar n : lineChar (hexDigit n) = true.
Proof.
  unfold hexDigit, lineChar. destruct (n <? 10); chars.
Qed.

Lemma escape_lineChar l :
  Forall (fun c => lineChar c = true) (flat_map percent l).
Proof.
  induction l as [|o r IH]; [constructor|]. cbn [flat_map percent app].
  repeat (constructor; [first [apply hexDigit_lineChar|done]|]). done.
Qed.

Lemma unreserved_lineChar c : isUnreserved c = true -> lineChar c = true.
Proof.
  intros H. unfold lineChar. destruct (c =? NEWLINE) eqn:E1.
  { apply N.eqb_eq in E1. by subst. }
  destruct (c =? 0x0D) eqn:E2; [|done].
  apply N.eqb_eq in E2. by subst.
Qed.

Lemma encodeURIComponent_lineChar s encoded :
  encodeURIComponent s = Some encoded ->
  Forall (fun c => lineChar c = true) encoded.
Proof.
  remember (length s) as n eqn:Hn. revert s encoded Hn.
  induction n as [n IH] using lt_wf_ind. intros s encoded Hn.
  destruct s as [|c t]; [by intros [= <-]|]. subst n.
  cbn [encodeURIComponent].
  destruct (isUnreserved c) eqn:Hu.
  { destruct (encodeURIComponent t) as [e|] eqn:He; [|done].
    intros [= <-]. constructor; [by apply unreserved_lineChar|].
    eapply (IH (length t)); [simpl; lia|done|done]. }
  destruct (isLowSurrogate c); [done|].
  destruct (isHighSurrogate c) eqn:Hh.
  - destruct t as [|d t']; [done|].
    destruct (isLowSurrogate d) eqn:Hl; [|done].
    destruct (encodeURIComponent t') as [e|] eqn:He; [|done].
    intros [= <-]. apply Forall_app_2; [apply escape_lineChar|].
    eapply (IH (length t')); [simpl; lia|done|done].
  - destruct (encodeURIComponent t) as [e|] eqn:He; [|done].
    intros [= <-]. apply Forall_app_2; [apply escape_lineChar|].
    eapply (IH (length t)); [simpl; lia|done|done].
Qed.

(** *** What the two regular expressions of the image keyword return *)

Lemma takeWhile_Forall (P : N -> Prop) p s : Forall P s -> Forall P (takeWhile p s).
Proof.
  induction 1 as [|c t Hc Ht IH]; [constructor|]. cbn [takeWhile].
  destruct (p c); by constructor.
Qed.

Lemma literal_Forall (P : N -> Prop) ci pat s r :
  Forall P s -> literal ci pat s = Some r -> Forall P r.
Proof.
  revert s. induction pat as [|p pat IH]; intros s Hs; cbn [literal].
  - by intros [= <-].
  - destruct Hs as [|c t Hc Ht]; [done|].
    destruct (_ =? p); [by apply IH|done].
Qed.

Lemma spaces_restOfLine_Forall (P : N -> Prop) s g :
  Forall P s -> spaces restOfLine s = Some g -> Forall P g.
Proof.
  assert (forall s, Forall P s -> restOfLine s = Some g -> Forall P g) as Hr.
  { intros x Hx. unfold restOfLine.
    pose proof (takeWhile_Forall P notNewline x Hx) as Ht.
    destruct (takeWhile notNewline x); [done|]. by intros [= <-]. }
  induction 1 as [|c t Hc Ht IH]; cbn [spaces]; [by apply Hr|].
  destruct (isWhiteSpace c).
  - destruct (spaces restOfLine t) as [g'|] eqn:E.
    + intros [= ->]. by apply IH.
    + apply Hr. by constructor.
  - apply Hr. by constructor.
Qed.

Lemma unsplashMatch_Forall (P : N -> Prop) md g :
  Forall P md -> unsplashMatch md = Some g -> Forall P g.
Proof.
  induction 1 as [|c t Hc Ht IH]; [done|]. cbn [unsplashMatch].
  destruct (literal true UNSPLASH (c :: t)) as [r|] eqn:El; cbn [mbind option_bind].
  - destruct (spaces restOfLine r) as [g'|] eqn:Es.
    + intros [= ->]. eapply spaces_restOfLine_Forall; [|exact Es].
      eapply literal_Forall; [|exact El]. by constructor.
    + exact IH.
  - exact IH.
Qed.

(** *** Lines of the front matter *)

Lemma replaceQuotes_lineChar s :
  Forall (fun c => lineChar c = true) s ->
  Forall (fun c => lineChar c = true) (replaceQuotes s).
Proof.
  intros H. unfold replaceQuotes. apply Forall_map.
  eapply Forall_impl; [exact H|]. intros c Hc. cbn.
  by destruct (c =? DQUOTE).
Qed.

Lemma quoted_lineChar s :
  Forall (fun c => lineChar c = true) s ->
  Forall (fun c => lineChar c = true) (quoted s).
Proof.
  intros H. unfold quoted. apply Forall_app_2; [by repeat constructor|].
  apply Forall_app_2; [by apply replaceQuotes_lineChar|by repeat constructor].
Qed.

Lemma digits_lineChar n : Forall (fun c => lineChar c = true) (digits n).
Proof.
  destruct (digits_shape n) as (sign & ds & -> & Hs & _ & Hd).
  apply Forall_app_2.
  - destruct Hs as [-> | ->]; by repeat constructor.
  - eapply Forall_impl; [exact Hd|]. intros c Hc.
    unfold isDigit, lineChar in *. chars.
Qed.

Lemma join_lineChar sep ls :
  Forall (fun c => lineChar c = true) sep ->
  Forall (fun l => Forall (fun c => lineChar c = true) l) ls ->
  Forall (fun c => lineChar c = true) (join sep ls).
Proof.
  intros Hsep. induction 1 as [|l r Hl Hr IH]; [constructor|].
  destruct r as [|l' r']; [done|]. rewrite join_cons.
  apply Forall_app_2; [done|]. by apply Forall_app_2.
Qed.

Lemma forallb_lineChar l :
  forallb lineChar l = true -> Forall (fun c => lineChar c = true) l.
Proof. by apply FallbackFacts.forallb_Forall. Qed.

End LineFacts.

Module DocumentFacts.
Import JS Unicode Gen Script Shape Safety TextFacts ImageFacts DigitFacts
  LineFacts.

Lemma splitLines_no_feed s : Forall (fun l => NEWLINE ∉ l) (splitLines s).
Proof.
  remember (length s) as n eqn:Hn. revert s Hn.
  induction n as [n IH] using lt_wf_ind. intros s ->.
  assert (Forall (fun l : list N => NEWLINE ∉ l) [[]]) as Hnil.
  { constructor; [|constructor]. apply not_elem_of_nil. }
  destruct s as [|c [|d t']]; [done| |].
  - cbn. destruct (c =? NEWLINE) eqn:Hc.
    + constructor; [apply not_elem_of_nil|done].
    + apply (consFirst_no_feed c []); [|constructor]. chars.
  - change (splitLines (c :: d :: t')) with
      (if c =? NEWLINE then [] :: splitLines (d :: t')
       else if (c =? 0x0D) && (d =? NEWLINE) then [] :: splitLines t'
            else consFirst c (splitLines (d :: t'))).
    destruct (c =? NEWLINE) eqn:Hc.
    { constructor; [apply not_elem_of_nil|].
      eapply (IH (length (d :: t'))); [simpl; lia|done]. }
    destruct (_ && _).
    { constructor; [apply not_elem_of_nil|].
      eapply (IH (length t')); [simpl; lia|done]. }
    apply consFirst_no_feed; [chars|].
    eapply (IH (length (d :: t'))); [simpl; lia|done].
Qed.

Lemma join_splitLines s : 0x0D ∉ s -> join nl (splitLines s) = s.
Proof.
  induction s as [|c t IH]; [done|]. intros Hcr.
  assert (c <> 0x0D /\ 0x0D ∉ t) as [Hc Ht].
  { split; [intros ->; apply Hcr; by left|intros H; apply Hcr; by right]. }
  specialize (IH Ht). pose proof (splitLines_nonempty t) as Hne.
  destruct (c =? NEWLINE) eqn:Hn.
  - apply N.eqb_eq in Hn as ->. rewrite splitLines_newline.
    destruct (splitLines t) as [|l r] eqn:E; [done|].
    rewrite join_cons, IH. done.
  - rewrite splitLines_cons, join_consFirst, IH; try done.
    unfold lineChar. rewrite Hn. cbn [negb andb]. apply negb_true_iff. chars.
Qed.

Lemma splitLines_join ls :
  ls <> [] ->
  Forall (fun l => Forall (fun c => lineChar c = true) l) ls ->
  splitLines (join nl ls) = ls.
Proof.
  intros Hne H. induction H as [|l r Hl Hr IH]; [done|]. clear Hne.
  destruct r as [|l' r'].
  - cbn [join]. rewrite <- (app_nil_r l) at 1.
    rewrite splitLines_line by done. cbn. by rewrite app_nil_r.
  - rewrite join_cons, splitLines_line by done.
    change (nl ++ join nl (l' :: r')) with (NEWLINE :: join nl (l' :: r')).
    rewrite splitLines_newline, IH by done.
    by rewrite app_nil_r.
Qed.

Lemma inr_eq {A B} (a b : B) : @inr A B a = inr b -> a = b.
Proof. by intros [= ->]. Qed.

Lemma forallb_false_Exists {A} (f : A -> bool) l :
  forallb f l = false -> Exists (fun c => f c = false) l.
Proof.
  induction l as [|c t IH]; [done|]. cbn [forallb].
  destruct (f c) eqn:Hc; [|by left]. intros H. right. by apply IH.
Qed.

Lemma unreserved_range c :
  isUnreserved c = true -> 0x21 <= c <= 0x7E /\ c <> DQUOTE /\ c <> 0x5C.
Proof.
  unfold isUnreserved.
  change (js "-_.!~*'()") with [0x2D; 0x5F; 0x2E; 0x21; 0x7E; 0x2A; 0x27; 0x28; 0x29].
  cbn [existsb]. intros H. chars.
Qed.

Lemma urlChar_range c :
  urlChar c = true -> 0x21 <= c <= 0x7E /\ c <> DQUOTE /\ c <> 0x5C.
Proof.
  unfold urlChar. intros [H|H]%orb_true_iff; [by apply unreserved_range|].
  revert H. change (js "%:/?&=") with [0x25; 0x3A; 0x2F; 0x3F; 0x26; 0x3D].
  cbn [existsb]. intros H. chars.
Qed.

Lemma digits_urlChar n : Forall (fun c => urlChar c = true) (digits n).
Proof.
  destruct (digits_shape n) as (sign & ds & -> & Hs & _ & Hd).
  apply Forall_app_2.
  - destruct Hs as [-> | ->]; by repeat constructor.
  - eapply Forall_impl; [exact Hd|]. intros c Hc. apply unreserved_urlChar.
    unfold isDigit, isUnreserved in *. rewrite Hc. by rewrite !orb_true_r.
Qed.

(** The lines of the front matter hold no line break when the fields hold
    none. *)
Lemma lines_lineChar v item image :
  Forall (fun c => lineChar c = true) (title item) ->
  Forall (fun c => lineChar c = true) (unitOf item) ->
  Forall (fun k => Forall (fun c => lineChar c = true) k) (keywordsOf item) ->
  image = None
  \/ (exists keyword encoded, encodeURIComponent keyword = Some encoded
        /\ image = Some (imageLine encoded (order item))) ->
  Forall (fun l => Forall (fun c => lineChar c = true) l)
    (filterBoolean (frontMatterArray v item image)).
Proof.
  intros Ht Hu Hk Hi.
  assert (Forall (fun c => lineChar c = true) (js "---")) as Hd
    by (apply forallb_lineChar; by vm_compute).
  assert (Forall (fun c => lineChar c = true) (titleLine (title item))) as H1.
  { apply Forall_app_2; [apply forallb_lineChar; by vm_compute|].
    by apply quoted_lineChar. }
  assert (Forall (fun c => lineChar c = true) (unitLine (unitOf item))) as H2.
  { apply Forall_app_2; [apply forallb_lineChar; by vm_compute|].
    by apply quoted_lineChar. }
  assert (Forall (fun c => lineChar c = true) (orderLine (order item))) as H3.
  { apply Forall_app_2; [apply forallb_lineChar; by vm_compute|].
    apply digits_lineChar. }
  assert (Forall (fun c => lineChar c = true) (keywordsLine (keywordsOf item)))
    as H4.
  { apply Forall_app_2; [apply forallb_lineChar; by vm_compute|].
    apply Forall_app_2; [|apply forallb_lineChar; by vm_compute].
    apply join_lineChar; [apply forallb_lineChar; by vm_compute|].
    apply Forall_map. eapply Forall_impl; [exact Hk|].
    intros k. apply quoted_lineChar. }
  assert (forall i, image = Some i -> Forall (fun c => lineChar c = true) i) as H5.
  { intros i Hi'. destruct Hi as [->|(keyword & encoded & He & ->)]; [done|].
    injection Hi' as <-. unfold imageLine.
    apply Forall_app_2; [apply forallb_lineChar; by vm_compute|].
    apply Forall_app_2; [by repeat constructor|].
    apply Forall_app_2; [apply forallb_lineChar; by vm_compute|].
    apply Forall_app_2; [by eapply encodeURIComponent_lineChar|].
    apply Forall_app_2; [apply forallb_lineChar; by vm_compute|].
    apply Forall_app_2; [apply digits_lineChar|by repeat constructor]. }
  rewrite frontMatter_lines.
  2: { destruct Hi as [->|(keyword & encoded & He & ->)]; [by left|right; eauto]. }
  apply Forall_app_2.
  { apply Forall_cons_2; [exact Hd|]. apply Forall_cons_2; [exact H1|constructor]. }
  apply Forall_app_2.
  { destruct (truthy (unitOf item)); [|constructor].
    apply Forall_cons_2; [exact H2|constructor]. }
  apply Forall_app_2.
  { apply Forall_cons_2; [exact H3|constructor]. }
  apply Forall_app_2.
  { destruct (hasKeywords item); [|constructor].
    apply Forall_cons_2; [exact H4|constructor]. }
  apply Forall_app_2.
  { destruct v; [constructor|]. destruct image as [i|]; [|constructor].
    apply Forall_cons_2; [by apply H5|constructor]. }
  apply Forall_cons_2; [exact Hd|constructor].
Qed.

Lemma lines_nonempty v item image :
  filterBoolean (frontMatterArray v item image) <> [].
Proof. unfold frontMatterArray. cbn [app]. by rewrite filterBoolean_some. Qed.

(** The front matter is its first line, the fields, and the closing line,
    with line feeds between them and none at the end. *)
Lemma frontMatter_shape v item image :
  image = None \/ (exists encoded o, image = Some (imageLine encoded o)) ->
  exists fields,
    frontMatter v item image = js "---" ++ nl ++ fields ++ nl ++ js "---"
    /\ titleLine (title item) `prefix_of` fields.
Proof.
  intros Hi. unfold frontMatter. rewrite (frontMatter_lines _ _ _ Hi).
  generalize (titleLine (title item)) (orderLine (order item))
    (if truthy (unitOf item) then [unitLine (unitOf item)] else [])
    (if hasKeywords item then [keywordsLine (keywordsOf item)] else [])
    (match v with
     | Rich => match image with Some i => [i] | None => [] end
     | Simple => []
     end).
  generalize (js "---"). intros d t o A B C.
  exists (join nl (t :: A ++ [o] ++ B ++ C)). split.
  - replace ([d; t] ++ A ++ [o] ++ B ++ C ++ [d])
      with (d :: (t :: (A ++ [o] ++ B ++ C) ++ [d]))
      by (cbn [app]; rewrite <- ?app_assoc; cbn [app]; rewrite <- ?app_assoc;
          reflexivity).
    rewrite join_cons.
    change (t :: (A ++ [o] ++ B ++ C) ++ [d])
      with ((t :: A ++ [o] ++ B ++ C) ++ [d]).
    rewrite join_snoc by done. reflexivity.
  - destruct (A ++ [o] ++ B ++ C) as [|x r]; [done|].
    rewrite join_cons. by eexists.
Qed.

End DocumentFacts.

(** ** The written document: further properties *)

Module DocumentProps.
Import JS Unicode Gen Script Shape Safety Samples TextFacts ImageFacts
  DigitFacts LineFacts DocumentFacts.

(** X4: every document that is written is the line [---], the field lines
    (the title first), the line that starts with the closing [---], and a
    final line feed; the body is the trimmed text and follows the closing
    [---] at once: [filter(Boolean)] has dropped the empty string that should
    have ended the front matter with a line feed, so no line break stands
    between the closing delimiter and the first character of the body. *)
Theorem closing_delimiter v item md content :
  document v item md = inr content ->
  exists fields body,
    content = js "---" ++ nl ++ fields ++ nl ++ js "---" ++ body ++ nl
    /\ titleLine (title item) `prefix_of` fields
    /\ body = trim (snd (extractImage v md))
    /\ trim body = body
    /\ (forall c r, body = c :: r -> isWhiteSpace c = false).
Proof.
  unfold document. destruct (extractImage v md) as [keyword body] eqn:E.
  destruct (imageEntry keyword (order item)) as [e|image] eqn:Hi; [done|].
  intros H%inr_eq. subst content.
  destruct (frontMatter_shape v item image) as (fields & Hf & Hp).
  { apply imageEntry_inv in Hi as [[_ ->]|(_ & enc & _ & ->)]; [by left|].
    right. eauto. }
  exists fields, (trim body). rewrite Hf. cbn [snd].
  split; [by rewrite <- !app_assoc|]. split; [done|]. split; [done|].
  split; [apply trim_trim|]. intros c r Hb. by eapply trim_head.
Qed.

Lemma closing_delimiter_witness :
  document Simple lesson2 (js " text ")
  = inr (js "---" ++ nl ++ js "title: " ++ [DQUOTE] ++ js "T" ++ [DQUOTE]
         ++ nl ++ js "order: 2" ++ nl ++ js "---text" ++ nl)
  /\ exists fields body,
       js "---" ++ nl ++ js "title: " ++ [DQUOTE] ++ js "T" ++ [DQUOTE]
         ++ nl ++ js "order: 2" ++ nl ++ js "---text" ++ nl
       = js "---" ++ nl ++ fields ++ nl ++ js "---" ++ body ++ nl
       /\ titleLine (title lesson2) `prefix_of` fields
       /\ body = trim (snd (extractImage Simple (js " text ")))
       /\ trim body = body
       /\ (forall c r, body = c :: r -> isWhiteSpace c = false).
Proof.
  assert (document Simple lesson2 (js " text ")
          = inr (js "---" ++ nl ++ js "title: " ++ [DQUOTE] ++ js "T" ++ [DQUOTE]
                 ++ nl ++ js "order: 2" ++ nl ++ js "---text" ++ nl)) as H
    by (by vm_compute).
  split; [exact H|]. exact (closing_delimiter _ _ _ _ H).
Defined.

(** X5: building the document fails in one way only: in the richer variant,
    with a URIError, for a completion that mentions the image marker and
    holds a surrogate code unit.  The simpler variant always yields a
    document, and so does the richer one on text without surrogates. *)
Theorem document_failure v item md e :
  document v item md = inl e ->
  v = Rich /\ e = URIError /\ mentions md = true
  /\ Exists (fun c => noSurrogate c = false) md.
Proof.
  unfold document, extractImage. destruct v; [done|].
  destruct (mentions md) eqn:Hm.
  2: { by rewrite (unsplashMatch_none _ Hm). }
  destruct (unsplashMatch md) as [g|] eqn:Hg; [|done].
  unfold imageEntry. destruct (truthy (trim g)); [|done].
  destruct (encodeURIComponent (trim g)) eqn:He; [done|].
  intros [= <-]. split; [done|]. split; [done|]. split; [done|].
  destruct (forallb noSurrogate md) eqn:Hall; [|by apply forallb_false_Exists].
  exfalso. apply (FallbackFacts.forallb_Forall noSurrogate
                    (fun c => noSurrogate c = true)) in Hall; [|done].
  eapply unsplashMatch_Forall in Hall; [|exact Hg].
  apply FallbackFacts.trim_Forall, encodeURIComponent_total in Hall.
  rewrite He in Hall. by destruct Hall.
Qed.

Lemma document_failure_witness :
  document Rich lesson1 (js "unsplash: " ++ [0xD800]) = inl URIError
  /\ Rich = Rich /\ URIError = URIError
  /\ mentions (js "unsplash: " ++ [0xD800]) = true
  /\ Exists (fun c => noSurrogate c = false) (js "unsplash: " ++ [0xD800]).
Proof.
  assert (document Rich lesson1 (js "unsplash: " ++ [0xD800]) = inl URIError)
    as H by (by vm_compute).
  split; [exact H|]. exact (document_failure _ _ _ _ H).
Defined.

(** X6: the image line of the front matter is [image: ], a double quote,
    the address and a double quote, where the address is the fixed prefix,
    the encoded keyword, [&sig=] and the order; the address is written in
    the unreserved characters and [%:/?&=] only, so it holds no double
    quote, no backslash, no white space and no character outside printable
    ASCII, whatever the model has returned as keyword (the order being an
    integer below 10^21 in magnitude). *)
Theorem image_address keyword o line :
  plainInteger o ->
  Forall (fun c => codeUnit c = true) keyword ->
  imageEntry keyword o = inr (Some line) ->
  exists encoded address,
    encodeURIComponent keyword = Some encoded
    /\ address = js "https://source.unsplash.com/featured/?" ++ encoded
                 ++ js "&sig=" ++ digits o
    /\ line = js "image: " ++ [DQUOTE] ++ address ++ [DQUOTE]
    /\ Forall (fun c => urlChar c = true) address
    /\ (forall c, c ∈ address -> 0x21 <= c <= 0x7E /\ c <> DQUOTE /\ c <> 0x5C).
Proof.
  intros _ Hk [[_ [=]]|(_ & encoded & He & [= ->])]%imageEntry_inv.
  exists encoded, (js "https://source.unsplash.com/featured/?" ++ encoded
                   ++ js "&sig=" ++ digits o).
  assert (Forall (fun c => urlChar c = true)
            (js "https://source.unsplash.com/featured/?" ++ encoded
             ++ js "&sig=" ++ digits o)) as Hall.
  { apply Forall_app_2.
    { apply (FallbackFacts.forallb_Forall urlChar); [done|by vm_compute]. }
    apply Forall_app_2; [by eapply encodeURIComponent_urlChar|].
    apply Forall_app_2; [|apply digits_urlChar].
    apply (FallbackFacts.forallb_Forall urlChar); [done|by vm_compute]. }
  split; [done|]. split; [done|]. split.
  { unfold imageLine. by rewrite <- !app_assoc. }
  split; [done|]. intros c Hc. apply urlChar_range.
  rewrite Forall_forall in Hall. by apply Hall.
Qed.

Lemma image_address_witness :
  plainInteger 4
  /\ Forall (fun c => codeUnit c = true) (js "plant cell 细胞")
  /\ imageEntry (js "plant cell 细胞") 4
     = inr (Some (js "image: " ++ [DQUOTE]
                  ++ js "https://source.unsplash.com/featured/?plant%20cell%20%E7%BB%86%E8%83%9E&sig=4"
                  ++ [DQUOTE]))
  /\ exists encoded address,
       encodeURIComponent (js "plant cell 细胞") = Some encoded
       /\ address = js "https://source.unsplash.com/featured/?" ++ encoded
                    ++ js "&sig=" ++ digits 4
       /\ js "image: " ++ [DQUOTE]
            ++ js "https://source.unsplash.com/featured/?plant%20cell%20%E7%BB%86%E8%83%9E&sig=4"
            ++ [DQUOTE]
          = js "image: " ++ [DQUOTE] ++ address ++ [DQUOTE]
       /\ Forall (fun c => urlChar c = true) address
       /\ (forall c, c ∈ address -> 0x21 <= c <= 0x7E /\ c <> DQUOTE /\ c <> 0x5C).
Proof.
  assert (Forall (fun c => codeUnit c = true) (js "plant cell 细胞")) as Hk.
  { apply (FallbackFacts.forallb_Forall codeUnit); [done|by vm_compute]. }
  assert (imageEntry (js "plant cell 细胞") 4
          = inr (Some (js "image: " ++ [DQUOTE]
                  ++ js "https://source.unsplash.com/featured/?plant%20cell%20%E7%BB%86%E8%83%9E&sig=4"
                  ++ [DQUOTE]))) as H by (by vm_compute).
  assert (plainInteger 4) as H4 by (by vm_compute).
  split; [exact H4|]. split; [exact Hk|]. split; [exact H|].
  exact (image_address _ _ _ H4 Hk H).
Defined.

(** X7: [split(/\r?\n/)], which cuts the environment file into lines, never
    leaves a line feed inside a line and always yields at least one line;
    on a text without carriage returns, joining the lines with line feeds
    gives the text back, so nothing but the line feeds is removed. *)
Theorem split_lines s :
  splitLines s <> []
  /\ Forall (fun l => NEWLINE ∉ l) (splitLines s)
  /\ (0x0D ∉ s -> join nl (splitLines s) = s).
Proof.
  split; [apply splitLines_nonempty|].
  split; [apply splitLines_no_feed|apply join_splitLines].
Qed.

(** X8: when the title, the unit and the keywords of an entry hold no line
    feed and no carriage return, the front matter read back line by line is
    exactly the list of lines that survived [filter(Boolean)]: one line for
    each field, in the order of the array, whatever the image keyword is. *)
Theorem front_matter_by_line v item keyword image :
  Forall (fun c => lineChar c = true) (title item) ->
  Forall (fun c => lineChar c = true) (unitOf item) ->
  Forall (fun k => Forall (fun c => lineChar c = true) k) (keywordsOf item) ->
  imageEntry keyword (order item) = inr image ->
  splitLines (frontMatter v item image)
  = filterBoolean (frontMatterArray v item image).
Proof.
  intros Ht Hu Hk Hi. unfold frontMatter.
  apply splitLines_join; [apply lines_nonempty|].
  apply lines_lineChar; try done.
  apply imageEntry_inv in Hi as [[_ ->]|(_ & enc & He & ->)]; [by left|].
  right. eauto.
Qed.

Lemma front_matter_by_line_witness :
  Forall (fun c => lineChar c = true) (title lesson1)
  /\ Forall (fun c => lineChar c = true) (unitOf lesson1)
  /\ Forall (fun k => Forall (fun c => lineChar c = true) k) (keywordsOf lesson1)
  /\ imageEntry (js "kids") (order lesson1)
     = inr (Some (imageLine (js "kids") 1))
  /\ splitLines (frontMatter Rich lesson1 (Some (imageLine (js "kids") 1)))
     = filterBoolean (frontMatterArray Rich lesson1 (Some (imageLine (js "kids") 1))).
Proof.
  assert (Forall (fun c => lineChar c = true) (title lesson1)) as H1
    by (apply forallb_lineChar; by vm_compute).
  assert (Forall (fun c => lineChar c = true) (unitOf lesson1)) as H2
    by (apply forallb_lineChar; by vm_compute).
  assert (Forall (fun k => Forall (fun c => lineChar c = true) k)
            (keywordsOf lesson1)) as H3
    by (repeat constructor; apply forallb_lineChar; by vm_compute).
  assert (imageEntry (js "kids") (order lesson1)
          = inr (Some (imageLine (js "kids") 1))) as H4 by (by vm_compute).
  split; [exact H1|]. split; [exact H2|]. split; [exact H3|].
  split; [exact H4|]. exact (front_matter_by_line Rich _ _ _ H1 H2 H3 H4).
Defined.

End DocumentProps.

(** ** The events of a run *)

Module RunFacts.
Import JS Gen Script Trace Safety DriverFacts.

Section Runs.
Variable v : Variant.
Variable w : World.
Variable key : list N.

Lemma processItem_events item tr :
  exists evs,
    fst (processItem v w key item tr) = tr ++ evs
    /\ Forall (itemEvent v w key item) evs.
Proof.
  unfold processItem, postJson, writeOut, mbind, M_bind, bind, emit, history,
    throw, ret.
  fold (request v w key item). fold (writtenLine item).
  assert (Forall (itemEvent v w key item)
            [Log (startLine item); Fetch (request v w key item)]) as H2.
  { apply Forall_cons_2; [by left|]. apply Forall_cons_2; [done|constructor]. }
  destruct (fetch w (tr ++ [Log (startLine item)]) (request v w key item))
    as [res|]; rewrite snoc2; [|by eexists].
  destruct (ok res); cbn [negb]; [|by eexists].
  destruct (json res) as [j|]; [|by eexists].
  destruct (contentOf j) as [[| | |[|c s]| |]|]; try (by eexists).
  destruct (document v item (c :: s)) as [e|content] eqn:Hd; [by eexists|].
  assert (itemEvent v w key item (WriteFile (outPath item) content)) as H3.
  { split; [done|]. by exists (c :: s). }
  rewrite <- app_assoc. cbn [app].
  destruct (writeFile w _ _ _); cbn [fst].
  - rewrite <- app_assoc. cbn [app]. eexists. split; [done|].
    inversion H2 as [|? ? Ha Hb]; subst. inversion Hb as [|? ? Hc _]; subst.
    apply Forall_cons_2; [exact Ha|]. apply Forall_cons_2; [exact Hc|].
    apply Forall_cons_2; [exact H3|]. apply Forall_cons_2; [by right|constructor].
  - eexists. split; [done|].
    inversion H2 as [|? ? Ha Hb]; subst. inversion Hb as [|? ? Hc _]; subst.
    apply Forall_cons_2; [exact Ha|]. apply Forall_cons_2; [exact Hc|].
    apply Forall_cons_2; [exact H3|constructor].
Qed.

Lemma forEach_events outline tr :
  exists evs,
    fst (forEach v w key outline tr) = tr ++ evs
    /\ Forall (fun e => exists item, item ∈ outline /\ itemEvent v w key item e)
         evs.
Proof.
  revert tr. induction outline as [|item r IH]; intros tr.
  { exists []. cbn. by rewrite app_nil_r. }
  cbn [forEach]. unfold mbind, M_bind, bind.
  destruct (processItem_events item tr) as (e1 & H1 & F1).
  assert (Forall (fun e => exists x, x ∈ item :: r /\ itemEvent v w key x e) e1)
    as F1'.
  { eapply Forall_impl; [exact F1|]. intros e He. exists item. split; [by left|done]. }
  destruct (processItem v w key item tr) as [tr1 [e|[]]]; cbn [fst] in *.
  - by exists e1.
  - subst tr1. destruct (IH (tr ++ e1)) as (e2 & H2 & F2).
    exists (e1 ++ e2). rewrite H2, app_assoc. split; [done|].
    apply Forall_app_2; [done|]. eapply Forall_impl; [exact F2|].
    intros e (x & Hx & He). exists x. split; [by right|done].
Qed.

End Runs.

Section Whole.
Variable v : Variant.
Variable w : World.

Lemma mainEvent_item key outline e :
  (exists item, item ∈ outline /\ itemEvent v w key item e) ->
  mainEvent v w key outline e.
Proof.
  intros (item & Hin & He).
  destruct e as [p|p|req|p c|s|p|c]; cbn [mainEvent itemEvent] in *;
    try (by destruct He); try (by exists item).
  right. by exists item.
Qed.

Lemma outlineOf_eq raw outline :
  files w !! OUTLINE_PATH = Some raw -> parseOutline w raw = Some outline ->
  outlineOf w = outline.
Proof. unfold outlineOf. by intros -> ->. Qed.

Lemma main_events key tr :
  exists evs,
    fst (main v w key tr) = tr ++ evs
    /\ Forall (mainEvent v w key (outlineOf w)) evs
    /\ (snd (main v w key tr) = inr tt -> exists evs', evs = evs' ++ [Log DONE]).
Proof.
  rewrite main_eq. fold DONE.
  destruct (files w !! OUTLINE_PATH) as [raw|] eqn:Hf.
  2: { eexists. split; [done|]. split; [by repeat constructor|done]. }
  destruct (parseOutline w raw) as [outline|] eqn:Hp.
  2: { eexists. split; [done|]. split; [by repeat constructor|done]. }
  rewrite (outlineOf_eq _ _ Hf Hp).
  destruct (mkdir w _ _).
  2: { eexists. split; [done|]. split; [by repeat constructor|done]. }
  destruct (forEach_events v w key outline
              (tr ++ [ReadFile OUTLINE_PATH; Mkdir OUT_DIR])) as (evs & H & F).
  assert (Forall (mainEvent v w key outline) evs) as F'.
  { eapply Forall_impl; [exact F|]. apply mainEvent_item. }
  destruct (forEach v w key outline _) as [tr' [e|[]]]; cbn [fst snd] in *;
    subst tr'.
  - exists ([ReadFile OUTLINE_PATH; Mkdir OUT_DIR] ++ evs).
    rewrite app_assoc. split; [done|]. split; [|done].
    apply Forall_app_2; [by repeat constructor|exact F'].
  - exists ([ReadFile OUTLINE_PATH; Mkdir OUT_DIR] ++ evs ++ [Log DONE]).
    rewrite <- !app_assoc. split; [done|]. split.
    + apply Forall_app_2; [by repeat constructor|].
      apply Forall_app_2; [exact F'|].
      apply Forall_cons_2; [by left|constructor].
    + intros _. exists ([ReadFile OUTLINE_PATH; Mkdir OUT_DIR] ++ evs).
      by rewrite <- !app_assoc.
Qed.

Lemma resolveKey_reads : resolveKey v w [] = (keyReads v w, inr (keyOf v w)).
Proof.
  unfold keyOf, keyReads. destruct v; cbn [resolveKey]; [done|].
  by rewrite readKeyFallback_eq.
Qed.

(** The trace of the process: the credential lookup, the events of [main],
    and the report of a failure. *)
Lemma script_events :
  exists evs fin,
    fst (script v w) = keyReads v w ++ evs ++ fin
    /\ Forall (mainEvent v w (keyOf v w) (outlineOf w)) evs
    /\ (evs <> [] -> truthy (keyOf v w) = true)
    /\ ((snd (script v w) = 0%Z /\ fin = []
         /\ exists evs', evs = evs' ++ [Log DONE])
        \/ (snd (script v w) = 1%Z /\ isReport fin)).
Proof.
  unfold script. rewrite resolveKey_reads.
  destruct (truthy (keyOf v w)) eqn:Hk; cbn [negb].
  2: { exists [], [LogError (Text (missingKey v)); Exit 1]. cbn [fst snd app].
       split; [done|]. split; [constructor|]. split; [done|].
       right. split; [done|]. by eexists. }
  destruct (main_events (keyOf v w) (keyReads v w)) as (evs & H & F & D).
  destruct (main v w (keyOf v w) (keyReads v w)) as [tr1 [e|[]]];
    cbn [fst snd] in *; subst tr1.
  - exists evs, [LogError (Value e); Exit 1]. rewrite <- app_assoc.
    split; [done|]. split; [done|]. split; [done|].
    right. split; [done|]. by eexists.
  - exists evs, []. rewrite app_nil_r. split; [done|]. split; [done|].
    split; [done|]. left. split; [done|]. split; [done|]. by apply D.
Qed.

Lemma keyReads_events e :
  e ∈ keyReads v w -> v = Rich /\ (e = ReadFile KEY_FILE \/ e = ReadFile ENV_FILE).
Proof.
  unfold keyReads, reads. destruct v; [by intros ?%elem_of_nil|].
  destruct (fromEnvironment w); [by intros ?%elem_of_nil|].
  destruct (fromKeyFile w).
  - intros [->|?%elem_of_nil]%elem_of_cons; [|done]. split; [done|by left].
  - intros [->|[->|?%elem_of_nil]%elem_of_cons]%elem_of_cons; [| |done];
      (split; [done|]); [by left|by right].
Qed.

(** An event of a run, sorted by where it comes from. *)
Lemma script_event e :
  e ∈ fst (script v w) ->
  (v = Rich /\ (e = ReadFile KEY_FILE \/ e = ReadFile ENV_FILE))
  \/ (truthy (keyOf v w) = true /\ mainEvent v w (keyOf v w) (outlineOf w) e)
  \/ (exists p, e = LogError p) \/ e = Exit 1.
Proof.
  destruct script_events as (evs & fin & -> & F & K & Hfin).
  intros [H|[H|H]%elem_of_app]%elem_of_app.
  - left. by apply keyReads_events.
  - right. left. split.
    + apply K. intros ->. by apply elem_of_nil in H.
    + rewrite Forall_forall in F. by apply F.
  - right. right. destruct Hfin as [(_ & -> & _)|(_ & p & ->)].
    + by apply elem_of_nil in H.
    + apply elem_of_cons in H as [->|H]; [left; by eexists|].
      apply elem_of_cons in H as [->|H]; [by right|]. by apply elem_of_nil in H.
Qed.

End Whole.

Lemma dropLastSlash_snoc u : dropLastSlash (u ++ [0x2F]) = u.
Proof.
  induction u as [|c t IH]; [done|]. cbn [app dropLastSlash].
  destruct (t ++ [0x2F]) eqn:E; [by destruct t|]. by rewrite IH.
Qed.

Lemma dropLastSlash_plain u : last u <> Some 0x2F -> dropLastSlash u = u.
Proof.
  induction u as [|c t IH]; [done|]. destruct t as [|d t'].
  - cbn. intros H. destruct (c =? 0x2F) eqn:E; [|done].
    apply N.eqb_eq in E. by subst.
  - intros H. change (dropLastSlash (c :: d :: t'))
      with (c :: dropLastSlash (d :: t')). by rewrite IH.
Qed.

End RunFacts.

(** ** The driver: further properties *)

Module RunProps.
Import JS Gen Script Trace Safety Samples MoreSamples DriverFacts RunFacts.

(** X9: the process never sends a request without a credential: every
    request of a run is the request of an entry of the loaded outline, sent
    to the configured address with the header [Bearer] and the resolved key,
    and that key is not empty; its user message is the prompt of that
    entry. *)
Theorem requests_authorized v w req :
  Fetch req ∈ fst (script v w) ->
  truthy (keyOf v w) = true
  /\ exists item,
       item ∈ outlineOf w
       /\ req = request v w (keyOf v w) item
       /\ url req = BASE_URL w ++ js "/v1/chat/completions"
       /\ authorization req = js "Bearer " ++ keyOf v w
       /\ userContent req = prompt v item.
Proof.
  intros [(_ & [H|H])|[(Hk & item & Hin & He)|[[p H]|H]]]%script_event; try done.
  split; [done|]. exists item. cbn in He. by subst req.
Qed.

Lemma requests_authorized_witness :
  Fetch (request Simple answering (js "sk-1") lesson2)
    ∈ fst (script Simple answering)
  /\ truthy (keyOf Simple answering) = true.
Proof.
  assert (Fetch (request Simple answering (js "sk-1") lesson2)
            ∈ fst (script Simple answering)) as H.
  { apply list_elem_of_In. vm_compute. tauto. }
  split; [exact H|]. exact (proj1 (requests_authorized _ _ _ H)).
Defined.

(** X10: the process writes nowhere but into the output directory: every
    file written is [src/content/lessons/] followed by the file name of an
    entry of the outline, its content is the document built for that entry
    from a completion text that is not empty, and the only directory created
    is the output directory. *)
Theorem writes_confined v w :
  (forall p content, WriteFile p content ∈ fst (script v w) ->
     exists item md,
       item ∈ outlineOf w
       /\ p = OUT_DIR ++ js "/" ++ filename (order item) (title item)
       /\ truthy md = true
       /\ document v item md = inr content)
  /\ (forall p, Mkdir p ∈ fst (script v w) -> p = OUT_DIR).
Proof.
  split.
  - intros p content
      [(_ & [H|H])|[(Hk & item & Hin & -> & md & Hm & Hd)|[[q H]|H]]]%script_event;
      try done.
    by exists item, md.
  - intros p [(_ & [H|H])|[(Hk & H)|[[q H]|H]]]%script_event; done.
Qed.

(** X11: the process reads three files at most: the outline, and in the
    richer variant the key file and the environment file; the simpler
    variant reads nothing but the outline, and the outline is read only once
    a credential has been found. *)
Theorem reads_fixed v w p :
  ReadFile p ∈ fst (script v w) ->
  (p = OUTLINE_PATH /\ truthy (keyOf v w) = true)
  \/ (v = Rich /\ (p = KEY_FILE \/ p = ENV_FILE)).
Proof.
  intros [(Hv & [[= ->]|[= ->]])|[(Hk & H)|[[q H]|H]]]%script_event; try done.
  - right. split; [done|by left].
  - right. split; [done|by right].
  - left. by split.
Qed.

Lemma reads_fixed_witness :
  ReadFile ENV_FILE ∈ fst (script Rich keyless)
  /\ ((ENV_FILE = OUTLINE_PATH /\ truthy (keyOf Rich keyless) = true)
      \/ (Rich = Rich /\ (ENV_FILE = KEY_FILE \/ ENV_FILE = ENV_FILE))).
Proof.
  assert (ReadFile ENV_FILE ∈ fst (script Rich keyless)) as H.
  { apply list_elem_of_In. vm_compute. tauto. }
  split; [exact H|]. exact (reads_fixed _ _ _ H).
Defined.

(** X12: the exit code is 0 or 1.  With code 1 the trace ends with one
    report on the error stream followed by the exit, and nothing before
    them is a report or an exit; with code 0 the trace ends with the line
    that announces completion and holds no report and no exit at all, and
    the credential was not empty. *)
Theorem exit_report v w :
  (snd (script v w) = 0%Z \/ snd (script v w) = 1%Z)
  /\ (snd (script v w) = 1%Z ->
      exists before p,
        fst (script v w) = before ++ [LogError p; Exit 1]
        /\ Forall silent before)
  /\ (snd (script v w) = 0%Z ->
      truthy (keyOf v w) = true
      /\ Forall silent (fst (script v w))
      /\ exists before, fst (script v w) = before ++ [Log DONE]).
Proof.
  destruct (script_events v w) as (evs & fin & Ht & F & K & Hfin).
  assert (Forall silent (keyReads v w ++ evs)) as Hs.
  { apply Forall_app_2.
    - apply Forall_forall. intros e [_ [->| ->]]%keyReads_events; done.
    - eapply Forall_impl; [exact F|]. intros e He. by destruct e. }
  rewrite Ht. destruct Hfin as [(-> & -> & evs' & ->)|(-> & p & ->)].
  - split; [by left|]. split; [done|]. intros _. rewrite app_nil_r.
    split; [apply K; by destruct evs'|]. split; [done|].
    exists (keyReads v w ++ evs'). by rewrite <- app_assoc.
  - split; [by right|]. split; [|done]. intros _.
    exists (keyReads v w ++ evs), p. by rewrite <- app_assoc.
Qed.

(** X13: when a credential has been found and the outline cannot be read or
    is not JSON, the run is over after the read: the error is reported, the
    exit code is 1, and no directory has been created and no request
    sent. *)
Theorem outline_failure v w :
  truthy (keyOf v w) = true ->
  (files w !! OUTLINE_PATH = None
   \/ exists raw, files w !! OUTLINE_PATH = Some raw /\ parseOutline w raw = None) ->
  exists e,
    script v w
    = (keyReads v w ++ [ReadFile OUTLINE_PATH; LogError (Value e); Exit 1], 1%Z)
    /\ (e = IOError OUTLINE_PATH \/ e = SyntaxError).
Proof.
  intros Hk Hf. unfold script. rewrite resolveKey_reads, Hk. cbn [negb].
  rewrite main_eq. destruct Hf as [->|(raw & -> & ->)].
  - exists (IOError OUTLINE_PATH). rewrite <- app_assoc. split; [done|by left].
  - exists SyntaxError. rewrite <- app_assoc. split; [done|by right].
Qed.

Lemma outline_failure_witness :
  truthy (keyOf Simple world_without_outline) = true
  /\ files world_without_outline !! OUTLINE_PATH = None
  /\ exists e,
       script Simple world_without_outline
       = (keyReads Simple world_without_outline
            ++ [ReadFile OUTLINE_PATH; LogError (Value e); Exit 1], 1%Z)
       /\ (e = IOError OUTLINE_PATH \/ e = SyntaxError).
Proof.
  assert (truthy (keyOf Simple world_without_outline) = true) as Hk
    by (by vm_compute).
  assert (files world_without_outline !! OUTLINE_PATH = None) as Hf
    by (by vm_compute).
  split; [exact Hk|]. split; [exact Hf|].
  exact (outline_failure Simple world_without_outline Hk (or_introl Hf)).
Defined.

(** X14: the simpler variant takes the credential from the environment
    variable alone, whatever the files hold: it never reads a key file, every
    request it sends carries that variable in its header, and without a value
    that is not empty it prints its one-line message and exits with code 1
    without any other event. *)
Theorem simple_credential w :
  keyOf Simple w = nullish (environ w !! js "DEEPSEEK_API_KEY") []
  /\ (truthy (nullish (environ w !! js "DEEPSEEK_API_KEY") []) = false ->
      script Simple w = ([LogError (Text (missingKey Simple)); Exit 1], 1%Z))
  /\ (forall p, ReadFile p ∈ fst (script Simple w) -> p = OUTLINE_PATH)
  /\ (forall req, Fetch req ∈ fst (script Simple w) ->
      authorization req
      = js "Bearer " ++ nullish (environ w !! js "DEEPSEEK_API_KEY") []).
Proof.
  split; [done|]. split; [|split].
  - intros H. unfold script. cbn [resolveKey]. unfold ret. by rewrite H.
  - intros p [([=] & _)|[(_ & H)|[[q H]|H]]]%script_event; done.
  - intros req [([=] & _)|[(_ & item & _ & He)|[[q H]|H]]]%script_event;
      try done.
    cbn [mainEvent itemEvent] in He. by subst req.
Qed.

(** X15: one slash at the end of the configured base address makes no
    difference: with [u/] as with [u] (when [u] does not end with a slash)
    every request goes to [u/v1/chat/completions]. *)
Theorem base_url_slash v w key item u u' :
  environ w !! js "DEEPSEEK_BASE_URL" = Some u' ->
  u' = u ++ js "/" \/ (u' = u /\ last u <> Some 0x2F) ->
  url (request v w key item) = u ++ js "/v1/chat/completions".
Proof.
  intros He Hu. cbn [request url]. unfold BASE_URL. rewrite He. cbn [nullish].
  destruct Hu as [->|[-> Hl]].
  - change (js "/") with [0x2F]. by rewrite dropLastSlash_snoc.
  - by rewrite dropLastSlash_plain.
Qed.

Lemma base_url_slash_witness :
  environ proxied !! js "DEEPSEEK_BASE_URL" = Some (js "http://localhost:8080/")
  /\ url (request Rich proxied (js "sk-1") lesson1)
     = js "http://localhost:8080" ++ js "/v1/chat/completions".
Proof.
  assert (environ proxied !! js "DEEPSEEK_BASE_URL"
          = Some (js "http://localhost:8080/")) as H by (by vm_compute).
  split; [exact H|].
  apply (base_url_slash Rich proxied (js "sk-1") lesson1
           (js "http://localhost:8080") _ H).
  left. by vm_compute.
Defined.

(** X20: an answer with a success status and a JSON body whose
    [choices[0].message.content] is missing, is not a string or is the empty
    string is not written: the loop body stops right after the request with
    the fixed error, whatever else the body holds. *)
Theorem unusable_content v w key item tr res j :
  fetch w (tr ++ [Log (startLine item)]) (request v w key item) = Some res ->
  ok res = true ->
  json res = Some j ->
  (forall md, contentOf j = Some (JString md) -> md = []) ->
  processItem v w key item tr
  = (tr ++ [Log (startLine item); Fetch (request v w key item)],
     inl (Error (js "模型返回内容为空或格式不对"))).
Proof.
  intros Hf Hok Hj Hc.
  unfold processItem, postJson, mbind, M_bind, bind, emit, history, throw, ret.
  fold (request v w key item). rewrite Hf, Hok, Hj, snoc2. cbn [negb].
  destruct (contentOf j) as [[| | |[|c s]| |]|]; try reflexivity.
  by specialize (Hc _ eq_refl).
Qed.

Lemma unusable_content_witness :
  processItem Simple (world (fun _ => Some (completion []))) (js "sk-1") lesson2 []
  = ([] ++ [Log (startLine lesson2);
            Fetch (request Simple (world (fun _ => Some (completion [])))
                     (js "sk-1") lesson2)],
     inl (Error (js "模型返回内容为空或格式不对"))).
Proof.
  apply (unusable_content Simple (world (fun _ => Some (completion [])))
           (js "sk-1") lesson2 [] (completion [])
           (JObject [(js "choices",
               JArray [JObject [(js "message",
                 JObject [(js "content", JString [])])]])])).
  - reflexivity.
  - reflexivity.
  - reflexivity.
  - intros md H. vm_compute in H. by injection H as <-.
Defined.

End RunProps.

(** ** The line of the environment file *)

Module KeyLineFacts.
Import JS Gen Script Trace Safety CredentialFacts LineFacts.

Lemma spaces_inv {A} (k : list N -> option A) s r :
  spaces k s = Some r ->
  exists ws rest,
    s = ws ++ rest /\ Forall (fun c => isWhiteSpace c = true) ws
    /\ k rest = Some r.
Proof.
  induction s as [|c t IH]; cbn [spaces].
  { intros H. by exists [], []. }
  destruct (isWhiteSpace c) eqn:Hc.
  - destruct (spaces k t) as [r'|] eqn:E.
    + intros [= ->]. destruct (IH eq_refl) as (ws & rest & -> & Hws & Hk).
      exists (c :: ws), rest. split; [done|]. split; [by constructor|done].
    + intros H. by exists [], (c :: t).
  - intros H. by exists [], (c :: t).
Qed.

Lemma literal_inv pat s rest : literal false pat s = Some rest -> s = pat ++ rest.
Proof.
  revert s. induction pat as [|p pat IH]; intros s; cbn [literal].
  - by intros [= ->].
  - destruct s as [|c t]; [done|]. destruct (c =? p) eqn:E; [|done].
    apply N.eqb_eq in E as ->. intros H. by rewrite (IH _ H).
Qed.

Lemma valueToEnd_inv s g :
  valueToEnd s = Some g ->
  exists ws,
    s = g ++ ws /\ g <> []
    /\ Forall (fun c => isLineTerminator c = false) g
    /\ Forall (fun c => isWhiteSpace c = true) ws.
Proof.
  revert g. induction s as [|c t IH]; intros g; [done|]. cbn [valueToEnd].
  destruct (isLineTerminator c) eqn:Hc; [done|].
  destruct (valueToEnd t) as [g'|].
  - intros [= <-]. destruct (IH _ eq_refl) as (ws & -> & _ & Hg & Hws).
    exists ws. split; [done|]. split; [done|]. split; [by constructor|done].
  - destruct (forallb isWhiteSpace t) eqn:Hall; [|done]. intros [= <-].
    exists t. split; [done|]. split; [done|]. split; [by repeat constructor|].
    by apply (FallbackFacts.forallb_Forall isWhiteSpace).
Qed.

(** What [/^\s*DEEPSEEK_API_KEY\s*=\s*(.+)\s*$/] matches. *)
Lemma keyLineMatch_inv line g :
  keyLineMatch line = Some g ->
  exists ws1 ws2 ws3 ws4,
    line = ws1 ++ KEY_NAME ++ ws2 ++ [0x3D] ++ ws3 ++ g ++ ws4
    /\ Forall (fun c => isWhiteSpace c = true) (ws1 ++ ws2 ++ ws3 ++ ws4)
    /\ g <> []
    /\ Forall (fun c => isLineTerminator c = false) g.
Proof.
  unfold keyLineMatch.
  intros (ws1 & r1 & -> & H1 & Hm)%spaces_inv.
  destruct (literal false KEY_NAME r1) as [r2|] eqn:El; [|done].
  apply literal_inv in El as ->. cbn [mbind option_bind] in Hm.
  apply spaces_inv in Hm as (ws2 & r3 & -> & H2 & Hm).
  destruct r3 as [|c r4]; [done|]. cbn [equalsSign] in Hm.
  destruct (c =? 0x3D) eqn:Ec; [|done]. apply N.eqb_eq in Ec as ->.
  apply spaces_inv in Hm as (ws3 & r5 & -> & H3 & Hm).
  apply valueToEnd_inv in Hm as (ws4 & -> & Hne & Hg & H4).
  exists ws1, ws2, ws3, ws4. split; [done|]. split; [|done].
  by repeat apply Forall_app_2.
Qed.

Lemma dropFirstQuote_Forall (P : N -> Prop) s :
  Forall P s -> Forall P (dropFirstQuote s).
Proof.
  intros [|c t Hc Ht]; [done|]. cbn [dropFirstQuote].
  destruct (isQuote c); [done|by constructor].
Qed.

Lemma dropLastQuote_Forall (P : N -> Prop) s :
  Forall P s -> Forall P (dropLastQuote s).
Proof.
  induction 1 as [|c t Hc Ht IH]; [done|]. destruct t as [|d t'].
  - cbn. destruct (isQuote c); by repeat constructor.
  - change (dropLastQuote (c :: d :: t')) with (c :: dropLastQuote (d :: t')).
    by constructor.
Qed.

Lemma dropLastQuote_plain s c :
  isQuote c = false -> dropLastQuote (s ++ [c]) = s ++ [c].
Proof.
  intros Hc. induction s as [|d t IH]; cbn [app dropLastQuote].
  - by rewrite Hc.
  - destruct (t ++ [c]) eqn:E; [by destruct t|]. by rewrite IH.
Qed.

Lemma trimEnd_blanks s blanks :
  Forall (fun c => isWhiteSpace c = true) blanks ->
  trimEnd (s ++ blanks) = trimEnd s.
Proof.
  intros Hb. assert (trimEnd blanks = []) as Hnil.
  { induction Hb as [|c t Hc Ht IH]; [done|]. cbn [trimEnd]. by rewrite IH, Hc. }
  induction s as [|c t IH]; [done|]. cbn [app trimEnd]. by rewrite IH.
Qed.

Lemma firstKeyLine_inv lines key :
  firstKeyLine lines = Some key ->
  exists before line after g,
    lines = before ++ line :: after
    /\ Forall (fun l => keyLineMatch l = None) before
    /\ keyLineMatch line = Some g
    /\ key = trim (stripQuotes g).
Proof.
  induction lines as [|l r IH]; [done|]. cbn [firstKeyLine].
  destruct (keyLineMatch l) as [g|] eqn:E.
  - intros [= <-]. by exists [], l, r, g.
  - intros (before & line & after & g & -> & Hb & Hm & Hk)%IH.
    exists (l :: before), line, after, g. split; [done|].
    split; [by constructor|done].
Qed.

End KeyLineFacts.

(** ** The credential files: further properties *)

Module KeyLineProps.
Import JS Gen Script Trace Safety CredentialFacts LineFacts KeyLineFacts.

(** X16: a key taken from the environment file comes from the first line
    that has the form white space, [DEEPSEEK_API_KEY], white space, [=],
    white space, value, white space, and from no other line: a line that
    names another variable or starts with a comment sign is passed over.
    The key is the value without one quote at each end, trimmed: it holds
    no line terminator and no white space at either end. *)
Theorem key_line lines key :
  firstKeyLine lines = Some key ->
  exists before line after ws1 ws2 ws3 ws4 g,
    lines = before ++ line :: after
    /\ Forall (fun l => keyLineMatch l = None) before
    /\ line = ws1 ++ KEY_NAME ++ ws2 ++ js "=" ++ ws3 ++ g ++ ws4
    /\ Forall (fun c => isWhiteSpace c = true) (ws1 ++ ws2 ++ ws3 ++ ws4)
    /\ g <> []
    /\ key = trim (stripQuotes g)
    /\ Forall (fun c => isLineTerminator c = false) key
    /\ trim key = key.
Proof.
  intros (before & line & after & g & -> & Hb & Hm & ->)%firstKeyLine_inv.
  destruct (keyLineMatch_inv _ _ Hm) as (ws1 & ws2 & ws3 & ws4 & -> & Hws & Hne & Hg).
  exists before, (ws1 ++ KEY_NAME ++ ws2 ++ [0x3D] ++ ws3 ++ g ++ ws4), after,
    ws1, ws2, ws3, ws4, g.
  split; [done|]. split; [done|]. split; [done|]. split; [done|].
  split; [done|]. split; [done|]. split; [|apply trim_trim].
  apply FallbackFacts.trim_Forall. unfold stripQuotes.
  by apply dropLastQuote_Forall, dropFirstQuote_Forall.
Qed.

Lemma key_line_witness :
  firstKeyLine [js "# DEEPSEEK_API_KEY=old"; js "DEEPSEEK_API_KEY_2=x";
                js "  DEEPSEEK_API_KEY = 'sk-1' "]
  = Some (js "sk-1'")
  /\ exists before line after ws1 ws2 ws3 ws4 g,
       [js "# DEEPSEEK_API_KEY=old"; js "DEEPSEEK_API_KEY_2=x";
        js "  DEEPSEEK_API_KEY = 'sk-1' "]
       = before ++ line :: after
       /\ Forall (fun l => keyLineMatch l = None) before
       /\ line = ws1 ++ KEY_NAME ++ ws2 ++ js "=" ++ ws3 ++ g ++ ws4
       /\ Forall (fun c => isWhiteSpace c = true) (ws1 ++ ws2 ++ ws3 ++ ws4)
       /\ g <> []
       /\ js "sk-1'" = trim (stripQuotes g)
       /\ Forall (fun c => isLineTerminator c = false) (js "sk-1'")
       /\ trim (js "sk-1'") = js "sk-1'".
Proof.
  assert (firstKeyLine [js "# DEEPSEEK_API_KEY=old"; js "DEEPSEEK_API_KEY_2=x";
                        js "  DEEPSEEK_API_KEY = 'sk-1' "]
          = Some (js "sk-1'")) as H by (by vm_compute).
  split; [exact H|]. exact (key_line _ _ H).
Defined.

(** X17: the quotes are removed before the value is trimmed, and only at
    the two ends of what the pattern has captured, which takes in the blanks
    that follow the value: a quoted value followed by a space or a tab on
    its line keeps its closing quote. *)
Theorem trailing_blank_keeps_quote q q' value blanks rest :
  isQuote q = true -> isQuote q' = true ->
  value <> [] -> Forall (fun c => isWhiteSpace c = false) value ->
  blanks <> [] ->
  Forall (fun c => isWhiteSpace c = true /\ isLineTerminator c = false) blanks ->
  firstKeyLine ((KEY_NAME ++ js "=" ++ [q] ++ value ++ [q'] ++ blanks) :: rest)
  = Some (value ++ [q']).
Proof.
  intros Hq Hq' Hne Hv Hbne Hb.
  assert (isWhiteSpace q = false /\ isWhiteSpace q' = false) as [Hwq Hwq'].
  { unfold isQuote in *. split; chars. }
  assert (keyLineMatch (KEY_NAME ++ js "=" ++ [q] ++ value ++ [q'] ++ blanks)
          = Some (q :: value ++ [q'] ++ blanks)) as Hm.
  { unfold keyLineMatch.
    assert (exists d t, KEY_NAME = d :: t /\ isWhiteSpace d = false)
      as (d & t & Hk & Hd) by (do 2 eexists; split; by vm_compute).
    rewrite Hk at 1. cbn [app]. rewrite spaces_stop by done.
    change (d :: t ++ ?r) with ((d :: t) ++ r). rewrite <- Hk.
    rewrite literal_exact.
    cbn [mbind option_bind]. change (js "=") with [0x3D]. cbn [app].
    rewrite spaces_stop by done. cbn [equalsSign]. rewrite N.eqb_refl.
    rewrite spaces_stop by done.
    apply valueToEnd_all; [done|].
    constructor; [by apply space_or_terminator|].
    apply Forall_app_2.
    { eapply Forall_impl; [exact Hv|]. apply space_or_terminator. }
    constructor; [by apply space_or_terminator|].
    eapply Forall_impl; [exact Hb|]. by intros c [_ ?]. }
  cbn [firstKeyLine]. rewrite Hm. f_equal. unfold stripQuotes.
  cbn [dropFirstQuote]. rewrite Hq.
  destruct (exists_last Hbne) as (b0 & c & ->).
  assert (isWhiteSpace c = true) as Hc.
  { apply Forall_app in Hb as [_ Hb]. by inversion Hb as [|? ? [? _] _]. }
  assert (isQuote c = false) as Hqc by (unfold isQuote; chars).
  replace (value ++ [q'] ++ b0 ++ [c]) with ((value ++ [q'] ++ b0) ++ [c])
    by (by rewrite <- !app_assoc).
  rewrite dropLastQuote_plain by done.
  replace ((value ++ [q'] ++ b0) ++ [c]) with ((value ++ [q']) ++ (b0 ++ [c]))
    by (by rewrite <- !app_assoc).
  unfold trim, trimStart. destruct value as [|x value']; [done|].
  inversion Hv as [|? ? Hx Hv']; subst. cbn [app dropWhile]. rewrite Hx.
  change (x :: (value' ++ [q']) ++ b0 ++ [c])
    with ((x :: value' ++ [q']) ++ (b0 ++ [c])).
  rewrite trimEnd_blanks.
  - apply trimEnd_plain. constructor; [done|]. apply Forall_app_2; [done|].
    by repeat constructor.
  - eapply Forall_impl; [exact Hb|]. by intros ? [? _].
Qed.

Lemma trailing_blank_keeps_quote_witness :
  firstKeyLine [KEY_NAME ++ js "=" ++ [DQUOTE] ++ js "sk-1" ++ [DQUOTE] ++ js " ";
                js "OTHER=1"]
  = Some (js "sk-1" ++ [DQUOTE]).
Proof.
  apply (trailing_blank_keeps_quote DQUOTE DQUOTE (js "sk-1") (js " ")).
  - reflexivity.
  - reflexivity.
  - by vm_compute.
  - apply (FallbackFacts.forallb_Forall (fun c => negb (isWhiteSpace c)));
      [intros c; apply negb_true_iff|by vm_compute].
  - by vm_compute.
  - by repeat constructor.
Defined.

End KeyLineProps.

(** ** Edge cases of the slug and of the image marker *)

Module EdgeFacts.
Import JS Unicode Gen Script Shape Safety TextFacts CredentialFacts ImageFacts
  LineFacts.

Lemma removeUnsplash_none md : mentions md = false -> removeUnsplash md = md.
Proof.
  induction md as [|c t IH]; [done|].
  intros [H1 H2]%mentions_cons. cbn [removeUnsplash]. rewrite H1.
  cbn [mbind option_bind]. by rewrite IH.
Qed.

Lemma literal_other_head c s :
  asciiLower c <> 0x75 -> literal true UNSPLASH (c :: s) = None.
Proof.
  intros Hc. rewrite UNSPLASH_eq. cbn [literal].
  by apply N.eqb_neq in Hc as ->.
Qed.

(** A stretch without the letter u cannot hold the start of a marker. *)
Lemma mentions_skip a b :
  Forall (fun c => asciiLower c <> 0x75) a -> mentions (a ++ b) = mentions b.
Proof.
  induction 1 as [|c t Hc Ht IH]; [done|]. cbn [app mentions].
  by rewrite literal_other_head, IH.
Qed.

Lemma marker_tail marker :
  map asciiLower marker = UNSPLASH ->
  exists c t, marker = c :: t /\ Forall (fun x => asciiLower x <> 0x75) t.
Proof.
  rewrite UNSPLASH_eq. destruct marker as [|c t]; [done|].
  intros [= _ Ht]. exists c, t. split; [done|].
  assert (Forall (fun y => y <> 0x75) (map asciiLower t)) as H.
  { rewrite Ht. by repeat constructor. }
  clear Ht. induction t as [|x t IH]; [constructor|].
  inversion H; subst. constructor; auto.
Qed.

Lemma take_snoc_lookup {A} (l : list A) n x :
  l !! n = Some x -> take (S n) l = take n l ++ [x].
Proof. intros H. by erewrite take_S_r. Qed.

End EdgeFacts.

Module EdgeProps.
Import JS Unicode Gen Script Shape Safety Samples TextFacts CredentialFacts
  ImageFacts LineFacts EdgeFacts.

(** X18: the slug is cut to 48 code units after its hyphens at the ends
    have been removed, not before: when the cut falls right after a hyphen
    (the slug has a hyphen at index 47), the file name ends with [-.md]. *)
Theorem truncated_slug_hyphen o t :
  safeSlug t !! 47%nat = Some HYPHEN ->
  filename o t = pad2 o ++ js "-" ++ take 47 (safeSlug t) ++ js "-.md".
Proof.
  intros H. unfold filename, slice0, orElse.
  rewrite (take_snoc_lookup _ _ _ H).
  destruct (take 47 (safeSlug t) ++ [HYPHEN]) eqn:E; [by destruct (take 47 _)|].
  cbn [truthy]. rewrite <- E, <- !app_assoc. reflexivity.
Qed.

Lemma truncated_slug_hyphen_witness :
  safeSlug (replicate 47 0x61 ++ js " b") !! 47%nat = Some HYPHEN
  /\ filename 1 (replicate 47 0x61 ++ js " b")
     = js "01-" ++ replicate 47 0x61 ++ js "-.md".
Proof.
  assert (safeSlug (replicate 47 0x61 ++ js " b") !! 47%nat = Some HYPHEN) as H
    by (by vm_compute).
  split; [exact H|]. rewrite (truncated_slug_hyphen 1 _ H). by vm_compute.
Defined.

(** X19: the two patterns of the image keyword disagree when the marker is
    followed by a line break at once: the first one skips white space, line
    breaks included, and takes the keyword from the next line; the second
    one wants a character other than a line feed right after the marker and
    removes nothing.  The image is then built from the next line, and the
    body that is written is the whole trimmed completion, marker included. *)
Theorem marker_before_line_break before marker keyword rest :
  mentions before = false ->
  map asciiLower marker = UNSPLASH ->
  (exists c t, keyword = c :: t /\ isWhiteSpace c = false) ->
  NEWLINE ∉ keyword ->
  rest = [] \/ (exists r, rest = NEWLINE :: r) ->
  mentions (keyword ++ rest) = false ->
  extractImage Rich (before ++ marker ++ nl ++ keyword ++ rest)
  = (trim keyword, trim (before ++ marker ++ nl ++ keyword ++ rest)).
Proof.
  intros Hb Hm (c & t & Hk & Hc) Hn Hrest Hno.
  assert (restOfLine (keyword ++ rest) = Some keyword) as Hline.
  { unfold restOfLine.
    assert (Forall (fun x => notNewline x = true) keyword) as Hall.
    { apply Forall_forall. intros x Hx. unfold notNewline.
      apply negb_true_iff, N.eqb_neq. by intros ->. }
    assert (takeWhile notNewline (keyword ++ rest) = keyword) as ->.
    { destruct Hrest as [->|[r ->]].
      - rewrite app_nil_r. by apply takeWhile_all.
      - by apply takeWhile_app_stop. }
    by rewrite Hk. }
  assert (unsplashMatch (marker ++ nl ++ keyword ++ rest) = Some keyword) as Hmatch.
  { destruct (marker_head _ Hm) as (m0 & mt & Hmk & _).
    rewrite Hmk at 1. cbn [app unsplashMatch].
    change (m0 :: mt ++ ?r) with ((m0 :: mt) ++ r). rewrite <- Hmk.
    rewrite (literal_ci _ _ _ Hm). cbn [mbind option_bind].
    unfold nl. cbn [app spaces].
    replace (isWhiteSpace NEWLINE) with true by done.
    assert (spaces restOfLine (keyword ++ rest) = Some keyword) as ->; [|done].
    rewrite Hk at 1. cbn [app]. rewrite spaces_stop by done.
    change (c :: t ++ rest) with ((c :: t) ++ rest). by rewrite <- Hk. }
  assert (removeUnsplash (marker ++ nl ++ keyword ++ rest)
          = marker ++ nl ++ keyword ++ rest) as Hremove.
  { destruct (marker_tail _ Hm) as (m0 & mt & Hmk & Hmt).
    rewrite Hmk at 1. cbn [app removeUnsplash].
    change (m0 :: mt ++ ?r) with ((m0 :: mt) ++ r). rewrite <- Hmk.
    rewrite (literal_ci _ _ _ Hm). cbn [mbind option_bind].
    assert (restOfLine (nl ++ keyword ++ rest) = None) as -> by done.
    cbn [mbind option_bind]. rewrite removeUnsplash_none.
    - by rewrite Hmk.
    - rewrite mentions_skip by done. unfold nl. cbn [app mentions].
      rewrite literal_other_head by done. done. }
  unfold extractImage. rewrite unsplashMatch_skip, Hmatch by done.
  by rewrite removeUnsplash_skip, Hremove by done.
Qed.

Lemma marker_before_line_break_witness :
  extractImage Rich ((js "Text" ++ nl) ++ js "Unsplash:" ++ nl ++ js "kids" ++ [])
  = (trim (js "kids"),
     trim ((js "Text" ++ nl) ++ js "Unsplash:" ++ nl ++ js "kids" ++ [])).
Proof.
  apply (marker_before_line_break (js "Text" ++ nl) (js "Unsplash:")
           (js "kids") []).
  - by vm_compute.
  - by vm_compute.
  - do 2 eexists. split; by vm_compute.
  - rewrite list_elem_of_In. vm_compute. intuition discriminate.
  - by left.
  - by vm_compute.
Defined.

End EdgeProps.

(** ** Whole runs *)

Module FlowFacts.
Import JS Gen Script Trace Safety DriverFacts RunFacts.

Section Runs.
Variable v : Variant.
Variable w : World.

(** An entry that does not throw has been requested, written and logged. *)
Lemma processItem_done key item tr tr1 :
  processItem v w key item tr = (tr1, inr tt) ->
  exists content md,
    tr1 = tr ++ entryEvents v w key (item, content)
    /\ truthy md = true
    /\ document v item md = inr content.
Proof.
  unfold processItem, postJson, writeOut, mbind, M_bind, bind, emit, history,
    throw, ret.
  fold (request v w key item). fold (writtenLine item).
  destruct (fetch w (tr ++ [Log (startLine item)]) (request v w key item))
    as [res|]; rewrite snoc2; [|done].
  destruct (ok res); cbn [negb]; [|done].
  destruct (json res) as [j|]; [|done].
  destruct (contentOf j) as [[| | |[|c s]| |]|]; try done.
  destruct (document v item (c :: s)) as [e|content] eqn:Hd; [done|].
  rewrite <- app_assoc. cbn [app].
  destruct (writeFile w _ _ _); [|done].
  rewrite <- app_assoc. cbn [app]. intros [= <-].
  by exists content, (c :: s).
Qed.

Lemma forEach_done key outline tr tr1 :
  forEach v w key outline tr = (tr1, inr tt) ->
  exists contents,
    Forall2 (fun item content =>
               exists md, truthy md = true /\ document v item md = inr content)
      outline contents
    /\ tr1 = tr ++ flat_map (entryEvents v w key) (zip outline contents).
Proof.
  revert tr. induction outline as [|item r IH]; intros tr.
  { intros [= <-]. exists []. split; [constructor|]. cbn. by rewrite app_nil_r. }
  cbn [forEach]. unfold mbind, M_bind, bind.
  destruct (processItem v w key item tr) as [tr' [e|[]]] eqn:Hp; [done|].
  apply processItem_done in Hp as (content & md & -> & Hm & Hd).
  intros (contents & Hall & ->)%IH. exists (content :: contents).
  split; [constructor; [by exists md|done]|].
  cbn [zip zip_with flat_map]. by rewrite <- !app_assoc.
Qed.

(** *** Runs with two credentials *)

Hypothesis Hblind : keyBlind w.

Lemma eraseKey_snoc tr tr' e e' :
  map eraseKey tr = map eraseKey tr' -> eraseKey e = eraseKey e' ->
  map eraseKey (tr ++ [e]) = map eraseKey (tr' ++ [e']).
Proof. intros H1 H2. rewrite !map_app. cbn [map]. by rewrite H1, H2. Qed.

Lemma blind_request k1 k2 item :
  blind (request v w k1 item) = blind (request v w k2 item).
Proof.
  unfold blind. cbn [request url model systemContent userContent]. reflexivity.
Qed.

Lemma processItem_blind k1 k2 item tr tr' :
  map eraseKey tr = map eraseKey tr' ->
  map eraseKey (fst (processItem v w k1 item tr))
  = map eraseKey (fst (processItem v w k2 item tr'))
  /\ snd (processItem v w k1 item tr) = snd (processItem v w k2 item tr').
Proof.
  intros Htr. destruct Hblind as (Hfetch & Hwrite & _).
  unfold processItem, postJson, writeOut, mbind, M_bind, bind, emit, history,
    throw, ret.
  fold (request v w k1 item). fold (request v w k2 item).
  fold (writtenLine item).
  assert (map eraseKey (tr ++ [Log (startLine item)])
          = map eraseKey (tr' ++ [Log (startLine item)])) as H1
    by (by apply eraseKey_snoc).
  assert (map eraseKey ((tr ++ [Log (startLine item)])
                          ++ [Fetch (request v w k1 item)])
          = map eraseKey ((tr' ++ [Log (startLine item)])
                            ++ [Fetch (request v w k2 item)])) as H2
    by (apply eraseKey_snoc; [exact H1|];
        cbn [eraseKey]; apply f_equal, blind_request).
  rewrite (Hfetch _ _ _ (request v w k2 item) H1 (blind_request k1 k2 item)).
  destruct (fetch w (tr' ++ [Log (startLine item)]) (request v w k2 item))
    as [res|]; [|done].
  destruct (ok res); cbn [negb]; [|done].
  destruct (json res) as [j|]; [|done].
  destruct (contentOf j) as [[| | |[|c s]| |]|]; try done.
  destruct (document v item (c :: s)) as [e|content]; [done|].
  assert (map eraseKey (((tr ++ [Log (startLine item)])
                           ++ [Fetch (request v w k1 item)])
                          ++ [WriteFile (outPath item) content])
          = map eraseKey (((tr' ++ [Log (startLine item)])
                             ++ [Fetch (request v w k2 item)])
                            ++ [WriteFile (outPath item) content])) as H3
    by (by apply eraseKey_snoc).
  rewrite (Hwrite _ _ _ _ H2).
  destruct (writeFile w _ _ _); cbn [fst snd]; [|done].
  split; [|done]. by apply eraseKey_snoc.
Qed.

Lemma forEach_blind k1 k2 outline tr tr' :
  map eraseKey tr = map eraseKey tr' ->
  map eraseKey (fst (forEach v w k1 outline tr))
  = map eraseKey (fst (forEach v w k2 outline tr'))
  /\ snd (forEach v w k1 outline tr) = snd (forEach v w k2 outline tr').
Proof.
  revert tr tr'. induction outline as [|item r IH]; intros tr tr' Htr; [done|].
  cbn [forEach]. unfold mbind, M_bind, bind.
  destruct (processItem_blind k1 k2 item tr tr' Htr) as [H1 H2].
  destruct (processItem v w k1 item tr) as [t1 r1],
    (processItem v w k2 item tr') as [t2 r2]; cbn [fst snd] in *. subst r2.
  destruct r1 as [e|[]]; [done|]. by apply IH.
Qed.

End Runs.

End FlowFacts.

Module FlowProps.
Import JS Gen Script Trace Safety Samples MoreSamples DriverFacts RunFacts
  FlowFacts.

(** X21: a run that exits with code 0 has done exactly this, in this order:
    the credential lookup, the read of the outline, the creation of the
    output directory, then for each entry of the outline in turn its start
    line, its request, the write of its document and its line of success,
    and at the end the line that announces completion.  Every entry has been
    written, each with the document built from a completion that was not
    empty. *)
Theorem successful_run v w :
  snd (script v w) = 0%Z ->
  exists contents,
    Forall2 (fun item content =>
               exists md, truthy md = true /\ document v item md = inr content)
      (outlineOf w) contents
    /\ fst (script v w)
       = keyReads v w ++ [ReadFile OUTLINE_PATH; Mkdir OUT_DIR]
         ++ flat_map (entryEvents v w (keyOf v w)) (zip (outlineOf w) contents)
         ++ [Log DONE].
Proof.
  unfold script. rewrite resolveKey_reads.
  destruct (negb (truthy (keyOf v w))); [done|].
  rewrite main_eq. fold DONE. unfold outlineOf.
  destruct (files w !! OUTLINE_PATH) as [raw|]; [|done].
  destruct (parseOutline w raw) as [outline|]; [|done].
  destruct (mkdir w _ _); [|done].
  destruct (forEach v w (keyOf v w) outline _) as [tr1 [e|[]]] eqn:Hf; [done|].
  intros _. apply forEach_done in Hf as (contents & Hall & ->).
  exists contents. split; [done|]. cbn [fst]. by rewrite <- !app_assoc.
Qed.

Lemma successful_run_witness :
  snd (script Simple answering) = 0%Z
  /\ exists contents,
       Forall2 (fun item content =>
                  exists md, truthy md = true
                             /\ document Simple item md = inr content)
         (outlineOf answering) contents
       /\ fst (script Simple answering)
          = keyReads Simple answering ++ [ReadFile OUTLINE_PATH; Mkdir OUT_DIR]
            ++ flat_map (entryEvents Simple answering (keyOf Simple answering))
                 (zip (outlineOf answering) contents)
            ++ [Log DONE].
Proof.
  assert (snd (script Simple answering) = 0%Z) as H by (by vm_compute).
  split; [exact H|]. exact (successful_run _ _ H).
Defined.

(** X22: the credential goes nowhere but into the authorization header.
    When the outside does not answer by the credential, two runs of [main]
    with different credentials have the same events up to that header, the
    same lines on the console and the same files written, and end
    alike. *)
Theorem key_only_in_header v w k1 k2 tr :
  keyBlind w ->
  map eraseKey (fst (main v w k1 tr)) = map eraseKey (fst (main v w k2 tr))
  /\ snd (main v w k1 tr) = snd (main v w k2 tr).
Proof.
  intros Hb. rewrite !main_eq.
  destruct (files w !! OUTLINE_PATH) as [raw|]; [|done].
  destruct (parseOutline w raw) as [outline|]; [|done].
  destruct (mkdir w _ _); [|done].
  destruct (forEach_blind v w Hb k1 k2 outline
              (tr ++ [ReadFile OUTLINE_PATH; Mkdir OUT_DIR])
              (tr ++ [ReadFile OUTLINE_PATH; Mkdir OUT_DIR]) eq_refl) as [H1 H2].
  destruct (forEach v w k1 outline _) as [t1 r1],
    (forEach v w k2 outline _) as [t2 r2]; cbn [fst snd] in *. subst r2.
  destruct r1 as [e|[]]; cbn [fst snd]; [done|].
  split; [|done]. by apply eraseKey_snoc.
Qed.

Lemma key_only_in_header_witness :
  keyBlind answering
  /\ map eraseKey (fst (main Rich answering (js "sk-1") []))
     = map eraseKey (fst (main Rich answering (js "sk-2") [])).
Proof.
  assert (keyBlind answering) as H by (by repeat split).
  split; [exact H|].
  exact (proj1 (key_only_in_header Rich answering (js "sk-1") (js "sk-2") [] H)).
Defined.

End FlowProps.
